(** * ROICaT data importing: a shallow embedding of [roicat/data_importing.py]

    The development follows the Python module function by function.  NumPy
    integer arrays are lists of [Z]; footprint weights are rationals ([Q]),
    i.e. float arithmetic is idealised as exact arithmetic; a float that is
    NaN or infinite is [None] in [npfloat].  A Python call either returns a
    value or raises: [result].  *)

From Stdlib Require Import ZArith QArith List Bool String Lia Lqa Permutation.
Import ListNotations.
Open Scope Z_scope.

(** ** Python results *)

Inductive exn : Type :=
| AssertionError
| ValueError
| AttributeError
| IndexError.

Inductive result (A : Type) : Type :=
| Ok (a : A)
| Raise (e : exn).

Arguments Ok {A} a.
Arguments Raise {A} e.

Definition bind {A B : Type} (m : result A) (k : A -> result B) : result B :=
  match m with
  | Ok a => k a
  | Raise e => Raise e
  end.

Notation "x <- m ;; k" := (bind m (fun x => k))
  (at level 61, m at next level, right associativity).

Definition len {A : Type} (l : list A) : Z := Z.of_nat (List.length l).

(** [l[i]] for a non-negative index; Python raises IndexError out of range. *)
Definition getitem {A : Type} (l : list A) (i : Z) : result A :=
  if i <? 0 then Raise IndexError
  else match nth_error l (Z.to_nat i) with
       | Some a => Ok a
       | None => Raise IndexError
       end.

(** [[f(ii, x) for ii, x in enumerate(l)]] where [f] may raise. *)
Fixpoint enumerate_from {A B : Type} (f : Z -> A -> result B) (ii : Z) (l : list A)
  : result (list B) :=
  match l with
  | [] => Ok []
  | x :: t =>
      y <- f ii x ;;
      ys <- enumerate_from f (ii + 1) t ;;
      Ok (y :: ys)
  end.

(** [[f(x) for x in l]] where [f] may raise. *)
Fixpoint for_each {A B : Type} (f : A -> result B) (l : list A) : result (list B) :=
  match l with
  | [] => Ok []
  | x :: t => y <- f x ;; ys <- for_each f t ;; Ok (y :: ys)
  end.

(** ** NumPy *)

Module NP.

(** A float: a rational, or [None] for NaN and the infinities. *)
Definition npfloat : Type := option Q.

Definition arange (n : Z) : list Z := map Z.of_nat (seq 0 (Z.to_nat n)).

(** [np.diff] of a one-dimensional integer array. *)
Fixpoint diff (l : list Z) : list Z :=
  match l with
  | a :: (b :: _) as t => (b - a) :: diff t
  | _ => []
  end.

Fixpoint cumsum_from (acc : Z) (l : list Z) : list Z :=
  match l with
  | [] => []
  | x :: t => (acc + x) :: cumsum_from (acc + x) t
  end.

Definition cumsum (l : list Z) : list Z := cumsum_from 0 l.

(** [a[st:en]] for non-negative bounds. *)
Definition slice {A : Type} (l : list A) (st en : Z) : list A :=
  firstn (Z.to_nat (en - st)) (skipn (Z.to_nat st) l).

(** [np.split(a, indices)]: the pieces between consecutive division points
    [0, indices..., len(a)]. *)
Fixpoint split_from {A : Type} (l : list A) (st : Z) (indices : list Z) : list (list A) :=
  match indices with
  | [] => [slice l st (len l)]
  | en :: rest => slice l st en :: split_from l en rest
  end.

Definition split {A : Type} (l : list A) (indices : list Z) : list (list A) :=
  split_from l 0 indices.

(** [np.ceil(n / 2).astype(int)] for an integer [n]. *)
Definition ceil_half (n : Z) : Z := (n + 1) / 2.

(** [np.round]: to the nearest integer, halves to the even neighbour. *)
Definition round (q : Q) : Z :=
  let n := Qnum q in
  let d := Zpos (Qden q) in
  let f := n / d in
  let r2 := 2 * (n mod d) in
  if r2 <? d then f
  else if d <? r2 then f + 1
  else if Z.even f then f else f + 1.

Definition int64_min : Z := - 2 ^ 63.
Definition int64_max : Z := 2 ^ 63 - 1.

(** [np.round(x).astype(np.int64)]: defined for a finite value inside the
    int64 range; [None] stands for the unspecified integer NumPy produces
    from NaN, an infinity or an out-of-range value. *)
Definition round_astype_int64 (x : npfloat) : option Z :=
  match x with
  | Some q =>
      let z := round q in
      if (int64_min <=? z) && (z <=? int64_max) then Some z else None
  | None => None
  end.

(** Float division: a zero divisor gives NaN or an infinity. *)
Definition fdiv (a b : Q) : npfloat :=
  if Qeq_bool b 0 then None else Some (a / b)%Q.

Definition qsum (l : list Q) : Q := fold_right Qplus 0%Q l.

(** [a < b] on floats that are finite. *)
Definition Qltb (a b : Q) : bool := negb (Qle_bool b a).

Fixpoint insert_sorted (x : Z) (l : list Z) : list Z :=
  match l with
  | [] => [x]
  | y :: t => if x <=? y then x :: l else y :: insert_sorted x t
  end.

Definition sort (l : list Z) : list Z := fold_right insert_sorted [] l.

(** [np.nanmedian] of one row whose finite values are integers: NaN entries
    ([None]) are ignored; a row of NaNs only gives NaN. *)
Definition nanmedian (l : list (option Z)) : npfloat :=
  let vals := sort (flat_map (fun o => match o with Some v => [v] | None => [] end) l) in
  let n := List.length vals in
  match n with
  | O => None
  | _ =>
      if Nat.even n
      then Some (Qdiv (Qplus (inject_Z (nth (Nat.div n 2 - 1)%nat vals 0))
                             (inject_Z (nth (Nat.div n 2) vals 0)))
                      (inject_Z 2))
      else Some (inject_Z (nth (Nat.div n 2) vals 0))
  end.

(** Unsigned 64-bit wrap-around. *)
Definition uint64 (z : Z) : Z := z mod 2 ^ 64.

(** [+] on [np.uint64] operands. *)
Definition add_uint64 (a b : Z) : Z := uint64 (a + b).

End NP.

(** ** scipy.sparse and sparse.COO *)

Module Sparse.

(** A [scipy.sparse] CSR matrix of shape [(len csr_rows, csr_ncols)]: row by
    row, the stored (column, value) pairs in storage order. *)
Record csr_matrix (V : Type) : Type := {
  csr_ncols : Z;
  csr_rows : list (list (Z * V))
}.

Arguments csr_ncols {V} _.
Arguments csr_rows {V} _.

Definition csr_nrows {V : Type} (sf : csr_matrix V) : Z := len (csr_rows sf).

(** Every stored column index lies inside the matrix. *)
Definition csr_wf {V : Type} (sf : csr_matrix V) : Prop :=
  forall row, In row (csr_rows sf) -> forall k v, In (k, v) row -> 0 <= k < csr_ncols sf.

(** A [sparse.COO] array, as its coordinate list: the stored entries
    (coordinates, value) in storage order, which is row-major. *)
Record COO2 (V : Type) : Type := {
  shape2 : Z * Z;
  nz2 : list (Z * Z * V)
}.

Record COO3 (V : Type) : Type := {
  shape3 : Z * Z * Z;
  nz3 : list (Z * Z * Z * V)
}.

Arguments shape2 {V} _.
Arguments nz2 {V} _.
Arguments shape3 {V} _.
Arguments nz3 {V} _.

Section Coordinates.
Context {V : Type}.

(** The rows [x.coords[0]], [x.coords[1]], [x.coords[2]] and [x.data]. *)
Definition coords0 (x : COO3 V) : list Z := map (fun e : Z * Z * Z * V => fst (fst (fst e))) (nz3 x).
Definition coords1 (x : COO3 V) : list Z := map (fun e : Z * Z * Z * V => snd (fst (fst e))) (nz3 x).
Definition coords2 (x : COO3 V) : list Z := map (fun e : Z * Z * Z * V => snd (fst e)) (nz3 x).
Definition data (x : COO3 V) : list V := map (fun e : Z * Z * Z * V => snd e) (nz3 x).

(** [x.coords = np.array([c0, c1, c2])]: the data stay, the coordinates are
    replaced column by column. *)
Definition set_coords (x : COO3 V) (c0 c1 c2 : list Z) : COO3 V :=
  {| shape3 := shape3 x;
     nz3 := combine (combine (combine c0 c1) c2) (data x) |}.

Fixpoint csr_entries_from (i : Z) (rows : list (list (Z * V))) : list (Z * Z * V) :=
  match rows with
  | [] => []
  | row :: rest =>
      map (fun kv : Z * V => (i, fst kv, snd kv)) row ++ csr_entries_from (i + 1) rest
  end.

(** [sparse.COO(sf)] of a CSR matrix. *)
Definition COO (sf : csr_matrix V) : COO2 V :=
  {| shape2 := (csr_nrows sf, csr_ncols sf);
     nz2 := csr_entries_from 0 (csr_rows sf) |}.

(** [x.reshape((d0, d1, d2))] of a two-dimensional array: every entry keeps
    its linear (row-major) location; sizes must agree. *)
Definition reshape3 (x : COO2 V) (shape : Z * Z * Z) : result (COO3 V) :=
  let '(d0, d1, d2) := shape in
  let '(n, m) := shape2 x in
  if negb (n * m =? d0 * d1 * d2) then Raise ValueError
  else Ok {| shape3 := shape;
             nz3 := map (fun e : Z * Z * V =>
                           let '(r, c, v) := e in
                           let loc := r * m + c in
                           ((loc / (d1 * d2)) mod d0, (loc / d2) mod d1, loc mod d2, v))
                        (nz2 x) |}.

(** [x.reshape((d0, d1))] of a three-dimensional array. *)
Definition reshape2 (x : COO3 V) (shape : Z * Z) : result (COO2 V) :=
  let '(d0, d1) := shape in
  let '(n, h, w) := shape3 x in
  if negb (n * h * w =? d0 * d1) then Raise ValueError
  else Ok {| shape2 := shape;
             nz2 := map (fun e : Z * Z * Z * V =>
                           let '(a, b, c, v) := e in
                           let loc := (a * h + b) * w + c in
                           ((loc / d1) mod d0, loc mod d1, v))
                        (nz3 x) |}.

(** Storage order of a COO array is that of the linear location. *)
Fixpoint insert_entry (d1 d2 : Z) (e : Z * Z * Z * V) (l : list (Z * Z * Z * V))
  : list (Z * Z * Z * V) :=
  match l with
  | [] => [e]
  | e' :: t =>
      let '(a, b, c, _) := e in
      let '(a', b', c', _) := e' in
      if (a * d1 + b) * d2 + c <=? (a' * d1 + b') * d2 + c' then e :: l
      else e' :: insert_entry d1 d2 e t
  end.

(** [x.transpose((0, 2, 1))]: the two last axes are exchanged and the entries
    put back in storage order. *)
Definition transpose_021 (x : COO3 V) : COO3 V :=
  let '(n, h, w) := shape3 x in
  {| shape3 := (n, w, h);
     nz3 := fold_right (insert_entry w h) []
              (map (fun e : Z * Z * Z * V => let '(a, b, c, v) := e in (a, c, b, v)) (nz3 x)) |}.

(** [x.tocsr()]. *)
Definition tocsr (x : COO2 V) : csr_matrix V :=
  {| csr_ncols := snd (shape2 x);
     csr_rows :=
       map (fun i =>
              flat_map (fun e : Z * Z * V =>
                          let '(r, c, v) := e in if r =? i then [(c, v)] else [])
                       (nz2 x))
           (NP.arange (fst (shape2 x))) |}.

(** [x[:, :stop1, :stop2]] for non-negative stops: the slice of each axis is
    clipped to the axis, and the entries inside it are kept. *)
Definition getitem_slices (x : COO3 V) (stop1 stop2 : Z) : COO3 V :=
  let '(n, h, w) := shape3 x in
  let h' := Z.min stop1 h in
  let w' := Z.min stop2 w in
  {| shape3 := (n, h', w');
     nz3 := filter (fun e : Z * Z * Z * V =>
                      let '(_, b, c, _) := e in
                      (0 <=? b) && (b <? h') && (0 <=? c) && (c <? w'))
                   (nz3 x) |}.

(** [scipy.sparse.vstack([a, b])]. *)
Definition vstack2 (a b : csr_matrix V) : result (csr_matrix V) :=
  if csr_ncols a =? csr_ncols b
  then Ok {| csr_ncols := csr_ncols a; csr_rows := csr_rows a ++ csr_rows b |}
  else Raise ValueError.

End Coordinates.

(** A dense three-dimensional NumPy array. *)
Record ndarray3 : Type := {
  nd_shape : Z * Z * Z;
  nd_data : list (list (list Q))
}.

(** The value stored at a coordinate; as in [x[coords] = data] the last
    stored entry of a coordinate counts, and an absent one is the fill 0. *)
Definition coo_get (x : COO3 Q) (i r c : Z) : Q :=
  fold_left (fun acc (e : Z * Z * Z * Q) =>
               let '(a, b, d, v) := e in
               if (a =? i) && (b =? r) && (d =? c) then v else acc)
            (nz3 x) 0%Q.

(** [x.todense()]. *)
Definition todense (x : COO3 Q) : ndarray3 :=
  let '(n, h, w) := shape3 x in
  {| nd_shape := shape3 x;
     nd_data := map (fun i => map (fun r => map (fun c => coo_get x i r c) (NP.arange w))
                                  (NP.arange h))
                    (NP.arange n) |}.

(** [x.sum(axis=2)] and [x.sum(axis=1)], densely: entry [i][r] is the total
    of ROI [i] over row [r] (resp. column [r]). *)
Definition sum_axis2 (x : COO3 Q) : list (list Q) :=
  let '(n, h, _) := shape3 x in
  map (fun i => map (fun r =>
         NP.qsum (flat_map (fun e : Z * Z * Z * Q =>
                              let '(a, b, _, v) := e in
                              if (a =? i) && (b =? r) then [v] else []) (nz3 x)))
       (NP.arange h))
      (NP.arange n).

Definition sum_axis1 (x : COO3 Q) : list (list Q) :=
  let '(n, _, w) := shape3 x in
  map (fun i => map (fun c =>
         NP.qsum (flat_map (fun e : Z * Z * Z * Q =>
                              let '(a, _, d, v) := e in
                              if (a =? i) && (d =? c) then [v] else []) (nz3 x)))
       (NP.arange w))
      (NP.arange n).

(** Indexing a dense array; [None] outside it. *)
Definition nd_get (a : ndarray3) (i r c : Z) : option Q :=
  if (i <? 0) || (r <? 0) || (c <? 0) then None
  else
    match nth_error (nd_data a) (Z.to_nat i) with
    | Some plane =>
        match nth_error plane (Z.to_nat r) with
        | Some line => nth_error line (Z.to_nat c)
        | None => None
        end
    | None => None
    end.

End Sparse.

Import Sparse.

(** ** [helpers] *)

(** Modelled from the spec: [helpers.idx2bool] is outside the module; the
    spec describes its result as a one-hot row, true at column [idx], of the
    given length. *)
Definition idx2bool (idx : Z) (length : Z) : list bool :=
  map (fun j => j =? idx) (NP.arange length).

(** ** Module-level code shared by the data classes *)

(** [np.array([row] * k)] seen through [np.vstack]'s [atleast_2d]: [k] copies
    of the row, and for [k = 0] the empty array, which becomes one row of no
    column. *)
Definition repeated_rows (row : list bool) (k : Z) : list (list bool) :=
  match Z.to_nat k with
  | O => [[]]
  | n => repeat row n
  end.

(** [np.vstack(blocks)]: at least one block, all of one width. *)
Definition vstack (blocks : list (list (list bool))) : result (list (list bool)) :=
  match blocks with
  | [] => Raise ValueError
  | b :: _ =>
      let width (m : list (list bool)) := len (hd [] m) in
      if forallb (fun m => width m =? width b) blocks
      then Ok (List.concat blocks)
      else Raise ValueError
  end.

(** Lines 266, 435 and 705: [self.sessionID_concat = np.vstack([...])]; of the
    footprint matrices only the row counts [sesh.shape[0]] are read. *)
Definition sessionID_concat (shape0 : list Z) : result (list (list bool)) :=
  blocks <- enumerate_from
              (fun i_sesh n => Ok (repeated_rows (idx2bool i_sesh (len shape0)) n))
              0 shape0 ;;
  vstack blocks.

(** The value of an attribute as [import_ROI_labels] inspects it. *)
Inductive attribute : Type :=
| NoAttribute
| PyList (lengths : list Z)
| NdArray (shape0 : Z).

Section Labels.
(** [helpers.squeeze_integers] is outside the module; it is a parameter. *)
Variable squeeze_integers : list Z -> list Z.

(** [import_ROI_labels] (lines 175-196, and word for word 622-643). *)
Definition import_ROI_labels (statFiles : attribute) (raw_labels : list (list Z))
  : result (list Z) :=
  let labelFiles := squeeze_integers (List.concat raw_labels) in
  match statFiles with
  | NoAttribute => Raise AttributeError
  | NdArray shape0 =>
      if shape0 =? len labelFiles then Ok labelFiles else Raise AssertionError
  | PyList _ => Ok labelFiles
  end.
End Labels.

(** [sf_to_centeredROIs] (lines 324-340, and word for word 559-575), with
    [self.FOV_height] and [self.FOV_width] as arguments. *)
Definition sf_to_centeredROIs (FOV_height FOV_width : Z) (sf : csr_matrix Q)
    (centroids : list Z * list Z) (out_height_width : Z * Z) : result ndarray3 :=
  let out_height_width := (36, 36) in
  let half_widths := (NP.ceil_half (fst out_height_width), NP.ceil_half (snd out_height_width)) in
  sf_rs <- reshape3 (COO sf) (csr_nrows sf, FOV_height, FOV_width) ;;
  let coords_diff := NP.diff (coords0 sf_rs) in
  if negb (forallb (fun d => NP.Qltb (inject_Z d) (101 # 100)) coords_diff
           && forallb (fun d => NP.Qltb (- (1 # 100)) (inject_Z d)) coords_diff)
  then Raise AssertionError
  else
    let counts :=
      map (fun i => len (filter (fun e : Z * Z * Z * Q =>
                                   (fst (fst (fst e)) =? i) && NP.Qltb 0 (snd e))
                                (nz3 sf_rs)))
          (NP.arange (fst (fst (shape3 sf_rs)))) in
    let idx_split := removelast (NP.cumsum counts) in
    let coords_split0 := NP.split (coords0 sf_rs) idx_split in
    let coords_split1 := NP.split (coords1 sf_rs) idx_split in
    let coords_split2 := NP.split (coords2 sf_rs) idx_split in
    coords_split1 <- enumerate_from
      (fun ii coords =>
         c <- getitem (fst centroids) ii ;;
         Ok (map (fun x => x - c + fst half_widths) coords))
      0 coords_split1 ;;
    coords_split2 <- enumerate_from
      (fun ii coords =>
         c <- getitem (snd centroids) ii ;;
         Ok (map (fun x => x - c + snd half_widths) coords))
      0 coords_split2 ;;
    let sf_rs_centered :=
      set_coords sf_rs (List.concat coords_split0) (List.concat coords_split1) (List.concat coords_split2) in
    let sf_rs_centered :=
      getitem_slices sf_rs_centered (fst out_height_width) (snd out_height_width) in
    Ok (todense sf_rs_centered).

(** What [get_centroids] returns: [None], or the integer array
    [[h_mean, w_mean]] of shape (2, n_roi). *)
Inductive centroids_value : Type :=
| PyNone
| Centroids (h_mean w_mean : list (option Z)).

(** [((wt * np.arange(wt.shape[1]).reshape(1,-1)).sum(1) / wt.sum(1)).todense()] *)
Definition weighted_mean (wt : list (list Q)) (width : Z) : list NP.npfloat :=
  map (fun row =>
         NP.fdiv (NP.qsum (map (fun wi : Q * Z => Qmult (fst wi) (inject_Z (snd wi)))
                               (combine row (NP.arange width))))
                 (NP.qsum row))
      wt.

(** Lines 671-673: the index of every position with a non-zero total, zeros
    turned into NaN, and the median of what is left. *)
Definition nonzero_index_median (wt : list (list Q)) (width : Z) : list NP.npfloat :=
  map (fun row =>
         let h_mean :=
           map (fun wi : Q * Z => if negb (Qeq_bool (fst wi) 0) then snd wi else 0)
               (combine row (NP.arange width)) in
         let h_mean := map (fun x => if x =? 0 then None else Some x) h_mean in
         NP.nanmedian h_mean)
      wt.

Module Data_suite2p.

(** The two fields of an [ops.npy] record read by [__init__]. *)
Record ops : Type := {
  yrange : list Z;
  xrange : list Z
}.

(** [a.min()] of an integer array. *)
Definition array_min (a : list Z) : result Z :=
  match a with
  | [] => Raise ValueError
  | x :: t => Ok (fold_left Z.min t x)
  end.

(** [__init__], lines 66-75: [self.shifts].  The ranges hold signed integers;
    [np.array([...], dtype=np.uint64)] stores each component modulo 2^64. *)
Definition shifts (new_or_old_suite2p : string) (paths_opsFiles : option (list ops))
    (n_statFiles : nat) : result (list (Z * Z)) :=
  match paths_opsFiles with
  | Some ops_files =>
      if String.eqb new_or_old_suite2p "old"
      then for_each (fun op =>
                       ymin <- array_min (yrange op) ;;
                       xmin <- array_min (xrange op) ;;
                       Ok (NP.uint64 (ymin - 1), NP.uint64 (xmin - 1)))
                    ops_files
      else Ok (repeat (0, 0) n_statFiles)
  | None => Ok (repeat (0, 0) n_statFiles)
  end.

(** [get_centroids], lines 294-304. *)
Definition get_centroids (centroid_method : string) (sf : csr_matrix Q)
    (FOV_height FOV_width : Z) : result centroids_value :=
  sf_rs <- reshape3 (COO sf) (csr_nrows sf, FOV_height, FOV_width) ;;
  let w_wt := sum_axis2 sf_rs in
  let h_wt := sum_axis1 sf_rs in
  if String.eqb centroid_method "centroid" then
    let h_mean := weighted_mean w_wt FOV_height in
    let w_mean := weighted_mean h_wt FOV_width in
    Ok (Centroids (map NP.round_astype_int64 h_mean) (map NP.round_astype_int64 w_mean))
  else if String.eqb centroid_method "median" then
    Ok PyNone
  else Raise ValueError.

Definition sf_to_centeredROIs := sf_to_centeredROIs.

(** [import_ROI_labels]: [self.statFiles] is the list built by
    [import_statFiles]. *)
Definition import_ROI_labels (squeeze_integers : list Z -> list Z) (n_roi : list Z)
    (raw_labels : list (list Z)) : result (list Z) :=
  import_ROI_labels squeeze_integers (PyList n_roi) raw_labels.

End Data_suite2p.

Module Data_caiman.

(** [get_centroids], lines 665-679. *)
Definition get_centroids (centroid_method : string) (sf : csr_matrix Q)
    (FOV_height FOV_width : Z) : result centroids_value :=
  sf_rs <- reshape3 (COO sf) (csr_nrows sf, FOV_height, FOV_width) ;;
  let w_wt := sum_axis2 sf_rs in
  let h_wt := sum_axis1 sf_rs in
  if String.eqb centroid_method "centroid" then
    let h_mean := weighted_mean w_wt FOV_height in
    let w_mean := weighted_mean h_wt FOV_width in
    Ok (Centroids (map NP.round_astype_int64 h_mean) (map NP.round_astype_int64 w_mean))
  else if String.eqb centroid_method "median" then
    let h_mean := nonzero_index_median w_wt FOV_height in
    let w_mean := nonzero_index_median h_wt FOV_width in
    Ok (Centroids (map NP.round_astype_int64 h_mean) (map NP.round_astype_int64 w_mean))
  else Raise ValueError.

Definition sf_to_centeredROIs := sf_to_centeredROIs.

(** [import_ROI_labels]: the class never sets [self.statFiles]. *)
Definition import_ROI_labels (squeeze_integers : list Z -> list Z)
    (raw_labels : list (list Z)) : result (list Z) :=
  import_ROI_labels squeeze_integers NoAttribute raw_labels.

(** [_import_spatialFootprints], lines 486-497, from the decoded matrices:
    [sf_included] and [sf_discarded] are the CSR matrices of lines 486 and
    489, one row per component, every row flattened in Fortran order. *)
Definition _import_spatialFootprints (FOV_height FOV_width : Z)
    (sf_included sf_discarded : csr_matrix Q) (include_discarded : bool)
  : result (csr_matrix Q) :=
  sf_F <- (if include_discarded then vstack2 sf_included sf_discarded else Ok sf_included) ;;
  a <- reshape3 (COO sf_F) (csr_nrows sf_F, FOV_width, FOV_height) ;;
  b <- reshape2 (transpose_021 a) (csr_nrows sf_F, FOV_width * FOV_height) ;;
  Ok (tocsr b).

End Data_caiman.

(** ** [_helper_populate_sf] *)

(** One record of a [stat.npy] file. *)
Record roi : Type := {
  ypix : list Z;
  xpix : list Z;
  lam : list Q
}.

(** The [dtype] argument: a float type, or an integer type with its
    [np.iinfo(dtype).max]. *)
Inductive dtype : Type :=
| FloatType
| IntegerType (iinfo_max : Z).

Definition fadd (a b : NP.npfloat) : NP.npfloat :=
  match a, b with
  | Some x, Some y => Some (Qplus x y)
  | _, _ => None
  end.

(** Canonical storage of [scipy.sparse]: ascending keys, the values of a
    repeated key added up. *)
Fixpoint insert_sum (k : Z) (v : NP.npfloat) (l : list (Z * NP.npfloat))
  : list (Z * NP.npfloat) :=
  match l with
  | [] => [(k, v)]
  | (k', v') :: t =>
      if k <? k' then (k, v) :: l
      else if k =? k' then (k', fadd v' v) :: t
      else (k', v') :: insert_sum k v t
  end.

Definition canonical (l : list (Z * NP.npfloat)) : list (Z * NP.npfloat) :=
  fold_left (fun acc kv => insert_sum (fst kv) (snd kv) acc) l [].

(** [scipy.sparse.csr_array((lam, (ypix, xpix)), shape=(h, w)).reshape(1, -1)]:
    the three arrays have one length and every index lies inside the shape,
    or ValueError; pixel (y, x) is stored at column [y * w + x]. *)
Definition csr_array_flat (lam : list NP.npfloat) (ypix xpix : list Z) (shape : Z * Z)
  : result (list (Z * NP.npfloat)) :=
  let '(h, w) := shape in
  if negb ((len ypix =? len lam) && (len xpix =? len lam)) then Raise ValueError
  else if negb (forallb (fun y => y <? h) ypix && forallb (fun x => x <? w) xpix)
  then Raise ValueError
  else Ok (canonical (map (fun e : Z * Z * NP.npfloat =>
                             let '(y, x, v) := e in (y * w + x, v))
                          (combine (combine ypix xpix) lam))).

(** Lines 752-756: the weights of one ROI, normalised. *)
Definition normalised_lam (dt : dtype) (isInt : bool) (lam : list Q)
  : result (list NP.npfloat) :=
  let total := NP.qsum lam in
  if isInt then
    match dt with
    | IntegerType m =>
        Ok (map (fun l => match NP.fdiv l total with
                          | Some q => Some (inject_Z (Z.quot (Qnum (q * inject_Z m))
                                                             (Zpos (Qden (q * inject_Z m)))))
                          | None => None
                          end)
                lam)
    | FloatType => Raise ValueError
    end
  else Ok (map (fun l => NP.fdiv l total) lam).

(** Lines 752-761: the body of the loop over the ROIs. *)
Definition populate_roi (frame_height_width : Z * Z) (dt : dtype) (isInt : bool)
    (shifts : Z * Z) (r : roi) : result (list (Z * NP.npfloat)) :=
  lam' <- normalised_lam dt isInt (lam r) ;;
  let ypix' := map (fun y => NP.add_uint64 (NP.uint64 y) (fst shifts)) (ypix r) in
  let xpix' := map (fun x => NP.add_uint64 (NP.uint64 x) (snd shifts)) (xpix r) in
  csr_array_flat lam' ypix' xpix' frame_height_width.

(** Lines 737-763. *)
Definition _helper_populate_sf (n_roi : Z) (frame_height_width : Z * Z) (stat : list roi)
    (dt : dtype) (isInt : bool) (shifts : Z * Z) : result (csr_matrix NP.npfloat) :=
  rois_to_stack <- for_each (populate_roi frame_height_width dt isInt shifts) stat ;;
  match rois_to_stack with
  | [] => Raise ValueError
  | _ => Ok {| csr_ncols := fst frame_height_width * snd frame_height_width;
               csr_rows := rois_to_stack |}
  end.

(** ** Vocabulary of the statements *)

(** The session that owns global ROI row [r], sessions counted from [i]. *)
Fixpoint session_of_from (i : Z) (n_roi : list Z) (r : Z) : Z :=
  match n_roi with
  | [] => i
  | n :: rest => if r <? n then i else session_of_from (i + 1) rest (r - n)
  end.

Definition session_of (n_roi : list Z) (r : Z) : Z := session_of_from 0 n_roi r.

Definition zsum (l : list Z) : Z := fold_right Z.add 0 l.

(** The number of true entries of a boolean row. *)
Definition true_count (row : list bool) : Z := len (filter (fun b : bool => b) row).

(** The number of rows of a boolean matrix that are true in column [c]. *)
Definition column_true_count (m : list (list bool)) (c : Z) : Z :=
  len (filter (fun row => nth (Z.to_nat c) row false) m).



(** [sf[i, k]] of a CSR matrix: the stored values of column [k] in row [i],
    added up (0 when there is none). *)
Definition row_get (row : list (Z * Q)) (k : Z) : Q :=
  NP.qsum (flat_map (fun kv : Z * Q => if fst kv =? k then [snd kv] else []) row).

Definition csr_get (sf : csr_matrix Q) (i k : Z) : Q :=
  row_get (nth (Z.to_nat i) (csr_rows sf) []) k.

(** [sf[i].toarray()]: one row, densely. *)
Definition row_todense (ncols : Z) (row : list (Z * Q)) : list Q :=
  map (row_get row) (NP.arange ncols).

(** A dense H x W mask: [H] rows of [W] values. *)
Definition mask_shape (H W : Z) (M : list (list Q)) : Prop :=
  len M = H /\ forall line, In line M -> len line = W.

(** [M.flatten(order='F')] and [M.flatten(order='C')]. *)
Definition flatten_F (H W : Z) (M : list (list Q)) : list Q :=
  flat_map (fun c => map (fun r => nth (Z.to_nat c) (nth (Z.to_nat r) M []) 0%Q) (NP.arange H))
           (NP.arange W).

Definition flatten_C (M : list (list Q)) : list Q := List.concat M.

(** The stored entries of a dense row: its non-zero values with their
    positions. *)
Definition sparsify (v : list Q) : list (Z * Q) :=
  flat_map (fun kx : Z * Q => if Qeq_bool (snd kx) 0 then [] else [kx])
           (combine (NP.arange (len v)) v).




(** The total weight of ROI [i] over the entries whose coordinate [proj] is
    [t]: an entry of [x.sum(axis=...)]. *)
Definition marginal (nz : list (Z * Z * Z * Q)) (proj : Z * Z * Z * Q -> Z) (i t : Z) : Q :=
  NP.qsum (flat_map (fun e : Z * Z * Z * Q =>
                       if (fst (fst (fst e)) =? i) && (proj e =? t) then [snd e] else [])
                    nz).


(** ** Auxiliary definitions *)

(** The condition asserted in lines 330 and 565, on [np.diff(sf_rs.coords[0])]. *)
Definition steps_ok (coords_diff : list Z) : bool :=
  forallb (fun d => NP.Qltb (inject_Z d) (101 # 100)) coords_diff
  && forallb (fun d => NP.Qltb (- (1 # 100)) (inject_Z d)) coords_diff.

(** [sf_rs], the footprint matrix read as (n_roi, H, W): pixel [k] of a row
    of the matrix is the pixel [(k / W, k mod W)] of the FOV. *)
Definition footprint3 (H W : Z) (sf : csr_matrix Q) : COO3 Q :=
  {| shape3 := (csr_nrows sf, H, W);
     nz3 := map (fun e : Z * Z * Q => (fst (fst e), snd (fst e) / W, snd (fst e) mod W, snd e))
                (csr_entries_from 0 (csr_rows sf)) |}.

(** Consecutive ROI indices, starting after [a], step by 0 or 1. *)
Fixpoint steps_from (a : Z) (l : list Z) : Prop :=
  match l with
  | [] => True
  | b :: t => (b - a = 0 \/ b - a = 1) /\ steps_from b t
  end.

(** The matrix that the comprehension of line 266 describes: [n] copies of
    the one-hot row of session [i], session after session. *)
Fixpoint membership_from (N i : Z) (n_roi : list Z) : list (list bool) :=
  match n_roi with
  | [] => []
  | n :: rest => repeat (idx2bool i N) (Z.to_nat n) ++ membership_from N (i + 1) rest
  end.

(** The shape of a dense array as its nesting shows it. *)
Definition nested_shape (a : ndarray3) : Z * Z * Z :=
  (len (nd_data a), len (hd [] (nd_data a)), len (hd [] (hd [] (nd_data a)))).

(** ** Example inputs *)

(** Two ROIs on a 40 x 40 FOV: pixels (5, 7) and (5, 8), and pixel (20, 30). *)
Definition sf_two_rois : csr_matrix Q :=
  {| csr_ncols := 40 * 40;
     csr_rows := [[(5 * 40 + 7, 1%Q); (5 * 40 + 8, 3%Q)]; [(20 * 40 + 30, 1%Q)]] |}.

(** One ROI on a 40 x 40 FOV: the pixel (5, 7). *)
Definition sf_one_pixel_40 : csr_matrix Q :=
  {| csr_ncols := 40 * 40; csr_rows := [[(5 * 40 + 7, 1%Q)]] |}.


(** One ROI on a 4 x 4 FOV: the pixels (0, 0), (1, 0) and (2, 0). *)
Definition sf_column_of_three : csr_matrix Q :=
  {| csr_ncols := 4 * 4; csr_rows := [[(0, 1%Q); (4, 1%Q); (8, 1%Q)]] |}.


(** Two ROIs on a 40 x 40 FOV: weight 1 at (5, 5) and -1 at (5, 6), and
    weight 1 at (30, 30). *)
Definition sf_mixed_signs : csr_matrix Q :=
  {| csr_ncols := 40 * 40;
     csr_rows := [[(5 * 40 + 5, 1%Q); (5 * 40 + 6, (-1)%Q)]; [(30 * 40 + 30, 1%Q)]] |}.

(** One component on a 2 x 3 FOV in Fortran order: the mask
    [[1, 3, 5], [2, 4, 6]]. *)
Definition sf_2_by_3_F : csr_matrix Q :=
  {| csr_ncols := 2 * 3;
     csr_rows := [[(0, 1%Q); (1, 2%Q); (2, 3%Q); (3, 4%Q); (4, 5%Q); (5, 6%Q)]] |}.

(** ** Vocabulary for the imported footprints *)

(** The total of a list of floats: NaN as soon as one of them is. *)
Definition fsum (l : list NP.npfloat) : NP.npfloat := fold_right fadd (Some 0%Q) l.

(** Two floats are the same number, or both NaN. *)
Definition feq (a b : NP.npfloat) : Prop :=
  match a, b with
  | Some x, Some y => (x == y)%Q
  | None, None => True
  | _, _ => False
  end.

(** The stored values of the columns that [sel] picks; what a row of a float
    matrix holds at column [k]: the stored values of that column, added up. *)
Definition picked (sel : Z -> bool) (row : list (Z * NP.npfloat)) : list NP.npfloat :=
  flat_map (fun kv : Z * NP.npfloat => if sel (fst kv) then [snd kv] else []) row.

Definition frow_get (row : list (Z * NP.npfloat)) (k : Z) : NP.npfloat :=
  fsum (picked (fun c => c =? k) row).

(** Strictly ascending integers, all above [a]. *)
Fixpoint ascending_from (a : Z) (l : list Z) : Prop :=
  match l with
  | [] => True
  | b :: t => a < b /\ ascending_from b t
  end.

(** Canonical CSR format: in every row the column indices are inside the
    matrix and strictly ascending. *)
Definition canonical_format {V : Type} (sf : csr_matrix V) : Prop :=
  forall row, In row (csr_rows sf) ->
    ascending_from (-1) (map fst row) /\ forall k, In k (map fst row) -> k < csr_ncols sf.

(** The arrays of an ROI record fit a frame of [h] rows and [w] columns once
    the shift is added: one length, every pixel inside. *)
Definition roi_fits (h w : Z) (shifts : Z * Z) (r : roi) : bool :=
  (len (ypix r) =? len (lam r)) && (len (xpix r) =? len (lam r))
  && forallb (fun y => NP.add_uint64 (NP.uint64 y) (fst shifts) <? h) (ypix r)
  && forallb (fun x => NP.add_uint64 (NP.uint64 x) (snd shifts) <? w) (xpix r).

(** The weighted pixels of an ROI record: (row, column, weight). *)
Definition roi_pixels (r : roi) : list (Z * Z * Q) :=
  combine (combine (ypix r) (xpix r)) (lam r).

(** Two ROIs of a [stat.npy] file on a 40 x 50 frame; the second stores the
    pixel (3, 4) twice. *)
Definition stat_two_rois : list roi :=
  [ {| ypix := [5; 5; 6]; xpix := [7; 8; 7]; lam := [1%Q; 2%Q; 1%Q] |};
    {| ypix := [3; 3]; xpix := [4; 4]; lam := [3%Q; 1%Q] |} ].

(** One ROI whose weights add up to zero. *)
Definition stat_zero_sum : list roi :=
  [ {| ypix := [1; 2]; xpix := [1; 1]; lam := [1%Q; (-1)%Q] |} ].


(** ** [fix_paths] *)

Module Pathlib.

(** The system the module runs on: [pathlib.Path(...)] builds a [PosixPath]
    on one and a [WindowsPath] on the other, and Python builds no path
    object of the other class. *)
Inductive flavour : Type :=
| Posix
| Windows.

(** The objects [fix_paths] is handed: a [str], a path object of the
    system's flavour, a list of objects, or [None], which stands for an
    object that is none of them and has no items. *)
#[local] Unset Elimination Schemes.
Inductive object : Type :=
| Str (s : string)
| PathObj (s : string)
| NoneObj
| ListObj (items : list object).
#[local] Set Elimination Schemes.

Inductive exception : Type :=
| TypeError
| IndexError.

Inductive outcome (A : Type) : Type :=
| Returns (a : A)
| Raises (e : exception).

Arguments Returns {A} a.
Arguments Raises {A} e.

(** [type(x) is str], [type(x) is pathlib.PosixPath] and
    [type(x) is pathlib.WindowsPath]. *)
Definition is_str (x : object) : bool :=
  match x with
  | Str _ => true
  | _ => false
  end.

Definition is_PosixPath (os : flavour) (x : object) : bool :=
  match os, x with
  | Posix, PathObj _ => true
  | _, _ => false
  end.

Definition is_WindowsPath (os : flavour) (x : object) : bool :=
  match os, x with
  | Windows, PathObj _ => true
  | _, _ => false
  end.

(** [Path(x)]: the path named by a [str], a path as it is; TypeError for an
    object that is neither. *)
Definition Path (x : object) : outcome object :=
  match x with
  | Str s => Returns (PathObj s)
  | PathObj s => Returns (PathObj s)
  | NoneObj | ListObj _ => Raises TypeError
  end.

(** [x[0]]: out of range on an empty list or [str]; a path and [None] cannot
    be subscripted. *)
Definition first_item (x : object) : outcome object :=
  match x with
  | ListObj (y :: _) => Returns y
  | Str (String c _) => Returns (Str (String c EmptyString))
  | ListObj [] | Str EmptyString => Raises IndexError
  | PathObj _ | NoneObj => Raises TypeError
  end.

(** [[Path(path) for path in items]]. *)
Fixpoint paths_of (items : list object) : outcome (list object) :=
  match items with
  | [] => Returns []
  | x :: t =>
      match Path x with
      | Raises e => Raises e
      | Returns p =>
          match paths_of t with
          | Raises e => Raises e
          | Returns ps => Returns (p :: ps)
          end
      end
  end.

(** The items a [for] loop over [x] visits: those of a list, the characters
    of a [str]; a path and [None] are not iterable. *)
Definition iterate (x : object) : outcome (list object) :=
  match x with
  | ListObj items => Returns items
  | Str s => Returns (map (fun c => Str (String c EmptyString)) (list_ascii_of_string s))
  | PathObj _ | NoneObj => Raises TypeError
  end.

End Pathlib.

(** [fix_paths], lines 712-734; the result [paths_files] is a list object. *)
Definition fix_paths (os : Pathlib.flavour) (paths : Pathlib.object)
  : Pathlib.outcome Pathlib.object :=
  if Pathlib.is_str paths || Pathlib.is_PosixPath os paths then
    match Pathlib.Path paths with
    | Pathlib.Returns p => Pathlib.Returns (Pathlib.ListObj [p])
    | Pathlib.Raises e => Pathlib.Raises e
    end
  else
    match Pathlib.first_item paths with
    | Pathlib.Raises e => Pathlib.Raises e
    | Pathlib.Returns paths_0 =>
        if Pathlib.is_str paths_0 then
          match Pathlib.iterate paths with
          | Pathlib.Raises e => Pathlib.Raises e
          | Pathlib.Returns items =>
              match Pathlib.paths_of items with
              | Pathlib.Returns ps => Pathlib.Returns (Pathlib.ListObj ps)
              | Pathlib.Raises e => Pathlib.Raises e
              end
          end
        else if Pathlib.is_PosixPath os paths_0 || Pathlib.is_WindowsPath os paths_0 then
          Pathlib.Returns paths
        else Pathlib.Raises Pathlib.TypeError
    end.

(** [len(fix_paths(...))], as [__init__] reads [self.n_sessions]. *)
Definition n_paths (paths_files : Pathlib.object) : Z :=
  match paths_files with
  | Pathlib.ListObj items => len items
  | _ => 0
  end.

(** ** FOV images *)

(** A two-dimensional NumPy array: its shape and its values row by row. *)
Record array2 (A : Type) : Type := {
  a_shape : Z * Z;
  a_rows : list (list A)
}.

Arguments a_shape {A} _.
Arguments a_rows {A} _.

(** The values agree with the shape. *)
Definition array2_wf {A : Type} (im : array2 A) : Prop :=
  len (a_rows im) = fst (a_shape im)
  /\ forall row, In row (a_rows im) -> len row = snd (a_shape im).

(** All the values of an array, in C order. *)
Definition pixels {A : Type} (im : array2 A) : list A := List.concat (a_rows im).

Definition map_array {A B : Type} (f : A -> B) (im : array2 A) : array2 B :=
  {| a_shape := a_shape im; a_rows := map (map f) (a_rows im) |}.

(** [np.array([...])] and [np.stack([...])] of two-dimensional arrays, as
    the reductions over the axes 1 and 2 require it: at least one array, all
    of one shape, or ValueError. *)
Definition stack_arrays {A : Type} (arrays : list (array2 A)) : result (list (array2 A)) :=
  match arrays with
  | [] => Raise ValueError
  | first :: _ =>
      if forallb (fun im => (fst (a_shape im) =? fst (a_shape first))
                            && (snd (a_shape im) =? snd (a_shape first))) arrays
      then Ok arrays
      else Raise ValueError
  end.

(** [a.min()] of a float array without NaN: ValueError on no value. *)
Definition array_min_Q (a : list Q) : result Q :=
  match a with
  | [] => Raise ValueError
  | x :: t => Ok (fold_left (fun m y => if Qle_bool y m then y else m) t x)
  end.

(** Lines 164-165, and word for word 615-616: every image has its minimum
    subtracted and is then divided by its mean. *)
Definition normalise_FOV_images (FOV_images : list (array2 Q))
  : result (list (array2 NP.npfloat)) :=
  FOV_images <- for_each (fun im =>
                            m <- array_min_Q (pixels im) ;;
                            Ok (map_array (fun x => (x - m)%Q) im))
                         FOV_images ;;
  Ok (map (fun im =>
             let mean := (NP.qsum (pixels im)
                          / inject_Z (fst (a_shape im) * snd (a_shape im)))%Q in
             map_array (fun x => NP.fdiv x mean) im)
          FOV_images).

Module Data_suite2p_images.

(** [import_FOV_images], lines 155-173.  [paths_ops] is [None] or holds the
    arrays [np.load(path)[()][type_meanImg]] of the ops files. *)
Definition import_FOV_images (paths_ops : option (list (array2 Q)))
    (images : option (list (array2 NP.npfloat)))
  : result (list (array2 NP.npfloat) * Z * Z) :=
  FOV_images <-
    match images with
    | Some images => Ok images
    | None =>
        match paths_ops with
        | None => Raise ValueError
        | Some loaded => arr <- stack_arrays loaded ;; normalise_FOV_images arr
        end
    end ;;
  first <- getitem FOV_images 0 ;;
  Ok (FOV_images, fst (a_shape first), snd (a_shape first)).

End Data_suite2p_images.

Module Data_caiman_images.

(** [_import_FOV_image], lines 601-605, for sizes that are not negative:
    [b0] is the column [data['estimates']['b'][:, 0]], reshaped in Fortran
    order. *)
Definition _import_FOV_image (dims : Z * Z) (b0 : list Q) : result (array2 Q) :=
  let '(FOV_height, FOV_width) := dims in
  if len b0 =? FOV_height * FOV_width
  then Ok {| a_shape := (FOV_height, FOV_width);
             a_rows := map (fun r => map (fun c => nth (Z.to_nat (r + c * FOV_height)) b0 0%Q)
                                         (NP.arange FOV_width))
                           (NP.arange FOV_height) |}
  else Raise ValueError.

(** [import_FOV_images], lines 607-620.  [paths_resultsFiles] holds, file by
    file, [dims] and the column [b[:, 0]] of the results file. *)
Definition import_FOV_images (paths_resultsFiles : list (Z * Z * list Q))
    (images : option (list (array2 NP.npfloat)))
  : result (list (array2 NP.npfloat) * Z * Z) :=
  FOV_images <-
    match images with
    | Some images => Ok images
    | None =>
        loaded <- for_each (fun p : Z * Z * list Q => _import_FOV_image (fst p) (snd p))
                           paths_resultsFiles ;;
        arr <- stack_arrays loaded ;;
        normalise_FOV_images arr
    end ;;
  first <- getitem FOV_images 0 ;;
  Ok (FOV_images, fst (a_shape first), snd (a_shape first)).

End Data_caiman_images.

(** Two pixels of the image differ. *)
Definition not_constant (im : array2 Q) : Prop :=
  exists x y, In x (pixels im) /\ In y (pixels im) /\ ~ (x == y)%Q.

(** The smallest pixel of an image (0 for an image without pixel). *)
Definition min_pixel (im : array2 Q) : Q :=
  match pixels im with
  | [] => 0%Q
  | x :: t => fold_left (fun m y => if Qle_bool y m then y else m) t x
  end.

(** [out] is [im] with minimum 0 and mean 1: every pixel [x] has become
    [(x - m) / mu] for the smallest pixel [m] of [im] and one positive [mu],
    and the pixels of [out] add up to their number; or, for a constant
    image, [out] holds NaN only. *)
Definition min_zero_mean_one (im : array2 Q) (out : array2 NP.npfloat) : Prop :=
  a_shape out = a_shape im
  /\ (not_constant im ->
      exists m mu,
        In m (pixels im) /\ (forall x, In x (pixels im) -> (m <= x)%Q) /\ (0 < mu)%Q
        /\ pixels out = map (fun x => Some ((x - m) / mu)%Q) (pixels im)
        /\ (NP.qsum (map (fun x => (x - m) / mu) (pixels im)) == inject_Z (len (pixels im)))%Q)
  /\ (~ not_constant im -> forall p, In p (pixels out) -> p = None).

(** Two ops images of 2 x 2 pixels: a ramp and a constant image. *)
Definition ops_images_example : list (array2 Q) :=
  [ {| a_shape := (2, 2); a_rows := [[3%Q; 5%Q]; [7%Q; 9%Q]] |};
    {| a_shape := (2, 2); a_rows := [[4%Q; 4%Q]; [4%Q; 4%Q]] |} ].

(** ** CaImAn results files *)

Module Caiman_results.

(** A sparse matrix as a results file holds it: the arrays [data],
    [indices] and [indptr] of the compressed format, and [shape]. *)
Record h5_sparse : Type := {
  h5_data : list Q;
  h5_indices : list Z;
  h5_indptr : list Z;
  h5_shape : Z * Z
}.

(** What the module reads of [helpers.h5_lazy_load(path)]: the entries
    [dims], [A], [cnn_preds] and the column [b[:, 0]] of [estimates], and
    [A] and [cnn_preds] of [estimates/discarded_components]. *)
Record results_file : Type := {
  dims : Z * Z;
  A : h5_sparse;
  cnn_preds : list Q;
  b0 : list Q;
  discarded_A : h5_sparse;
  discarded_cnn_preds : list Q
}.

(** [l[start:stop]] for [0 <= start <= stop]. *)
Definition slice {X : Type} (l : list X) (start stop : Z) : list X :=
  firstn (Z.to_nat (stop - start)) (skipn (Z.to_nat start) l).

(** [scipy.sparse.csr_matrix((data, indices, indptr), shape=shape[::-1])]:
    the shape is checked, then the format without the full check (the index
    pointer has one entry more than the matrix has rows and starts with 0,
    [indices] and [data] have one size, which the last pointer does not
    exceed), each failing with ValueError; row [i] holds the entries from
    [indptr[i]] up to [indptr[i + 1]], which is what SciPy reads for an
    ascending index pointer. *)
Definition csr_matrix_of (m : h5_sparse) : result (csr_matrix Q) :=
  let '(M, N) := (snd (h5_shape m), fst (h5_shape m)) in
  if (M <? 0) || (N <? 0) then Raise ValueError
  else if negb (len (h5_indptr m) =? M + 1) then Raise ValueError
  else if negb (nth 0 (h5_indptr m) 0 =? 0) then Raise ValueError
  else if negb (len (h5_indices m) =? len (h5_data m)) then Raise ValueError
  else if len (h5_indices m) <? last (h5_indptr m) 0 then Raise ValueError
  else Ok {| csr_ncols := N;
             csr_rows :=
               map (fun i => slice (combine (h5_indices m) (h5_data m))
                                   (nth (Z.to_nat i) (h5_indptr m) 0)
                                   (nth (Z.to_nat (i + 1)) (h5_indptr m) 0))
                   (NP.arange M) |}.

(** [_import_spatialFootprints], lines 482-497, from the file. *)
Definition _import_spatialFootprints (path_resultsFile : results_file)
    (include_discarded : bool) : result (csr_matrix Q) :=
  let '(FOV_height, FOV_width) := dims path_resultsFile in
  sf_included <- csr_matrix_of (A path_resultsFile) ;;
  sf_F <- (if include_discarded then
             sf_discarded <- csr_matrix_of (discarded_A path_resultsFile) ;;
             vstack2 sf_included sf_discarded
           else Ok sf_included) ;;
  a <- reshape3 (COO sf_F) (csr_nrows sf_F, FOV_width, FOV_height) ;;
  b <- reshape2 (transpose_021 a) (csr_nrows sf_F, FOV_width * FOV_height) ;;
  Ok (tocsr b).

(** [_import_overall_caiman_labels], lines 503-512: [np.ones] and
    [np.zeros] of [indptr.shape[0]]. *)
Definition _import_overall_caiman_labels (path_resultsFile : results_file)
    (include_discarded : bool) : list Q :=
  let labels_included := repeat 1%Q (List.length (h5_indptr (A path_resultsFile))) in
  if include_discarded then
    let labels_discarded :=
      repeat 0%Q (List.length (h5_indptr (discarded_A path_resultsFile))) in
    labels_included ++ labels_discarded
  else labels_included.

(** [_import_cnn_caiman_preds], lines 518-527. *)
Definition _import_cnn_caiman_preds (path_resultsFile : results_file)
    (include_discarded : bool) : list Q :=
  let preds_included := cnn_preds path_resultsFile in
  if include_discarded then preds_included ++ discarded_cnn_preds path_resultsFile
  else preds_included.

(** The attributes that [import_caimanResults] sets. *)
Record attributes : Type := {
  spatialFootprints : list (csr_matrix Q);
  overall_caiman_labels : list (list Q);
  cnn_caiman_preds : list (list Q);
  n_roi : list Z;
  n_roi_total : Z;
  FOV_images : list (array2 NP.npfloat);
  FOV_height : Z;
  FOV_width : Z
}.

(** [import_caimanResults], lines 529-538. *)
Definition import_caimanResults (paths_resultsFiles : list results_file)
    (include_discarded : bool) : result attributes :=
  sfs <- for_each (fun path => _import_spatialFootprints path include_discarded)
                  paths_resultsFiles ;;
  let labels := map (fun path => _import_overall_caiman_labels path include_discarded)
                    paths_resultsFiles in
  let preds := map (fun path => _import_cnn_caiman_preds path include_discarded)
                   paths_resultsFiles in
  let n_roi := map csr_nrows sfs in
  fov <- Data_caiman_images.import_FOV_images
           (map (fun path => (dims path, b0 path)) paths_resultsFiles) None ;;
  Ok {| spatialFootprints := sfs;
        overall_caiman_labels := labels;
        cnn_caiman_preds := preds;
        n_roi := n_roi;
        n_roi_total := zsum n_roi;
        FOV_images := fst (fst fov);
        FOV_height := snd (fst fov);
        FOV_width := snd fov |}.

(** The number of components that a stored matrix holds: CaImAn stores one
    column per component. *)
Definition n_components (m : h5_sparse) : Z := snd (h5_shape m).

End Caiman_results.

(** A results file of a 2 x 3 FOV with two accepted components (pixels
    (0, 0) and (1, 0); pixel (1, 2)) and one discarded component (pixel
    (0, 1)), every matrix stored column by column in Fortran order. *)
Definition results_file_example : Caiman_results.results_file :=
  {| Caiman_results.dims := (2, 3);
     Caiman_results.A :=
       {| Caiman_results.h5_data := [1%Q; 2%Q; 5%Q];
          Caiman_results.h5_indices := [0; 1; 5];
          Caiman_results.h5_indptr := [0; 2; 3];
          Caiman_results.h5_shape := (6, 2) |};
     Caiman_results.cnn_preds := [(9 # 10)%Q; (8 # 10)%Q];
     Caiman_results.b0 := [1%Q; 2%Q; 3%Q; 4%Q; 5%Q; 7%Q];
     Caiman_results.discarded_A :=
       {| Caiman_results.h5_data := [4%Q];
          Caiman_results.h5_indices := [2];
          Caiman_results.h5_indptr := [0; 1];
          Caiman_results.h5_shape := (6, 1) |};
     Caiman_results.discarded_cnn_preds := [(1 # 10)%Q] |}.

(** ** [import_statFiles] and [import_ROI_spatialFootprints] *)

(** The attributes of a [Data_suite2p] object that the two methods read and
    set.  [paths_stat] stands for the records that [np.load] returns for the
    stat files; [statFiles] is [None] until they are imported. *)
Module Suite2p_self.

Record attributes : Type := {
  paths_stat : list (list roi);
  n_sessions : Z;
  statFiles : option (list (list roi));
  n_roi : list Z;
  n_roi_total : Z;
  shifts : list (Z * Z);
  FOV_height : Z;
  FOV_width : Z;
  spatialFootprints : list (csr_matrix NP.npfloat);
  sessionID_concat : list (list bool)
}.

Definition set_statFiles (self : attributes) (files : list (list roi)) (n : list Z)
    (total : Z) : attributes :=
  {| paths_stat := paths_stat self;
     n_sessions := n_sessions self;
     statFiles := Some files;
     n_roi := n;
     n_roi_total := total;
     shifts := shifts self;
     FOV_height := FOV_height self;
     FOV_width := FOV_width self;
     spatialFootprints := spatialFootprints self;
     sessionID_concat := sessionID_concat self |}.

Definition set_spatialFootprints (self : attributes) (sf : list (csr_matrix NP.npfloat))
    (membership : list (list bool)) : attributes :=
  {| paths_stat := paths_stat self;
     n_sessions := n_sessions self;
     statFiles := statFiles self;
     n_roi := n_roi self;
     n_roi_total := n_roi_total self;
     shifts := shifts self;
     FOV_height := FOV_height self;
     FOV_width := FOV_width self;
     spatialFootprints := sf;
     sessionID_concat := membership |}.

End Suite2p_self.

Module Data_suite2p_import.

(** [import_statFiles], lines 111-118: the new object and the value
    returned. *)
Definition import_statFiles (self : Suite2p_self.attributes)
  : Suite2p_self.attributes * list (list roi) :=
  let statFiles := Suite2p_self.paths_stat self in
  let n_roi := map len statFiles in
  (Suite2p_self.set_statFiles self statFiles n_roi (zsum n_roi), statFiles).

(** [np.issubdtype(dtype, np.integer)]. *)
Definition issubdtype_integer (dt : dtype) : bool :=
  match dt with
  | IntegerType _ => true
  | FloatType => false
  end.

Section Workers.

(** [mp.cpu_count()] and [helpers.simple_multiprocessing] are outside the
    module. *)
Variable cpu_count : Z.
Variable simple_multiprocessing :
  list Z -> list (Z * Z) -> list (list roi) -> list dtype -> list bool -> list (Z * Z) ->
  Z -> result (list (csr_matrix NP.npfloat)).

(** [import_ROI_spatialFootprints], lines 239-271: the new object and the
    value returned. *)
Definition import_ROI_spatialFootprints (self : Suite2p_self.attributes)
    (frame_height_width : option (Z * Z)) (dt : dtype) (workers : Z)
  : result (Suite2p_self.attributes * list (csr_matrix NP.npfloat)) :=
  let frame_height_width :=
    match frame_height_width with
    | None => (Suite2p_self.FOV_height self, Suite2p_self.FOV_width self)
    | Some hw => hw
    end in
  let isInt := issubdtype_integer dt in
  let '(self, statFiles) :=
    match Suite2p_self.statFiles self with
    | None => import_statFiles self
    | Some statFiles => (self, statFiles)
    end in
  let n := Suite2p_self.n_sessions self in
  let workers := if workers =? -1 then cpu_count else workers in
  spatialFootprints <-
    (if negb (workers =? 1) then
       simple_multiprocessing (Suite2p_self.n_roi self)
         (repeat frame_height_width (Z.to_nat n)) statFiles
         (repeat dt (Z.to_nat n)) (repeat isInt (Z.to_nat n)) (Suite2p_self.shifts self)
         cpu_count
     else
       for_each (fun ii =>
                   n_roi <- getitem (Suite2p_self.n_roi self) ii ;;
                   stat <- getitem statFiles ii ;;
                   shifts <- getitem (Suite2p_self.shifts self) ii ;;
                   _helper_populate_sf n_roi frame_height_width stat dt isInt shifts)
                (NP.arange n)) ;;
  membership <- sessionID_concat (map csr_nrows spatialFootprints) ;;
  Ok (Suite2p_self.set_spatialFootprints self spatialFootprints membership,
      spatialFootprints).

End Workers.

End Data_suite2p_import.

(** The session [ii] of an object can be built on a frame of [h] rows and
    [w] columns: [n_roi], the stat files and [shifts] have an entry [ii],
    the stat file holds a record, and every record fits the frame once the
    shift of the session is added. *)
Definition session_fits (h w : Z) (n_roi : list Z) (statFiles : list (list roi))
    (shifts : list (Z * Z)) (ii : Z) : Prop :=
  ii < len n_roi
  /\ exists stat shift,
       nth_error statFiles (Z.to_nat ii) = Some stat
       /\ nth_error shifts (Z.to_nat ii) = Some shift
       /\ stat <> []
       /\ forall r, In r stat -> roi_fits h w shift r = true.

(** An object after [__init__] has read two stat files, the second one the
    file [stat_two_rois], with the shifts of two sessions. *)
Definition self_two_sessions : Suite2p_self.attributes :=
  {| Suite2p_self.paths_stat :=
       [[ {| ypix := [0; 1]; xpix := [2; 2]; lam := [1%Q; 3%Q] |} ]; stat_two_rois];
     Suite2p_self.n_sessions := 2;
     Suite2p_self.statFiles := None;
     Suite2p_self.n_roi := [];
     Suite2p_self.n_roi_total := 0;
     Suite2p_self.shifts := [(4, 2); (0, 0)];
     Suite2p_self.FOV_height := 40;
     Suite2p_self.FOV_width := 50;
     Suite2p_self.spatialFootprints := [];
     Suite2p_self.sessionID_concat := [] |}.

(** ** [self.centroids] *)

(** [c.T] of what [get_centroids] returned: the array of shape (n_roi, 2),
    one (row, column) pair per ROI; [None] has no attribute [T]. *)
Definition centroids_T (c : centroids_value) : result (list (option Z * option Z)) :=
  match c with
  | PyNone => Raise AttributeError
  | Centroids h_mean w_mean => Ok (combine h_mean w_mean)
  end.

(** Lines 84 and 433 of the two [__init__]:
    [[self.get_centroids(sf, self.FOV_height, self.FOV_width).T for sf in
    self.spatialFootprints]], for the [get_centroids] of the class. *)
Definition init_centroids (get_centroids : csr_matrix Q -> Z -> Z -> result centroids_value)
    (spatialFootprints : list (csr_matrix Q)) (FOV_height FOV_width : Z)
  : result (list (list (option Z * option Z))) :=
  for_each (fun sf => c <- get_centroids sf FOV_height FOV_width ;; centroids_T c)
           spatialFootprints.

(** ** [self.n_sessions] and [self.shifts] *)

(** [len(x)]: the number of items of a list or of characters of a [str]; a
    path and [None] have no length. *)
Definition py_len (x : Pathlib.object) : Pathlib.outcome nat :=
  match x with
  | Pathlib.ListObj items => Pathlib.Returns (List.length items)
  | Pathlib.Str s => Pathlib.Returns (String.length s)
  | Pathlib.PathObj _ | Pathlib.NoneObj => Pathlib.Raises Pathlib.TypeError
  end.

(** Lines 55-75 of [Data_suite2p.__init__]: [self.n_sessions] and
    [self.shifts] (or the exception that computing the shifts raises).
    [paths_opsFiles] is [None] or holds the records loaded from the ops
    files; the zero shifts are repeated [len(paths_statFiles)] times, the
    argument as it was passed. *)
Definition init_n_sessions_shifts (os : Pathlib.flavour) (new_or_old_suite2p : string)
    (paths_statFiles : Pathlib.object) (paths_opsFiles : option (list Data_suite2p.ops))
  : Pathlib.outcome (Z * result (list (Z * Z))) :=
  match fix_paths os paths_statFiles with
  | Pathlib.Raises e => Pathlib.Raises e
  | Pathlib.Returns paths_stat =>
      let n_sessions := n_paths paths_stat in
      let zero_shifts :=
        match py_len paths_statFiles with
        | Pathlib.Raises e => Pathlib.Raises e
        | Pathlib.Returns n =>
            Pathlib.Returns
              (n_sessions, Data_suite2p.shifts new_or_old_suite2p paths_opsFiles n)
        end in
      match paths_opsFiles with
      | Some _ =>
          if String.eqb new_or_old_suite2p "old"
          then Pathlib.Returns
                 (n_sessions, Data_suite2p.shifts new_or_old_suite2p paths_opsFiles 0)
          else zero_shifts
      | None => zero_shifts
      end
  end.

(** ** Tactics *)

(** Case analysis on every integer comparison of the goal. *)
Ltac bool_cases :=
  repeat match goal with
         | |- context [?a <=? ?b] => destruct (Z.leb_spec a b)
         | |- context [?a <? ?b] => destruct (Z.ltb_spec a b)
         | |- context [?a =? ?b] => destruct (Z.eqb_spec a b)
         end;
  cbn [andb orb negb]; try lia; try reflexivity.

(** [csr_wf] of a matrix given by its entries. *)
Ltac concrete_wf :=
  let row := fresh "row" in
  let Hrow := fresh "Hrow" in
  let Hin := fresh "Hin" in
  intros row Hrow ? ? Hin; cbn [csr_rows csr_ncols] in *;
  repeat (destruct Hrow as [Hrow|Hrow]; [subst row|]); [..|destruct Hrow];
  repeat (destruct Hin as [Hin|Hin]; [injection Hin as <- <-; lia|]); destruct Hin.

(** * Properties *)

(** ** Results and comprehensions *)

Lemma enumerate_from_raise {A B : Type} (f : Z -> A -> result B) (e0 : exn) :
  (forall ii x e, f ii x = Raise e -> e = e0) ->
  forall l ii e, enumerate_from f ii l = Raise e -> e = e0.
Proof.
  intros Hf l; induction l as [|x t IH]; intros ii e H; simpl in H.
  - discriminate.
  - destruct (f ii x) as [y|e1] eqn:Hy; simpl in H.
    + destruct (enumerate_from f (ii + 1) t) as [ys|e2] eqn:Hys; simpl in H.
      * discriminate.
      * injection H as <-. eapply IH; eauto.
    + injection H as <-. eapply Hf; eauto.
Qed.

Lemma getitem_raise {A : Type} (l : list A) (i : Z) (e : exn) :
  getitem l i = Raise e -> e = IndexError.
Proof.
  unfold getitem. destruct (i <? 0); [congruence|].
  destruct (nth_error l (Z.to_nat i)); congruence.
Qed.

Lemma len_nonneg {A : Type} (l : list A) : 0 <= len l.
Proof. unfold len; lia. Qed.

Lemma len_cons {A : Type} (x : A) (l : list A) : len (x :: l) = len l + 1.
Proof. unfold len; simpl List.length; lia. Qed.

Lemma len_app {A : Type} (l1 l2 : list A) : len (l1 ++ l2) = len l1 + len l2.
Proof. unfold len; rewrite length_app; lia. Qed.

(** ** The assertion of [sf_to_centeredROIs] *)

Lemma Qltb_upper (d : Z) : NP.Qltb (inject_Z d) (101 # 100) = (d <=? 1).
Proof.
  unfold NP.Qltb, Qle_bool, inject_Z; simpl Qnum; simpl Qden.
  destruct (Z.leb_spec (101 * 1) (d * 100)); destruct (Z.leb_spec d 1); simpl; try reflexivity; lia.
Qed.

Lemma Qltb_lower (d : Z) : NP.Qltb (- (1 # 100)) (inject_Z d) = (0 <=? d).
Proof.
  unfold NP.Qltb, Qle_bool, inject_Z, Qopp; simpl Qnum; simpl Qden.
  destruct (Z.leb_spec (d * 100) (- (1) * 1)); destruct (Z.leb_spec 0 d); simpl; try reflexivity; lia.
Qed.

Lemma steps_ok_true (l : list Z) :
  steps_ok l = true <-> forall d, In d l -> d = 0 \/ d = 1.
Proof.
  unfold steps_ok. rewrite andb_true_iff, !forallb_forall. split.
  - intros [H1 H2] d Hd. specialize (H1 d Hd). specialize (H2 d Hd).
    rewrite Qltb_upper in H1. rewrite Qltb_lower in H2. lia.
  - intros H; split; intros d Hd; destruct (H d Hd); subst; reflexivity.
Qed.

Lemma steps_ok_false (l : list Z) :
  steps_ok l = false <-> exists d, In d l /\ d <> 0 /\ d <> 1.
Proof.
  split.
  - induction l as [|a t IH]; intros H.
    + discriminate.
    + destruct (Z.eq_dec a 0) as [Ha0|Ha0]; [|destruct (Z.eq_dec a 1) as [Ha1|Ha1]].
      * destruct (steps_ok t) eqn:Ht.
        -- exfalso. rewrite steps_ok_true in Ht.
           assert (Hall : steps_ok (a :: t) = true).
           { apply steps_ok_true. intros d [<-|Hd]; auto. }
           congruence.
        -- destruct (IH eq_refl) as (d & Hd & Hne). exists d; split; [right|]; auto.
      * destruct (steps_ok t) eqn:Ht.
        -- exfalso. rewrite steps_ok_true in Ht.
           assert (Hall : steps_ok (a :: t) = true).
           { apply steps_ok_true. intros d [<-|Hd]; auto. }
           congruence.
        -- destruct (IH eq_refl) as (d & Hd & Hne). exists d; split; [right|]; auto.
      * exists a; split; [left|]; auto.
  - intros (d & Hd & Hne). destruct (steps_ok l) eqn:Hs; [|reflexivity].
    rewrite steps_ok_true in Hs. destruct (Hs d Hd); lia.
Qed.

(** [sf_to_centeredROIs] raises AssertionError exactly when the check of
    lines 329-331 fails. *)
Lemma sf_to_centeredROIs_assertion (H W : Z) (sf : csr_matrix Q)
    (centroids : list Z * list Z) (ohw : Z * Z) (sf_rs : COO3 Q) :
  reshape3 (COO sf) (csr_nrows sf, H, W) = Ok sf_rs ->
  (sf_to_centeredROIs H W sf centroids ohw = Raise AssertionError
   <-> steps_ok (NP.diff (coords0 sf_rs)) = false).
Proof.
  intros Hrs. unfold sf_to_centeredROIs. rewrite Hrs. cbn [bind].
  fold (steps_ok (NP.diff (coords0 sf_rs))).
  destruct (steps_ok (NP.diff (coords0 sf_rs))) eqn:Hs; cbn [negb].
  - split; [|discriminate]. intros Hr. exfalso.
    match type of Hr with
    | bind ?m1 _ = _ => destruct m1 as [c1|e1] eqn:H1; cbn [bind] in Hr
    end.
    + match type of Hr with
      | bind ?m2 _ = _ => destruct m2 as [c2|e2] eqn:H2; cbn [bind] in Hr
      end.
      * discriminate.
      * injection Hr as ->.
        apply enumerate_from_raise with (e0 := IndexError) in H2; [discriminate|].
        intros ii x e He. destruct (getitem (snd centroids) ii) eqn:Hg; cbn [bind] in He.
        -- discriminate.
        -- injection He as <-. eapply getitem_raise; eauto.
    + injection Hr as ->.
      apply enumerate_from_raise with (e0 := IndexError) in H1; [discriminate|].
      intros ii x e He. destruct (getitem (fst centroids) ii) eqn:Hg; cbn [bind] in He.
      * discriminate.
      * injection He as <-. eapply getitem_raise; eauto.
  - split; reflexivity.
Qed.

(** ** The coordinate list of a footprint matrix *)

Lemma csr_entries_from_In {V : Type} (rows : list (list (Z * V))) :
  forall i r k v,
    In (r, k, v) (csr_entries_from i rows) <->
    i <= r /\ exists row, nth_error rows (Z.to_nat (r - i)) = Some row /\ In (k, v) row.
Proof.
  induction rows as [|row rest IH]; intros i r k v; simpl.
  - split; [tauto|]. intros (_ & row & Hn & _). destruct (Z.to_nat (r - i)); discriminate.
  - rewrite in_app_iff, in_map_iff, IH. split.
    + intros [((k', v') & Heq & Hin)|(Hle & row' & Hn & Hin)].
      * injection Heq as <- <- <-. split; [lia|]. exists row.
        replace (i - i) with 0 by lia. simpl. auto.
      * split; [lia|]. exists row'. split; auto.
        replace (Z.to_nat (r - i)) with (S (Z.to_nat (r - (i + 1)))) by lia. exact Hn.
    + intros (Hle & row' & Hn & Hin).
      destruct (Z.eq_dec r i) as [->|Hne].
      * left. replace (i - i) with 0 in Hn by lia. simpl in Hn. injection Hn as <-.
        exists (k, v). auto.
      * right. split; [lia|]. exists row'. split; auto.
        replace (Z.to_nat (r - i)) with (S (Z.to_nat (r - (i + 1)))) in Hn by lia. exact Hn.
Qed.

Lemma csr_entries_in_range {V : Type} (sf : csr_matrix V) (r k : Z) (v : V) :
  csr_wf sf ->
  In (r, k, v) (csr_entries_from 0 (csr_rows sf)) ->
  0 <= r < csr_nrows sf /\ 0 <= k < csr_ncols sf.
Proof.
  intros Hwf Hin. apply csr_entries_from_In in Hin as (Hle & row & Hn & Hin).
  split.
  - assert (Hlt : (Z.to_nat (r - 0) < List.length (csr_rows sf))%nat).
    { apply nth_error_Some. congruence. }
    unfold csr_nrows, len. lia.
  - eapply Hwf; eauto. eapply nth_error_In; eauto.
Qed.

Lemma reshape3_footprint (H W : Z) (sf : csr_matrix Q) :
  csr_wf sf -> csr_ncols sf = H * W -> 0 < H -> 0 < W ->
  reshape3 (COO sf) (csr_nrows sf, H, W) = Ok (footprint3 H W sf).
Proof.
  intros Hwf Hcols HH HW. unfold reshape3, COO. cbn [shape2 nz2].
  replace (csr_nrows sf * csr_ncols sf =? csr_nrows sf * H * W) with true
    by (symmetry; apply Z.eqb_eq; rewrite Hcols; ring).
  cbn [negb]. unfold footprint3. do 2 f_equal.
  apply map_ext_in. intros [[r k] v] Hin.
  destruct (csr_entries_in_range sf r k v Hwf Hin) as [Hr Hk].
  cbn [fst snd]. rewrite Hcols in *.
  assert (Hkw : 0 <= k / W < H).
  { split; [apply Z.div_pos; lia|]. apply Z.div_lt_upper_bound; lia. }
  assert (E0 : (r * (H * W) + k) / (H * W) = r).
  { rewrite Z.add_comm, Z.div_add by lia. rewrite (Z.div_small k) by lia. lia. }
  assert (E1 : (r * (H * W) + k) / W = r * H + k / W).
  { replace (r * (H * W) + k) with (k + (r * H) * W) by ring.
    rewrite Z.div_add by lia. lia. }
  assert (E2 : (r * (H * W) + k) mod W = k mod W).
  { replace (r * (H * W) + k) with (k + (r * H) * W) by ring.
    apply Z.mod_add; lia. }
  rewrite E0, E1, E2.
  rewrite (Z.mod_small r) by lia.
  replace (r * H + k / W) with (k / W + r * H) by ring.
  rewrite Z.mod_add by lia. rewrite (Z.mod_small (k / W)) by lia.
  reflexivity.
Qed.

Lemma coords0_footprint (H W : Z) (sf : csr_matrix Q) :
  coords0 (footprint3 H W sf)
  = map (fun e : Z * Z * Q => fst (fst e)) (csr_entries_from 0 (csr_rows sf)).
Proof. unfold coords0, footprint3. cbn [nz3]. rewrite map_map. reflexivity. Qed.

Lemma steps_from_diff (l : list Z) :
  forall a, steps_from a l -> forall d, In d (NP.diff (a :: l)) -> d = 0 \/ d = 1.
Proof.
  induction l as [|b t IH]; intros a Hs d Hd.
  - destruct Hd.
  - destruct Hs as [Hab Hs]. change (NP.diff (a :: b :: t)) with ((b - a) :: NP.diff (b :: t)) in Hd.
    destruct Hd as [<-|Hd]; [exact Hab|]. eapply IH; eauto.
Qed.

Lemma steps_from_entries {V : Type} (rows : list (list (Z * V))) :
  (forall row, In row rows -> row <> []) ->
  forall i a, a = i \/ a = i - 1 ->
    steps_from a (map (fun e : Z * Z * V => fst (fst e)) (csr_entries_from i rows)).
Proof.
  induction rows as [|row rest IH]; intros Hne i a Ha; simpl.
  - exact I.
  - assert (Hrow : row <> []) by (apply Hne; left; reflexivity).
    assert (Hrest : steps_from i
              (map (fun e : Z * Z * V => fst (fst e)) (csr_entries_from (i + 1) rest))).
    { apply IH; [intros r Hr; apply Hne; right; exact Hr|]. right; lia. }
    clear IH Hne. rewrite map_app, map_map. cbn [fst].
    assert (Hsame : forall l : list (Z * V),
              steps_from i (map (fun _ : Z * V => i) l
                            ++ map (fun e : Z * Z * V => fst (fst e))
                                   (csr_entries_from (i + 1) rest))).
    { induction l as [|kv l IHl]; simpl; [exact Hrest|]. split; [left; lia|exact IHl]. }
    destruct row as [|kv row]; [congruence|]. simpl. split; [lia|apply Hsame].
Qed.

Lemma footprint_steps (H W : Z) (sf : csr_matrix Q) :
  (forall row, In row (csr_rows sf) -> row <> []) ->
  steps_ok (NP.diff (coords0 (footprint3 H W sf))) = true.
Proof.
  intros Hne. apply steps_ok_true. rewrite coords0_footprint.
  pose proof (steps_from_entries (csr_rows sf) Hne 0 0 (or_introl eq_refl)) as Hs.
  destruct (map (fun e : Z * Z * Q => fst (fst e)) (csr_entries_from 0 (csr_rows sf)))
    as [|a l] eqn:Hl.
  - intros d [].
  - destruct Hs as [_ Hs]. apply steps_from_diff; exact Hs.
Qed.

Lemma steps_from_of_diff (l : list Z) :
  forall a, (forall d, In d (NP.diff (a :: l)) -> d = 0 \/ d = 1) -> steps_from a l.
Proof.
  induction l as [|b t IH]; intros a Hd; [exact I|].
  change (NP.diff (a :: b :: t)) with ((b - a) :: NP.diff (b :: t)) in Hd.
  split; [apply Hd; left; reflexivity|].
  apply IH. intros d Hin. apply Hd. right. exact Hin.
Qed.

Lemma steps_from_monotone (l : list Z) :
  forall a, steps_from a l -> forall y, In y l -> a <= y.
Proof.
  induction l as [|b t IH]; intros a Hs y Hy; [destruct Hy|].
  destruct Hs as [Hab Hs]. destruct Hy as [<-|Hy]; [lia|]. specialize (IH b Hs y Hy). lia.
Qed.

Lemma steps_from_reach (l : list Z) :
  forall a, steps_from a l -> forall y, In y l -> forall i, a <= i <= y -> In i (a :: l).
Proof.
  induction l as [|b t IH]; intros a Hs y Hy i Hi; [destruct Hy|].
  destruct Hs as [Hab Hs].
  destruct (Z.eq_dec i a) as [->|Hne]; [left; reflexivity|]. right.
  destruct Hy as [<-|Hy].
  - left. lia.
  - apply (IH b Hs y Hy). lia.
Qed.

(** With steps of 0 or 1 only, no index between two indices of the array is
    skipped. *)
Lemma steps_from_no_gap (l : list Z) :
  forall x, steps_from x l ->
    forall a b i, In a (x :: l) -> In b (x :: l) -> a < i < b -> In i (x :: l).
Proof.
  induction l as [|z t IH]; intros x Hs a b i Ha Hb Hi.
  - simpl in Ha, Hb. destruct Ha as [Ha|Ha]; [|contradiction].
    destruct Hb as [Hb|Hb]; [|contradiction]. lia.
  - pose proof (steps_from_monotone _ _ Hs) as Hmono.
    destruct Ha as [<-|Ha].
    + destruct Hb as [<-|Hb]; [lia|].
      apply (steps_from_reach _ _ Hs b Hb). lia.
    + destruct Hb as [<-|Hb]; [specialize (Hmono a Ha); lia|].
      right. destruct Hs as [_ Hs]. apply (IH z Hs a b i Ha Hb Hi).
Qed.

(** An ROI without stored entries between two ROIs that have some makes
    the assertion of [sf_to_centeredROIs] fail. *)
Lemma empty_interior_roi_detected (H W : Z) (sf : csr_matrix Q)
    (centroids : list Z * list Z) (ohw : Z * Z) (a i b : Z) (row_a row_b : list (Z * Q)) :
  csr_wf sf -> csr_ncols sf = H * W -> 0 < H -> 0 < W ->
  0 <= a < i -> i < b ->
  nth_error (csr_rows sf) (Z.to_nat a) = Some row_a -> row_a <> [] ->
  nth_error (csr_rows sf) (Z.to_nat i) = Some [] ->
  nth_error (csr_rows sf) (Z.to_nat b) = Some row_b -> row_b <> [] ->
  sf_to_centeredROIs H W sf centroids ohw = Raise AssertionError.
Proof.
  intros Hwf Hcols HH HW Hai Hib Ha Hane Hi Hb Hbne.
  apply (sf_to_centeredROIs_assertion H W sf centroids ohw (footprint3 H W sf)).
  { apply reshape3_footprint; assumption. }
  destruct (steps_ok (NP.diff (coords0 (footprint3 H W sf)))) eqn:Hs; [exfalso|reflexivity].
  rewrite steps_ok_true, coords0_footprint in Hs.
  assert (Hin : forall j row, 0 <= j -> nth_error (csr_rows sf) (Z.to_nat j) = Some row ->
                  row <> [] ->
                  In j (map (fun e : Z * Z * Q => fst (fst e))
                            (csr_entries_from 0 (csr_rows sf)))).
  { intros j row Hj Hrow Hne. destruct row as [|[k v] row]; [congruence|].
    apply in_map_iff. exists (j, k, v). split; [reflexivity|].
    apply csr_entries_from_In. split; [lia|]. exists ((k, v) :: row).
    replace (j - 0) with j by lia. split; [exact Hrow|left; reflexivity]. }
  pose proof (Hin a row_a ltac:(lia) Ha Hane) as Hina.
  pose proof (Hin b row_b ltac:(lia) Hb Hbne) as Hinb.
  destruct (map (fun e : Z * Z * Q => fst (fst e)) (csr_entries_from 0 (csr_rows sf)))
    as [|x l] eqn:Hl; [destruct Hina|].
  pose proof (steps_from_no_gap l x (steps_from_of_diff l x Hs) a b i Hina Hinb ltac:(lia))
    as Hini.
  rewrite <- Hl in Hini. apply in_map_iff in Hini as ([[i' k] v] & Heq & Hini).
  cbn [fst] in Heq. subst i'.
  apply csr_entries_from_In in Hini as (_ & row & Hrow & Hkv).
  replace (i - 0) with i in Hrow by lia. rewrite Hi in Hrow. injection Hrow as <-.
  destruct Hkv.
Qed.

(** C9.  [sf_to_centeredROIs] (both classes) raises AssertionError if and only
    if two consecutive entries of the ROI-index coordinate array
    [sf_rs.coords[0]] differ by something other than 0 or 1, as happens when
    an ROI between two others has no entry; and when every row of the
    footprint matrix has at least one non-zero entry, the assertion does not
    fire. *)
Theorem C9_assertion_iff_bad_step (H W : Z) (sf : csr_matrix Q)
    (centroids : list Z * list Z) (ohw : Z * Z) (sf_rs : COO3 Q) :
  reshape3 (COO sf) (csr_nrows sf, H, W) = Ok sf_rs ->
  ((Data_suite2p.sf_to_centeredROIs H W sf centroids ohw = Raise AssertionError
    <-> exists d, In d (NP.diff (coords0 sf_rs)) /\ d <> 0 /\ d <> 1)
   /\ (Data_caiman.sf_to_centeredROIs H W sf centroids ohw = Raise AssertionError
       <-> exists d, In d (NP.diff (coords0 sf_rs)) /\ d <> 0 /\ d <> 1))
  /\ (csr_wf sf -> csr_ncols sf = H * W -> 0 < H -> 0 < W ->
      (forall row, In row (csr_rows sf) -> exists k v, In (k, v) row /\ ~ (v == 0)%Q) ->
      Data_suite2p.sf_to_centeredROIs H W sf centroids ohw <> Raise AssertionError
      /\ Data_caiman.sf_to_centeredROIs H W sf centroids ohw <> Raise AssertionError)
  /\ (csr_wf sf -> csr_ncols sf = H * W -> 0 < H -> 0 < W ->
      forall a i b row_a row_b,
        0 <= a < i -> i < b ->
        nth_error (csr_rows sf) (Z.to_nat a) = Some row_a -> row_a <> [] ->
        nth_error (csr_rows sf) (Z.to_nat i) = Some [] ->
        nth_error (csr_rows sf) (Z.to_nat b) = Some row_b -> row_b <> [] ->
        Data_suite2p.sf_to_centeredROIs H W sf centroids ohw = Raise AssertionError
        /\ Data_caiman.sf_to_centeredROIs H W sf centroids ohw = Raise AssertionError).
Proof.
  intros Hrs.
  unfold Data_suite2p.sf_to_centeredROIs, Data_caiman.sf_to_centeredROIs.
  pose proof (sf_to_centeredROIs_assertion H W sf centroids ohw sf_rs Hrs) as Hiff.
  rewrite steps_ok_false in Hiff.
  split; [split; exact Hiff|]. split.
  - intros Hwf Hcols HH HW Hnz.
    assert (Hno : sf_to_centeredROIs H W sf centroids ohw <> Raise AssertionError).
    { intros Hr. apply (sf_to_centeredROIs_assertion H W sf centroids ohw sf_rs Hrs) in Hr.
      rewrite (reshape3_footprint H W sf Hwf Hcols HH HW) in Hrs. injection Hrs as <-.
      rewrite footprint_steps in Hr; [discriminate|].
      intros row Hrow ->. destruct (Hnz [] Hrow) as (k & v & [] & _). }
    split; exact Hno.
  - intros Hwf Hcols HH HW a i b row_a row_b Hai Hib Ha Hane Hi Hb Hbne.
    split; eapply empty_interior_roi_detected; eauto.
Qed.

Lemma sf_two_rois_wf : csr_wf sf_two_rois.
Proof. unfold sf_two_rois. concrete_wf. Qed.

Lemma C9_witness :
  Data_suite2p.sf_to_centeredROIs 40 40 sf_two_rois ([5; 20], [7; 30]) (36, 36)
    <> Raise AssertionError
  /\ Data_caiman.sf_to_centeredROIs 40 40 sf_two_rois ([5; 20], [7; 30]) (36, 36)
    <> Raise AssertionError.
Proof.
  refine (proj1 (proj2 (C9_assertion_iff_bad_step 40 40 sf_two_rois ([5; 20], [7; 30]) (36, 36)
                          (footprint3 40 40 sf_two_rois) _)) sf_two_rois_wf _ _ _ _).
  - vm_compute. reflexivity.
  - reflexivity.
  - lia.
  - lia.
  - intros row Hrow. simpl in Hrow. destruct Hrow as [<-|[<-|[]]].
    + exists (5 * 40 + 7), 1%Q. split; [left; reflexivity|]. intros Hq. discriminate Hq.
    + exists (20 * 40 + 30), 1%Q. split; [left; reflexivity|]. intros Hq. discriminate Hq.
Defined.

(** ** The session-membership matrix *)

Lemma arange_length (n : Z) : len (NP.arange n) = Z.max 0 n.
Proof. unfold len, NP.arange. rewrite length_map, length_seq. lia. Qed.

Lemma arange_nth_error (n k : Z) :
  0 <= k < n -> nth_error (NP.arange n) (Z.to_nat k) = Some k.
Proof.
  intros Hk. unfold NP.arange. rewrite nth_error_map.
  rewrite (nth_error_nth' _ 0%nat) by (rewrite length_seq; lia).
  rewrite seq_nth by lia. simpl. f_equal. lia.
Qed.

Lemma arange_In (n k : Z) : In k (NP.arange n) <-> 0 <= k < n.
Proof.
  unfold NP.arange. rewrite in_map_iff. split.
  - intros (x & <- & Hx). apply in_seq in Hx. lia.
  - intros Hk. exists (Z.to_nat k). split; [lia|]. apply in_seq. lia.
Qed.

Lemma idx2bool_length (idx N : Z) : 0 <= N -> len (idx2bool idx N) = N.
Proof.
  intros HN. unfold idx2bool, len. rewrite length_map.
  pose proof (arange_length N) as HA. unfold len in HA. lia.
Qed.

Lemma idx2bool_nth (idx N k : Z) :
  0 <= k < N -> nth (Z.to_nat k) (idx2bool idx N) false = (k =? idx).
Proof.
  intros Hk. unfold idx2bool.
  assert (Hn : nth_error (map (fun j => j =? idx) (NP.arange N)) (Z.to_nat k) = Some (k =? idx)).
  { rewrite nth_error_map, arange_nth_error by lia. reflexivity. }
  apply nth_error_nth. exact Hn.
Qed.

Lemma one_hot_seq (idx : Z) (n a : nat) :
  true_count (map (fun j => j =? idx) (map Z.of_nat (seq a n)))
  = if (Z.of_nat a <=? idx) && (idx <? Z.of_nat a + Z.of_nat n) then 1 else 0.
Proof.
  revert a. induction n as [|n IH]; intros a.
  - unfold true_count, len. cbn [seq map filter List.length]. bool_cases.
  - cbn [seq map]. unfold true_count in *. cbn [filter].
    specialize (IH (S a)).
    destruct (Z.eqb_spec (Z.of_nat a) idx) as [He|He].
    + rewrite len_cons, IH. bool_cases.
    + rewrite IH. bool_cases.
Qed.

Lemma idx2bool_one_hot (idx N : Z) : 0 <= idx < N -> true_count (idx2bool idx N) = 1.
Proof.
  intros H. unfold idx2bool, NP.arange. rewrite one_hot_seq. bool_cases.
Qed.

Lemma blocks_of_sessions (N : Z) (n_roi : list Z) :
  0 <= N -> (forall n, In n n_roi -> 1 <= n) ->
  forall i, exists blocks,
    enumerate_from (fun i_sesh n => Ok (repeated_rows (idx2bool i_sesh N) n)) i n_roi = Ok blocks
    /\ List.concat blocks = membership_from N i n_roi
    /\ List.length blocks = List.length n_roi
    /\ forall b, In b blocks -> len (hd [] b) = N.
Proof.
  intros HN. induction n_roi as [|n rest IH]; intros Hpos i.
  - exists []. simpl. repeat split; auto. intros b [].
  - destruct (IH (fun x Hx => Hpos x (or_intror Hx)) (i + 1)) as (bs & He & Hc & Hl & Hw).
    assert (Hn : 1 <= n) by (apply Hpos; left; reflexivity).
    exists (repeated_rows (idx2bool i N) n :: bs). simpl. rewrite He. cbn [bind].
    assert (Hrep : repeated_rows (idx2bool i N) n = repeat (idx2bool i N) (Z.to_nat n)).
    { unfold repeated_rows. destruct (Z.to_nat n) eqn:E; [lia|reflexivity]. }
    repeat split.
    + rewrite Hc, Hrep. reflexivity.
    + rewrite Hl. reflexivity.
    + intros b [<-|Hb]; [|apply Hw; exact Hb].
      rewrite Hrep. destruct (Z.to_nat n) eqn:E; [lia|]. simpl. apply idx2bool_length; exact HN.
Qed.

Lemma sessionID_concat_ok (n_roi : list Z) :
  n_roi <> [] -> (forall n, In n n_roi -> 1 <= n) ->
  sessionID_concat n_roi = Ok (membership_from (len n_roi) 0 n_roi).
Proof.
  intros Hne Hpos. unfold sessionID_concat.
  destruct (blocks_of_sessions (len n_roi) n_roi (len_nonneg _) Hpos 0)
    as (bs & He & Hc & Hl & Hw).
  rewrite He. cbn [bind]. unfold vstack.
  destruct bs as [|b bs']; [destruct n_roi; [congruence|discriminate]|].
  replace (forallb (fun m => len (hd [] m) =? len (hd [] b)) (b :: bs')) with true.
  - rewrite Hc. reflexivity.
  - symmetry. apply forallb_forall. intros x Hx. apply Z.eqb_eq.
    rewrite (Hw x Hx), (Hw b (or_introl eq_refl)). reflexivity.
Qed.

Lemma membership_from_len (N : Z) (n_roi : list Z) :
  (forall n, In n n_roi -> 0 <= n) ->
  forall i, len (membership_from N i n_roi) = zsum n_roi.
Proof.
  induction n_roi as [|n rest IH]; intros Hpos i; simpl.
  - reflexivity.
  - rewrite len_app, IH by (intros x Hx; apply Hpos; right; exact Hx).
    unfold len. rewrite repeat_length.
    assert (0 <= n) by (apply Hpos; left; reflexivity). lia.
Qed.

Lemma membership_from_rows (N : Z) (n_roi : list Z) :
  forall i row, In row (membership_from N i n_roi) ->
    exists j, i <= j < i + len n_roi /\ row = idx2bool j N.
Proof.
  induction n_roi as [|n rest IH]; intros i row Hin; simpl in Hin.
  - destruct Hin.
  - rewrite len_cons. pose proof (len_nonneg rest).
    apply in_app_iff in Hin as [Hin|Hin].
    + apply repeat_spec in Hin. exists i. split; [lia|exact Hin].
    + destruct (IH _ _ Hin) as (j & Hj & ->). exists j. split; [lia|reflexivity].
Qed.

Lemma membership_from_nth (N : Z) (n_roi : list Z) :
  (forall n, In n n_roi -> 0 <= n) ->
  forall i r, 0 <= r < zsum n_roi ->
    nth_error (membership_from N i n_roi) (Z.to_nat r)
    = Some (idx2bool (session_of_from i n_roi r) N).
Proof.
  induction n_roi as [|n rest IH]; intros Hpos i r Hr; simpl in *.
  - lia.
  - assert (Hn : 0 <= n) by (apply Hpos; left; reflexivity).
    destruct (Z.ltb_spec r n) as [Hlt|Hge].
    + rewrite nth_error_app1 by (rewrite repeat_length; lia).
      apply nth_error_repeat. lia.
    + rewrite nth_error_app2 by (rewrite repeat_length; lia).
      rewrite repeat_length.
      replace (Z.to_nat r - Z.to_nat n)%nat with (Z.to_nat (r - n)) by lia.
      apply IH; [intros x Hx; apply Hpos; right; exact Hx|lia].
Qed.

Lemma session_of_from_range (n_roi : list Z) :
  forall i r, 0 <= r < zsum n_roi -> (forall n, In n n_roi -> 0 <= n) ->
    i <= session_of_from i n_roi r < i + len n_roi.
Proof.
  induction n_roi as [|n rest IH]; intros i r Hr Hpos; simpl in *.
  - lia.
  - rewrite len_cons. pose proof (len_nonneg rest).
    destruct (Z.ltb_spec r n); [lia|].
    assert (i + 1 <= session_of_from (i + 1) rest (r - n) < i + 1 + len rest).
    { apply IH; [lia|intros x Hx; apply Hpos; right; exact Hx]. }
    lia.
Qed.

Lemma filter_repeat_len {A : Type} (f : A -> bool) (x : A) (k : nat) :
  len (filter f (repeat x k)) = if f x then Z.of_nat k else 0.
Proof.
  induction k as [|k IH]; simpl.
  - destruct (f x); reflexivity.
  - destruct (f x) eqn:Hf; [rewrite len_cons|]; rewrite IH; lia.
Qed.

Lemma membership_from_column (N : Z) (n_roi : list Z) :
  (forall n, In n n_roi -> 0 <= n) ->
  forall i c, 0 <= i -> i + len n_roi <= N -> 0 <= c < N ->
    column_true_count (membership_from N i n_roi) c
    = if (i <=? c) && (c <? i + len n_roi) then nth (Z.to_nat (c - i)) n_roi 0 else 0.
Proof.
  unfold column_true_count.
  induction n_roi as [|n rest IH]; intros Hpos i c Hi HN Hc.
  - simpl. destruct ((i <=? c) && (c <? i + len [])); destruct (Z.to_nat (c - i)); reflexivity.
  - rewrite len_cons in *. pose proof (len_nonneg rest).
    assert (Hn : 0 <= n) by (apply Hpos; left; reflexivity).
    simpl membership_from. rewrite filter_app, len_app.
    rewrite IH by (try lia; intros x Hx; apply Hpos; right; exact Hx).
    assert (Hrep : len (filter (fun row => nth (Z.to_nat c) row false)
                               (repeat (idx2bool i N) (Z.to_nat n)))
                   = if c =? i then n else 0).
    { rewrite filter_repeat_len, idx2bool_nth by lia.
      destruct (c =? i); lia. }
    rewrite Hrep.
    destruct (Z.eqb_spec c i) as [->|Hne].
    + replace (i - i) with 0 by lia. simpl nth.
      destruct (Z.leb_spec (i + 1) i); destruct (Z.leb_spec i i);
        destruct (Z.ltb_spec i (i + (len rest + 1))); simpl; lia.
    + destruct (Z.leb_spec (i + 1) c); destruct (Z.leb_spec i c);
        destruct (Z.ltb_spec c (i + 1 + len rest));
        destruct (Z.ltb_spec c (i + (len rest + 1))); simpl; try lia.
      replace (Z.to_nat (c - i)) with (S (Z.to_nat (c - (i + 1)))) by lia. reflexivity.
Qed.

(** C6, as stated, fails when a session has no ROI: [np.array([row] * 0)] is
    an empty array that [np.vstack] cannot stack under rows of n_sessions
    columns, so no matrix is produced. *)
Lemma C6_counterexample_empty_session : sessionID_concat [2; 0] = Raise ValueError.
Proof. reflexivity. Qed.

(** C6 (amended).  For a non-empty sequence of footprint matrices that each
    have at least one row, [sessionID_concat] is a boolean matrix with one
    row per ROI and one column per session; every row has exactly one true
    entry; the true entry of row [r] is in the column of the session that
    owns [r] in concatenation order; column [i] has [n_roi[i]] true entries. *)
Theorem C6_session_membership (n_roi : list Z) :
  n_roi <> [] -> (forall n, In n n_roi -> 1 <= n) ->
  exists m,
    sessionID_concat n_roi = Ok m
    /\ len m = zsum n_roi
    /\ (forall row, In row m -> len row = len n_roi /\ true_count row = 1)
    /\ (forall r, 0 <= r < zsum n_roi ->
          exists row, nth_error m (Z.to_nat r) = Some row
                      /\ nth (Z.to_nat (session_of n_roi r)) row false = true)
    /\ (forall i, 0 <= i < len n_roi ->
          column_true_count m i = nth (Z.to_nat i) n_roi 0).
Proof.
  intros Hne Hpos.
  assert (Hnn : forall n, In n n_roi -> 0 <= n) by (intros n Hn; specialize (Hpos n Hn); lia).
  exists (membership_from (len n_roi) 0 n_roi).
  split; [apply sessionID_concat_ok; assumption|].
  split; [apply membership_from_len; assumption|].
  split; [|split].
  - intros row Hrow. apply membership_from_rows in Hrow as (j & Hj & ->).
    split; [apply idx2bool_length; apply len_nonneg|apply idx2bool_one_hot; lia].
  - intros r Hr. exists (idx2bool (session_of n_roi r) (len n_roi)).
    split; [apply membership_from_nth; assumption|].
    pose proof (session_of_from_range n_roi 0 r Hr Hnn) as Hs. fold (session_of n_roi r) in Hs.
    rewrite idx2bool_nth by lia. apply Z.eqb_refl.
  - intros i Hi. rewrite membership_from_column by (try assumption; lia).
    replace (i - 0) with i by lia. bool_cases.
Qed.

Lemma C6_witness :
  exists m,
    sessionID_concat [3; 2] = Ok m
    /\ len m = zsum [3; 2]
    /\ (forall row, In row m -> len row = len [3; 2] /\ true_count row = 1)
    /\ (forall r, 0 <= r < zsum [3; 2] ->
          exists row, nth_error m (Z.to_nat r) = Some row
                      /\ nth (Z.to_nat (session_of [3; 2] r)) row false = true)
    /\ (forall i, 0 <= i < len [3; 2] ->
          column_true_count m i = nth (Z.to_nat i) [3; 2] 0).
Proof.
  apply (C6_session_membership [3; 2]).
  - discriminate.
  - intros n Hn. simpl in Hn. destruct Hn as [<-|[<-|[]]]; lia.
Defined.

(** ** The legacy pixel shift *)

Lemma for_each_total {A B : Type} (f : A -> result B) (g : A -> B) (l : list A) :
  (forall x, In x l -> f x = Ok (g x)) -> for_each f l = Ok (map g l).
Proof.
  induction l as [|x t IH]; intros Hf; simpl.
  - reflexivity.
  - rewrite (Hf x (or_introl eq_refl)). cbn [bind].
    rewrite IH by (intros y Hy; apply Hf; right; exact Hy). reflexivity.
Qed.



Lemma uint64_small (z : Z) : 0 <= z < 2 ^ 64 -> NP.uint64 z = z.
Proof. intros Hz. unfold NP.uint64. apply Z.mod_small. exact Hz. Qed.









(** ** Label import *)

(** C7 (code defect).  [Data_suite2p.import_ROI_labels] accepts any label
    arrays, whatever the ROI counts: the guard [type(self.statFiles) is
    np.ndarray] is false for the list that [import_statFiles] builds, so the
    count assertion is never evaluated; e.g. 3 ROIs and 2 labels are
    accepted.  [Data_caiman.import_ROI_labels] raises AttributeError on
    every input, matching counts included. *)
Theorem C7_label_counts_unchecked (squeeze_integers : list Z -> list Z)
    (n_roi : list Z) (raw_labels : list (list Z)) :
  Data_suite2p.import_ROI_labels squeeze_integers n_roi raw_labels
  = Ok (squeeze_integers (List.concat raw_labels))
  /\ Data_suite2p.import_ROI_labels squeeze_integers [3] [[0; 1]]
     = Ok (squeeze_integers [0; 1])
  /\ Data_caiman.import_ROI_labels squeeze_integers raw_labels = Raise AttributeError.
Proof. repeat split. Qed.

(** ** Centroids *)

(** C2 (code defect).  With the 'median' selector [Data_suite2p.get_centroids]
    returns None (or raises on a matrix that is not n_roi x H*W), never a
    centroid.  [Data_caiman.get_centroids] drops index 0 together with the
    zero entries: for an ROI that covers rows 0, 1, 2 of column 0 in a 4 x 4
    FOV it returns row 2 (the rounded median of rows 1 and 2) where the
    median of the rows is 1, and an undefined column where the median of the
    columns is 0. *)
Theorem C2_median_defects (sf : csr_matrix Q) (H W : Z) :
  (Data_suite2p.get_centroids "median" sf H W = Ok PyNone
   \/ Data_suite2p.get_centroids "median" sf H W = Raise ValueError)
  /\ Data_suite2p.get_centroids "median" sf_column_of_three 4 4 = Ok PyNone
  /\ Data_caiman.get_centroids "median" sf_column_of_three 4 4
     = Ok (Centroids [Some 2] [None]).
Proof.
  split; [|split; vm_compute; reflexivity].
  unfold Data_suite2p.get_centroids.
  destruct (reshape3 (COO sf) (csr_nrows sf, H, W)) as [sf_rs|e] eqn:Hrs; cbn [bind].
  - left. reflexivity.
  - right. unfold reshape3 in Hrs. destruct (shape2 (COO sf)) as [n m].
    destruct (negb (n * m =? csr_nrows sf * H * W)); [|discriminate].
    injection Hrs as <-. reflexivity.
Qed.

(** ** ROI-centred images *)

(** C1 (code defect).  Line 325 (and 560) replaces the requested patch size
    by (36, 36): a request for 20 x 20 patches on a 40 x 40 FOV returns an
    array of shape (1, 36, 36), in both classes. *)
Theorem C1_patch_size_ignored :
  exists a,
    Data_suite2p.sf_to_centeredROIs 40 40 sf_one_pixel_40 ([5], [7]) (20, 20) = Ok a
    /\ Data_caiman.sf_to_centeredROIs 40 40 sf_one_pixel_40 ([5], [7]) (20, 20) = Ok a
    /\ nd_shape a = (1, 36, 36)
    /\ nested_shape a = (1, 36, 36).
Proof.
  destruct (sf_to_centeredROIs 40 40 sf_one_pixel_40 ([5], [7]) (20, 20)) as [a|e] eqn:Ha;
    [|vm_compute in Ha; discriminate].
  exists a. unfold Data_suite2p.sf_to_centeredROIs, Data_caiman.sf_to_centeredROIs.
  rewrite Ha. repeat split; vm_compute in Ha; injection Ha as <-; vm_compute; reflexivity.
Qed.

(** ** Fortran order to C order *)

Lemma qsum_app (l1 l2 : list Q) : (NP.qsum (l1 ++ l2) == NP.qsum l1 + NP.qsum l2)%Q.
Proof.
  induction l1 as [|x t IH]; simpl.
  - ring.
  - rewrite IH. ring.
Qed.

Lemma qsum_flat_map_perm {A : Type} (f : A -> list Q) (l l' : list A) :
  Permutation l l' -> (NP.qsum (flat_map f l) == NP.qsum (flat_map f l'))%Q.
Proof.
  induction 1 as [|x l l' _ IH|x y l|l l' l'' _ IH1 _ IH2]; simpl.
  - reflexivity.
  - rewrite !qsum_app, IH. reflexivity.
  - rewrite !qsum_app. ring.
  - rewrite IH1. exact IH2.
Qed.

Lemma insert_entry_perm {V : Type} (d1 d2 : Z) (e : Z * Z * Z * V) (l : list (Z * Z * Z * V)) :
  Permutation (insert_entry d1 d2 e l) (e :: l).
Proof.
  induction l as [|e' t IH]; simpl.
  - apply Permutation_refl.
  - destruct e as [[[a b] c] v]. destruct e' as [[[a' b'] c'] v'].
    destruct ((a * d1 + b) * d2 + c <=? (a' * d1 + b') * d2 + c').
    + apply Permutation_refl.
    + eapply Permutation_trans; [apply perm_skip; exact IH|apply perm_swap].
Qed.

Lemma sort_entries_perm {V : Type} (d1 d2 : Z) (l : list (Z * Z * Z * V)) :
  Permutation (fold_right (insert_entry d1 d2) [] l) l.
Proof.
  induction l as [|e t IH]; simpl.
  - apply Permutation_refl.
  - eapply Permutation_trans; [apply insert_entry_perm|apply perm_skip; exact IH].
Qed.

Lemma flat_map_flat_map {A B C : Type} (f : A -> list B) (g : B -> list C) (l : list A) :
  flat_map g (flat_map f l) = flat_map (fun x => flat_map g (f x)) l.
Proof.
  induction l as [|x t IH]; simpl; [reflexivity|].
  rewrite flat_map_app, IH. reflexivity.
Qed.

Lemma flat_map_map {A B C : Type} (f : A -> B) (g : B -> list C) (l : list A) :
  flat_map g (map f l) = flat_map (fun x => g (f x)) l.
Proof. induction l as [|x t IH]; simpl; [reflexivity|]. rewrite IH. reflexivity. Qed.

Lemma flat_map_all_nil {A B : Type} (f : A -> list B) (l : list A) :
  (forall x, In x l -> f x = []) -> flat_map f l = [].
Proof.
  induction l as [|x t IH]; intros Hf; simpl; [reflexivity|].
  rewrite (Hf x (or_introl eq_refl)), IH by (intros y Hy; apply Hf; right; exact Hy).
  reflexivity.
Qed.

(** Selecting row [i] among the entries of the rows numbered from [j]. *)
Lemma csr_entries_select {B : Type} (rows : list (list (Z * Q))) (g : Z * Q -> list B) :
  forall j i, j <= i ->
    flat_map (fun e : Z * Z * Q => if fst (fst e) =? i then g (snd (fst e), snd e) else [])
             (csr_entries_from j rows)
    = flat_map g (nth (Z.to_nat (i - j)) rows []).
Proof.
  induction rows as [|row rest IH]; intros j i Hji; simpl.
  - destruct (Z.to_nat (i - j)); reflexivity.
  - rewrite flat_map_app, flat_map_map. cbn [fst snd].
    destruct (Z.eq_dec i j) as [->|Hne].
    + replace (j - j) with 0 by lia. cbn [Z.to_nat nth].
      rewrite (flat_map_all_nil _ (csr_entries_from (j + 1) rest)).
      * rewrite app_nil_r. apply flat_map_ext. intros [k v]. cbn [fst snd].
        rewrite Z.eqb_refl. reflexivity.
      * intros [[r k] v] Hin. apply csr_entries_from_In in Hin as [Hle _].
        cbn [fst snd]. destruct (Z.eqb_spec r j); [lia|reflexivity].
    + rewrite (flat_map_all_nil _ row).
      * cbn [app]. rewrite IH by lia.
        replace (Z.to_nat (i - j)) with (S (Z.to_nat (i - (j + 1)))) by lia. reflexivity.
      * intros [k v] _. cbn [fst snd]. destruct (Z.eqb_spec j i); [lia|reflexivity].
Qed.

Lemma flat_map_ext_in {A B : Type} (f g : A -> list B) (l : list A) :
  (forall x, In x l -> f x = g x) -> flat_map f l = flat_map g l.
Proof.
  induction l as [|x t IH]; intros Hfg; simpl; [reflexivity|].
  rewrite (Hfg x (or_introl eq_refl)), IH by (intros y Hy; apply Hfg; right; exact Hy).
  reflexivity.
Qed.

(** Position [c * H + r] of the Fortran order is position [r * W + c] of the
    C order. *)
Lemma fortran_to_c_index (H W k r c : Z) :
  0 < H -> 0 < W -> 0 <= k < H * W -> 0 <= r < H -> 0 <= c < W ->
  ((k mod H) * W + k / H = r * W + c <-> k = c * H + r).
Proof.
  intros HH HW Hk Hr Hc.
  assert (Hm : 0 <= k mod H < H) by (apply Z.mod_pos_bound; lia).
  assert (Hd : 0 <= k / H < W).
  { split; [apply Z.div_pos; lia|]. apply Z.div_lt_upper_bound; lia. }
  pose proof (Z.div_mod k H ltac:(lia)) as Hdm.
  split.
  - intros Heq.
    assert (E1 : k mod H = r).
    { destruct (Z.lt_trichotomy (k mod H) r) as [Hlt|[Heq'|Hgt]]; [exfalso|exact Heq'|exfalso].
      - assert ((k mod H + 1) * W <= r * W) by (apply Z.mul_le_mono_nonneg_r; lia). lia.
      - assert ((r + 1) * W <= k mod H * W) by (apply Z.mul_le_mono_nonneg_r; lia). lia. }
    assert (E2 : k / H = c) by (rewrite E1 in Heq; lia).
    rewrite E1, E2 in Hdm. lia.
  - intros ->. replace (c * H + r) with (r + c * H) by ring.
    rewrite Z.mod_add, Z.div_add, Z.mod_small, Z.div_small by lia. lia.
Qed.

(** The pipeline of line 495 on a well-formed Fortran-order matrix. *)
Lemma fortran_pipeline (H W : Z) (sf_F : csr_matrix Q) :
  csr_wf sf_F -> csr_ncols sf_F = H * W -> 0 < H -> 0 < W ->
  exists l,
    Permutation l (map (fun e : Z * Z * Q =>
                          (fst (fst e), snd (fst e) mod H, snd (fst e) / H, snd e))
                       (csr_entries_from 0 (csr_rows sf_F)))
    /\ (a <- reshape3 (COO sf_F) (csr_nrows sf_F, W, H) ;;
        b <- reshape2 (transpose_021 a) (csr_nrows sf_F, W * H) ;;
        Ok (tocsr b))
       = Ok (tocsr {| shape2 := (csr_nrows sf_F, W * H);
                      nz2 := map (fun e : Z * Z * Z * Q =>
                                    (fst (fst (fst e)),
                                     snd (fst (fst e)) * W + snd (fst e), snd e)) l |}).
Proof.
  intros Hwf Hcols HH HW.
  rewrite (reshape3_footprint W H sf_F Hwf) by lia. cbn [bind].
  unfold transpose_021, footprint3. cbn [shape3 nz3]. rewrite map_map.
  set (l := fold_right (insert_entry H W) [] _).
  assert (Hperm : Permutation l
            (map (fun e : Z * Z * Q =>
                    (fst (fst e), snd (fst e) mod H, snd (fst e) / H, snd e))
                 (csr_entries_from 0 (csr_rows sf_F)))).
  { subst l. eapply Permutation_trans; [apply sort_entries_perm|].
    apply Permutation_refl. }
  exists l. split; [exact Hperm|].
  unfold reshape2. cbn [shape3 nz3].
  replace (csr_nrows sf_F * H * W =? csr_nrows sf_F * (W * H)) with true
    by (symmetry; apply Z.eqb_eq; ring).
  cbn [negb bind]. do 3 f_equal.
  apply map_ext_in. intros [[[a b] c] v] Hin.
  apply (Permutation_in _ Hperm) in Hin. apply in_map_iff in Hin as ([[i k] v'] & Heq & Hin).
  cbn [fst snd] in Heq. injection Heq as <- <- <- <-.
  destruct (csr_entries_in_range sf_F i k v' Hwf Hin) as [Hi Hk]. rewrite Hcols in Hk.
  assert (Hm : 0 <= k mod H < H) by (apply Z.mod_pos_bound; lia).
  assert (Hd : 0 <= k / H < W).
  { split; [apply Z.div_pos; lia|]. apply Z.div_lt_upper_bound; lia. }
  cbn [fst snd].
  assert (Hsmall : 0 <= k mod H * W + k / H < W * H) by nia.
  replace ((i * H + k mod H) * W + k / H) with ((k mod H * W + k / H) + i * (W * H)) by ring.
  rewrite Z.div_add, Z.mod_add by lia.
  rewrite (Z.div_small (k mod H * W + k / H)), (Z.mod_small (k mod H * W + k / H)) by lia.
  rewrite Z.add_0_l, (Z.mod_small i) by lia. reflexivity.
Qed.

Lemma tocsr_get (x : COO2 Q) (i k : Z) :
  0 <= i < fst (shape2 x) ->
  csr_get (tocsr x) i k
  = NP.qsum (flat_map (fun e : Z * Z * Q =>
                         if (fst (fst e) =? i) && (snd (fst e) =? k) then [snd e] else [])
                      (nz2 x)).
Proof.
  intros Hi. unfold csr_get, tocsr. cbn [csr_rows].
  erewrite nth_error_nth; cycle 1.
  { rewrite nth_error_map, arange_nth_error by exact Hi. reflexivity. }
  unfold row_get. rewrite flat_map_flat_map. f_equal.
  apply flat_map_ext. intros [[r c] v]. cbn [fst snd].
  destruct (r =? i); cbn [andb flat_map fst snd app]; [|reflexivity].
  destruct (c =? k); reflexivity.
Qed.

Lemma import_spatialFootprints_get (H W : Z) (sf_F sf : csr_matrix Q) :
  csr_wf sf_F -> csr_ncols sf_F = H * W -> 0 < H -> 0 < W ->
  (a <- reshape3 (COO sf_F) (csr_nrows sf_F, W, H) ;;
   b <- reshape2 (transpose_021 a) (csr_nrows sf_F, W * H) ;;
   Ok (tocsr b)) = Ok sf ->
  csr_ncols sf = W * H
  /\ csr_nrows sf = csr_nrows sf_F
  /\ forall i r c, 0 <= i < csr_nrows sf_F -> 0 <= r < H -> 0 <= c < W ->
       (csr_get sf i (r * W + c) == csr_get sf_F i (c * H + r))%Q.
Proof.
  intros Hwf Hcols HH HW Hsf.
  destruct (fortran_pipeline H W sf_F Hwf Hcols HH HW) as (l & Hperm & Hpipe).
  rewrite Hpipe in Hsf. injection Hsf as <-.
  split; [reflexivity|]. split.
  { unfold csr_nrows at 1, tocsr. cbn [csr_rows shape2 fst]. unfold len.
    rewrite length_map. pose proof (arange_length (csr_nrows sf_F)) as HA.
    unfold len in HA. rewrite HA. pose proof (len_nonneg (csr_rows sf_F)).
    unfold csr_nrows in *. lia. }
  intros i r c Hi Hr Hc.
  rewrite tocsr_get by (cbn [shape2 fst]; exact Hi). cbn [nz2].
  rewrite flat_map_map. cbn [fst snd].
  rewrite (qsum_flat_map_perm _ _ _ Hperm). rewrite flat_map_map. cbn [fst snd].
  unfold csr_get, row_get.
  replace (Z.to_nat i) with (Z.to_nat (i - 0)) by (f_equal; lia).
  rewrite <- (csr_entries_select (csr_rows sf_F)
                (fun kv : Z * Q => if fst kv =? c * H + r then [snd kv] else []) 0 i) by lia.
  cbn [fst snd].
  erewrite flat_map_ext_in; [reflexivity|].
  intros [[i' k] v] Hin. cbn [fst snd].
  destruct (csr_entries_in_range sf_F i' k v Hwf Hin) as [_ Hk]. rewrite Hcols in Hk.
  destruct (i' =? i); cbn [andb]; [|reflexivity].
  pose proof (fortran_to_c_index H W k r c HH HW Hk Hr Hc) as Hidx.
  destruct (Z.eqb_spec (k mod H * W + k / H) (r * W + c)) as [E|E];
    destruct (Z.eqb_spec k (c * H + r)) as [E'|E']; try reflexivity; tauto.
Qed.

Lemma nth_flat_map_blocks {A B : Type} (f : A -> list B) (h : nat) (d : B) (da : A)
    (l : list A) :
  (forall x, In x l -> List.length (f x) = h) ->
  forall c r, (r < h)%nat -> (c < List.length l)%nat ->
    nth (c * h + r) (flat_map f l) d = nth r (f (nth c l da)) d.
Proof.
  induction l as [|x t IH]; intros Hlen c r Hr Hc; simpl in Hc; [lia|].
  assert (Hx : List.length (f x) = h) by (apply Hlen; left; reflexivity).
  destruct c as [|c]; simpl.
  - apply app_nth1. lia.
  - rewrite app_nth2 by lia. rewrite Hx.
    replace (h + c * h + r - h)%nat with (c * h + r)%nat by lia.
    apply IH; [intros y Hy; apply Hlen; right; exact Hy|exact Hr|lia].
Qed.

Lemma length_flat_map_blocks {A B : Type} (f : A -> list B) (h : nat) (l : list A) :
  (forall x, In x l -> List.length (f x) = h) ->
  List.length (flat_map f l) = (List.length l * h)%nat.
Proof.
  induction l as [|x t IH]; intros Hlen; simpl; [reflexivity|].
  rewrite length_app, IH by (intros y Hy; apply Hlen; right; exact Hy).
  rewrite (Hlen x (or_introl eq_refl)). reflexivity.
Qed.

Lemma Forall2_pointwise {A B : Type} (R : A -> B -> Prop) (da : A) (db : B)
    (l1 : list A) :
  forall l2, List.length l1 = List.length l2 ->
    (forall j, (j < List.length l1)%nat -> R (nth j l1 da) (nth j l2 db)) ->
    Forall2 R l1 l2.
Proof.
  induction l1 as [|x t IH]; intros [|y u] Hlen Hp; simpl in Hlen; try discriminate.
  - constructor.
  - constructor.
    + apply (Hp 0%nat). simpl. lia.
    + apply IH; [lia|]. intros j Hj. apply (Hp (S j)). simpl. lia.
Qed.

Lemma arange_nat_length (n : Z) : List.length (NP.arange n) = Z.to_nat n.
Proof. unfold NP.arange. rewrite length_map, length_seq. reflexivity. Qed.

Lemma arange_nth (n : Z) (j : nat) : (j < Z.to_nat n)%nat -> nth j (NP.arange n) 0 = Z.of_nat j.
Proof.
  intros Hj. apply nth_error_nth.
  replace j with (Z.to_nat (Z.of_nat j)) at 1 by lia. apply arange_nth_error. lia.
Qed.

Lemma flatten_F_length (H W : Z) (M : list (list Q)) :
  0 <= H -> 0 <= W -> len (flatten_F H W M) = H * W.
Proof.
  intros HH HW. unfold len, flatten_F.
  rewrite (length_flat_map_blocks _ (Z.to_nat H)).
  - rewrite arange_nat_length. nia.
  - intros c _. rewrite length_map. apply arange_nat_length.
Qed.

Lemma flatten_F_nth (H W : Z) (M : list (list Q)) (r c : Z) :
  0 <= r < H -> 0 <= c < W ->
  nth (Z.to_nat (c * H + r)) (flatten_F H W M) 0%Q
  = nth (Z.to_nat c) (nth (Z.to_nat r) M []) 0%Q.
Proof.
  intros Hr Hc. unfold flatten_F.
  replace (Z.to_nat (c * H + r)) with (Z.to_nat c * Z.to_nat H + Z.to_nat r)%nat by nia.
  rewrite (nth_flat_map_blocks _ (Z.to_nat H) 0%Q 0).
  - rewrite arange_nth by lia. rewrite Z2Nat.id by lia.
    rewrite (nth_indep _ 0%Q (nth (Z.to_nat c) (nth (Z.to_nat 0) M []) 0%Q))
      by (rewrite length_map, arange_nat_length; lia).
    rewrite (map_nth (fun r0 => nth (Z.to_nat c) (nth (Z.to_nat r0) M []) 0%Q)).
    rewrite arange_nth by lia. rewrite Nat2Z.id. reflexivity.
  - intros x _. rewrite length_map. apply arange_nat_length.
  - lia.
  - rewrite arange_nat_length. lia.
Qed.

Lemma concat_as_flat_map {A : Type} (M : list (list A)) :
  List.concat M = flat_map (fun line => line) M.
Proof. induction M as [|x t IH]; simpl; [reflexivity|]. rewrite IH. reflexivity. Qed.

Lemma flatten_C_length (H W : Z) (M : list (list Q)) :
  mask_shape H W M -> 0 <= W -> len (flatten_C M) = H * W.
Proof.
  intros [HM Hl] HW. unfold len, flatten_C in *. rewrite concat_as_flat_map.
  rewrite (length_flat_map_blocks _ (Z.to_nat W)).
  - nia.
  - intros x Hx. specialize (Hl x Hx). lia.
Qed.

Lemma flatten_C_nth (H W : Z) (M : list (list Q)) (r c : Z) :
  mask_shape H W M -> 0 <= r < H -> 0 <= c < W ->
  nth (Z.to_nat (r * W + c)) (flatten_C M) 0%Q
  = nth (Z.to_nat c) (nth (Z.to_nat r) M []) 0%Q.
Proof.
  intros [HM Hl] Hr Hc. unfold flatten_C, len in *. rewrite concat_as_flat_map.
  replace (Z.to_nat (r * W + c)) with (Z.to_nat r * Z.to_nat W + Z.to_nat c)%nat by nia.
  rewrite (nth_flat_map_blocks _ (Z.to_nat W) 0%Q []).
  - reflexivity.
  - intros x Hx. specialize (Hl x Hx). lia.
  - lia.
  - lia.
Qed.

Lemma sparsify_as_seq (v : list Q) :
  sparsify v
  = flat_map (fun kx : Z * Q => if Qeq_bool (snd kx) 0 then [] else [kx])
             (combine (map Z.of_nat (seq 0 (List.length v))) v).
Proof. unfold sparsify, NP.arange, len. rewrite Nat2Z.id. reflexivity. Qed.

Lemma sparsify_keys (v : list Q) (a : nat) (k : Z) (x : Q) :
  In (k, x) (flat_map (fun kx : Z * Q => if Qeq_bool (snd kx) 0 then [] else [kx])
                      (combine (map Z.of_nat (seq a (List.length v))) v)) ->
  Z.of_nat a <= k < Z.of_nat a + len v.
Proof.
  intros Hin. apply in_flat_map in Hin as ([k' x'] & Hc & Hin).
  cbn [snd] in Hin. destruct (Qeq_bool x' 0); [destruct Hin|].
  destruct Hin as [Heq|[]]. injection Heq as -> ->.
  apply in_combine_l in Hc. apply in_map_iff in Hc as (j & <- & Hj).
  apply in_seq in Hj. unfold len. lia.
Qed.

Lemma sparsify_get_from (v : list Q) :
  forall (a : nat) (k : Z),
    (NP.qsum (flat_map (fun kv : Z * Q => if fst kv =? k then [snd kv] else [])
                (flat_map (fun kx : Z * Q => if Qeq_bool (snd kx) 0 then [] else [kx])
                          (combine (map Z.of_nat (seq a (List.length v))) v)))
     == if (Z.of_nat a <=? k) && (k <? Z.of_nat a + len v)
        then nth (Z.to_nat (k - Z.of_nat a)) v 0 else 0)%Q.
Proof.
  induction v as [|x t IH]; intros a k.
  - simpl. destruct ((Z.of_nat a <=? k) && (k <? Z.of_nat a + len []));
      [destruct (Z.to_nat (k - Z.of_nat a))|]; reflexivity.
  - cbn [List.length seq map combine flat_map snd]. rewrite flat_map_app, qsum_app.
    rewrite (IH (S a) k). rewrite len_cons.
    destruct (Z.eqb_spec (Z.of_nat a) k) as [Hk|Hk].
    + replace ((Z.of_nat (S a) <=? k) && (k <? Z.of_nat (S a) + len t)) with false
        by (symmetry; apply andb_false_iff; left; apply Z.leb_gt; lia).
      replace ((Z.of_nat a <=? k) && (k <? Z.of_nat a + (len t + 1))) with true
        by (symmetry; apply andb_true_iff; pose proof (len_nonneg t);
            split; [apply Z.leb_le|apply Z.ltb_lt]; lia).
      replace (k - Z.of_nat a) with 0 by lia. cbn [Z.to_nat nth].
      destruct (Qeq_bool x 0) eqn:Hx.
      * apply Qeq_bool_eq in Hx. cbn [flat_map NP.qsum fold_right]. rewrite Hx. ring.
      * cbn [flat_map fst snd app]. rewrite Hk, Z.eqb_refl. cbn [NP.qsum fold_right app]. ring.
    + assert (Hnone : NP.qsum (flat_map (fun kv : Z * Q => if fst kv =? k then [snd kv] else [])
                                 (if Qeq_bool x 0 then [] else [(Z.of_nat a, x)])) = 0%Q).
      { destruct (Qeq_bool x 0); [reflexivity|]. cbn [flat_map fst snd app].
        destruct (Z.eqb_spec (Z.of_nat a) k); [contradiction|reflexivity]. }
      rewrite Hnone.
      destruct (Z.leb_spec (Z.of_nat (S a)) k) as [H1|H1];
        destruct (Z.ltb_spec k (Z.of_nat (S a) + len t)) as [H2|H2];
        destruct (Z.leb_spec (Z.of_nat a) k) as [H3|H3];
        destruct (Z.ltb_spec k (Z.of_nat a + (len t + 1))) as [H4|H4];
        cbn [andb]; try lia; try ring.
      replace (Z.to_nat (k - Z.of_nat a)) with (S (Z.to_nat (k - Z.of_nat (S a)))) by lia.
      cbn [nth]. ring.
Qed.

Lemma sparsify_get (v : list Q) (k : Z) :
  0 <= k < len v -> (row_get (sparsify v) k == nth (Z.to_nat k) v 0)%Q.
Proof.
  intros Hk. unfold row_get. rewrite sparsify_as_seq, (sparsify_get_from v 0 k).
  replace ((Z.of_nat 0 <=? k) && (k <? Z.of_nat 0 + len v)) with true
    by (symmetry; apply andb_true_iff; split; [apply Z.leb_le|apply Z.ltb_lt]; lia).
  replace (k - Z.of_nat 0) with k by lia. reflexivity.
Qed.

Lemma sparsify_wf (ncols : Z) (v : list Q) :
  len v = ncols -> csr_wf {| csr_ncols := ncols; csr_rows := [sparsify v] |}.
Proof.
  intros Hlen row Hrow k x Hin. cbn [csr_rows csr_ncols] in *.
  destruct Hrow as [<-|[]]. rewrite sparsify_as_seq in Hin.
  apply sparsify_keys in Hin. lia.
Qed.

Lemma fortran_pipeline_spec (H W : Z) (sf_F : csr_matrix Q) :
  csr_wf sf_F -> csr_ncols sf_F = H * W -> 0 < H -> 0 < W ->
  exists sf,
    (a <- reshape3 (COO sf_F) (csr_nrows sf_F, W, H) ;;
     b <- reshape2 (transpose_021 a) (csr_nrows sf_F, W * H) ;;
     Ok (tocsr b)) = Ok sf
    /\ csr_ncols sf = W * H
    /\ csr_nrows sf = csr_nrows sf_F
    /\ forall i r c, 0 <= i < csr_nrows sf_F -> 0 <= r < H -> 0 <= c < W ->
         (csr_get sf i (r * W + c) == csr_get sf_F i (c * H + r))%Q.
Proof.
  intros Hwf Hcols HH HW.
  destruct (fortran_pipeline H W sf_F Hwf Hcols HH HW) as (l & _ & Hpipe).
  eexists. split; [exact Hpipe|].
  eapply import_spatialFootprints_get; eauto.
Qed.

Lemma vstack2_wf (a b : csr_matrix Q) :
  csr_wf a -> csr_wf b -> csr_ncols a = csr_ncols b ->
  csr_wf {| csr_ncols := csr_ncols a; csr_rows := csr_rows a ++ csr_rows b |}.
Proof.
  intros Ha Hb Hcols row Hrow k v Hin. cbn [csr_rows csr_ncols] in *.
  apply in_app_iff in Hrow as [Hrow|Hrow].
  - eapply Ha; eauto.
  - rewrite Hcols. eapply Hb; eauto.
Qed.

(** C3.  [_import_spatialFootprints] turns a component matrix stored in
    Fortran order over an H x W FOV into C order: the value it stores for
    ROI [i] at column [r * W + c] is the value the input holds at column
    [c * H + r]; and a dense H x W mask flattened in Fortran order, stored
    sparsely and passed through it, comes back as the mask flattened in C
    order. *)
Theorem C3_fortran_to_c_order (H W : Z) (sf_included sf_discarded : csr_matrix Q)
    (include_discarded : bool) :
  0 < H -> 0 < W ->
  csr_wf sf_included -> csr_ncols sf_included = H * W ->
  (include_discarded = true -> csr_wf sf_discarded /\ csr_ncols sf_discarded = H * W) ->
  (exists sf,
     Data_caiman._import_spatialFootprints H W sf_included sf_discarded include_discarded
     = Ok sf
     /\ csr_ncols sf = W * H
     /\ csr_nrows sf
        = len (if include_discarded then csr_rows sf_included ++ csr_rows sf_discarded
               else csr_rows sf_included)
     /\ forall i r c,
          0 <= i < csr_nrows sf -> 0 <= r < H -> 0 <= c < W ->
          (csr_get sf i (r * W + c)
           == row_get (nth (Z.to_nat i)
                           (if include_discarded
                            then csr_rows sf_included ++ csr_rows sf_discarded
                            else csr_rows sf_included) [])
                      (c * H + r))%Q)
  /\ (forall M, mask_shape H W M ->
        exists sf,
          Data_caiman._import_spatialFootprints H W
            {| csr_ncols := H * W; csr_rows := [sparsify (flatten_F H W M)] |}
            sf_discarded false = Ok sf
          /\ Forall2 Qeq (row_todense (W * H) (nth 0 (csr_rows sf) [])) (flatten_C M)).
Proof.
  intros HH HW Hwi Hci Hdisc. split.
  - unfold Data_caiman._import_spatialFootprints.
    destruct include_discarded.
    + destruct (Hdisc eq_refl) as [Hwd Hcd].
      unfold vstack2. rewrite Hci, Hcd, Z.eqb_refl. cbn [bind].
      set (sf_F := {| csr_ncols := H * W; csr_rows := csr_rows sf_included ++ csr_rows sf_discarded |}).
      assert (Hwf : csr_wf sf_F).
      { subst sf_F. rewrite <- Hci. apply vstack2_wf; auto. congruence. }
      destruct (fortran_pipeline_spec H W sf_F Hwf eq_refl HH HW) as (sf & Hp & Hn & Hr & Hg).
      exists sf. split; [exact Hp|]. split; [exact Hn|]. split; [exact Hr|].
      intros i r c Hi. rewrite Hr in Hi. apply Hg. exact Hi.
    + cbn [bind].
      destruct (fortran_pipeline_spec H W sf_included Hwi Hci HH HW) as (sf & Hp & Hn & Hr & Hg).
      exists sf. split; [exact Hp|]. split; [exact Hn|]. split; [exact Hr|].
      intros i r c Hi. rewrite Hr in Hi. apply Hg. exact Hi.
  - intros M HM. unfold Data_caiman._import_spatialFootprints. cbn [bind].
    set (sf_F := {| csr_ncols := H * W; csr_rows := [sparsify (flatten_F H W M)] |}).
    assert (Hlen : len (flatten_F H W M) = H * W) by (apply flatten_F_length; lia).
    assert (Hwf : csr_wf sf_F) by (apply sparsify_wf; exact Hlen).
    destruct (fortran_pipeline_spec H W sf_F Hwf eq_refl HH HW) as (sf & Hp & Hn & Hr & Hg).
    exists sf. split; [exact Hp|].
    pose proof (flatten_C_length H W M HM ltac:(lia)) as HlenC.
    apply (Forall2_pointwise Qeq 0%Q 0%Q).
    + unfold row_todense. rewrite length_map, arange_nat_length. unfold len in HlenC. nia.
    + intros j Hj. unfold row_todense in *. rewrite length_map, arange_nat_length in Hj.
      rewrite (nth_indep _ 0%Q (row_get (nth 0 (csr_rows sf) []) 0))
        by (rewrite length_map, arange_nat_length; exact Hj).
      rewrite map_nth, arange_nth by exact Hj.
      set (r := Z.of_nat j / W). set (c := Z.of_nat j mod W).
      assert (Hjr : Z.of_nat j = r * W + c).
      { subst r c. rewrite (Z.div_mod (Z.of_nat j) W) at 1 by lia. ring. }
      assert (Hc : 0 <= c < W) by (subst c; apply Z.mod_pos_bound; lia).
      assert (Hr' : 0 <= r < H).
      { subst r. split; [apply Z.div_pos; lia|]. apply Z.div_lt_upper_bound; nia. }
      replace j with (Z.to_nat (r * W + c)) at 2 by lia.
      rewrite (flatten_C_nth H W M r c HM Hr' Hc).
      rewrite Hjr.
      change (row_get (nth 0 (csr_rows sf) []) (r * W + c)) with (csr_get sf 0 (r * W + c)).
      rewrite (Hg 0 r c) by (try assumption; unfold csr_nrows, sf_F, len; simpl; lia).
      unfold csr_get, sf_F. cbn [csr_rows Z.to_nat nth].
      rewrite sparsify_get by (rewrite Hlen; nia).
      rewrite flatten_F_nth by assumption. reflexivity.
Qed.

Lemma sf_2_by_3_F_wf : csr_wf sf_2_by_3_F.
Proof. unfold sf_2_by_3_F. concrete_wf. Qed.

Lemma C3_witness :
  exists sf,
    Data_caiman._import_spatialFootprints 2 3 sf_2_by_3_F sf_2_by_3_F true = Ok sf
    /\ csr_ncols sf = 3 * 2
    /\ csr_nrows sf = len (csr_rows sf_2_by_3_F ++ csr_rows sf_2_by_3_F)
    /\ forall i r c,
         0 <= i < csr_nrows sf -> 0 <= r < 2 -> 0 <= c < 3 ->
         (csr_get sf i (r * 3 + c)
          == row_get (nth (Z.to_nat i) (csr_rows sf_2_by_3_F ++ csr_rows sf_2_by_3_F) [])
                     (c * 2 + r))%Q.
Proof.
  refine (proj1 (C3_fortran_to_c_order 2 3 sf_2_by_3_F sf_2_by_3_F true _ _
                   sf_2_by_3_F_wf _ _)).
  - lia.
  - lia.
  - reflexivity.
  - intros _. split; [exact sf_2_by_3_F_wf|reflexivity].
Defined.

(** ** Splitting the coordinate arrays per ROI *)























(** A stored weight that is not positive is not counted by [(sf_rs > 0)] in
    line 333, so the split points fall short: the pixel (5, 6) of ROI 0 is
    moved by the centroid of ROI 1 and lost, where its own centroid (5, 5)
    would put it at (18, 19). *)
Lemma centering_misaligned_by_nonpositive_weight :
  exists a,
    sf_to_centeredROIs 40 40 sf_mixed_signs ([5; 30], [5; 30]) (36, 36) = Ok a
    /\ nd_get a 0 18 18 = Some 1%Q
    /\ nd_get a 0 18 19 = Some 0%Q.
Proof.
  destruct (sf_to_centeredROIs 40 40 sf_mixed_signs ([5; 30], [5; 30]) (36, 36))
    as [a|e] eqn:Ha; [|vm_compute in Ha; discriminate].
  exists a. vm_compute in Ha. injection Ha as <-. repeat split.
Qed.


Lemma footprint3_entry (H W : Z) (sf : csr_matrix Q) (i r c : Z) (v : Q) :
  0 <= i ->
  (In (i, r, c, v) (nz3 (footprint3 H W sf))
   <-> exists k, In (k, v) (nth (Z.to_nat i) (csr_rows sf) []) /\ r = k / W /\ c = k mod W).
Proof.
  intros Hi. unfold footprint3. cbn [nz3]. rewrite in_map_iff. split.
  - intros ([[i' k] v'] & Heq & Hin). cbn [fst snd] in Heq. injection Heq as -> <- <- ->.
    apply csr_entries_from_In in Hin as (_ & row & Hrow & Hkv).
    replace (i - 0) with i in Hrow by lia.
    exists k. rewrite (nth_error_nth _ _ [] Hrow). auto.
  - intros (k & Hkv & -> & ->). exists (i, k, v). split; [reflexivity|].
    apply csr_entries_from_In. split; [lia|].
    replace (i - 0) with i by lia.
    destruct (nth_error (csr_rows sf) (Z.to_nat i)) as [row|] eqn:Hrow.
    + exists row. rewrite (nth_error_nth _ _ [] Hrow) in Hkv. auto.
    + rewrite (nth_overflow _ [] (proj1 (nth_error_None _ _) Hrow)) in Hkv. destruct Hkv.
Qed.

Lemma nth_row_In {A : Type} (rows : list (list A)) (i : nat) (x : A) :
  In x (nth i rows []) -> In (nth i rows []) rows.
Proof.
  intros Hx. destruct (Nat.lt_ge_cases i (List.length rows)) as [Hlt|Hge].
  - apply nth_In. exact Hlt.
  - rewrite (nth_overflow _ [] Hge) in Hx. destruct Hx.
Qed.




(** ** Centroids by weighted mean *)

Lemma qsum_nonneg (l : list Q) : (forall x, In x l -> (0 <= x)%Q) -> (0 <= NP.qsum l)%Q.
Proof.
  induction l as [|x t IH]; intros Hl; simpl.
  - lra.
  - assert (0 <= x)%Q by (apply Hl; left; reflexivity).
    assert (0 <= NP.qsum t)%Q by (apply IH; intros y Hy; apply Hl; right; exact Hy).
    lra.
Qed.

Lemma qsum_ge_member (l : list Q) (x : Q) :
  (forall y, In y l -> (0 <= y)%Q) -> In x l -> (x <= NP.qsum l)%Q.
Proof.
  induction l as [|y t IH]; intros Hl Hin; [destruct Hin|]. simpl.
  assert (Hy : (0 <= y)%Q) by (apply Hl; left; reflexivity).
  assert (Ht : (0 <= NP.qsum t)%Q) by (apply qsum_nonneg; intros z Hz; apply Hl; right; exact Hz).
  destruct Hin as [->|Hin].
  - lra.
  - assert (x <= NP.qsum t)%Q by (apply IH; [intros z Hz; apply Hl; right; exact Hz|exact Hin]).
    lra.
Qed.

Lemma weighted_sum_bounds (f : Z -> Q) (M : Z) (l : list Z) :
  (forall r, In r l -> 0 <= r <= M /\ (0 <= f r)%Q) ->
  (0 <= NP.qsum (map (fun r => f r * inject_Z r) l)
   /\ NP.qsum (map (fun r => f r * inject_Z r) l) <= inject_Z M * NP.qsum (map f l))%Q.
Proof.
  induction l as [|r t IH]; intros Hl; simpl.
  - split; lra.
  - destruct (Hl r (or_introl eq_refl)) as [Hr Hf].
    destruct (IH (fun x Hx => Hl x (or_intror Hx))) as [IH1 IH2].
    assert (Hr0 : (0 <= inject_Z r)%Q) by (unfold Qle, inject_Z; cbn [Qnum Qden]; lia).
    assert (HrM : (inject_Z r <= inject_Z M)%Q) by (rewrite <- Zle_Qle; lia).
    split; nra.
Qed.

Lemma round_bounds (q : Q) (M : Z) :
  (0 <= q)%Q -> (q <= inject_Z M)%Q -> 0 <= NP.round q <= M.
Proof.
  destruct q as [n d]. unfold Qle, inject_Z, NP.round. cbn [Qnum Qden].
  intros H0 HM. rewrite Z.mul_1_r in *. rewrite Z.mul_0_l in H0.
  pose proof (Z.div_mod n (Zpos d) ltac:(lia)) as Hdm.
  pose proof (Z.mod_pos_bound n (Zpos d) ltac:(lia)) as Hmod.
  assert (Hf0 : 0 <= n / Zpos d) by (apply Z.div_pos; lia).
  assert (HfM : n / Zpos d <= M).
  { apply Z.div_le_upper_bound; lia. }
  destruct (Z.eq_dec (n / Zpos d) M) as [E|E].
  - assert (Hr : n mod Zpos d = 0) by nia.
    rewrite Hr. cbn [Z.mul]. destruct (Z.ltb_spec 0 (Zpos d)); lia.
  - destruct (2 * (n mod Zpos d) <? Zpos d); [lia|].
    destruct (Zpos d <? 2 * (n mod Zpos d)); [lia|].
    destruct (Z.even (n / Zpos d)); lia.
Qed.

Lemma combine_map_self {A B : Type} (f : A -> B) (l : list A) :
  combine (map f l) l = map (fun x => (f x, x)) l.
Proof. induction l as [|x t IH]; simpl; [reflexivity|]. rewrite IH. reflexivity. Qed.

Lemma sum_axis2_marginal (x : COO3 Q) :
  sum_axis2 x
  = map (fun i => map (marginal (nz3 x) (fun e => snd (fst (fst e))) i)
                      (NP.arange (snd (fst (shape3 x)))))
        (NP.arange (fst (fst (shape3 x)))).
Proof.
  unfold sum_axis2, marginal. destruct (shape3 x) as [[n h] w]. cbn [fst snd].
  apply map_ext. intros i. apply map_ext. intros r. f_equal.
  apply flat_map_ext. intros [[[a b] c] v]. reflexivity.
Qed.

Lemma sum_axis1_marginal (x : COO3 Q) :
  sum_axis1 x
  = map (fun i => map (marginal (nz3 x) (fun e => snd (fst e)) i)
                      (NP.arange (snd (shape3 x))))
        (NP.arange (fst (fst (shape3 x)))).
Proof.
  unfold sum_axis1, marginal. destruct (shape3 x) as [[n h] w]. cbn [fst snd].
  apply map_ext. intros i. apply map_ext. intros r. f_equal.
  apply flat_map_ext. intros [[[a b] c] v]. reflexivity.
Qed.









(** * Further properties *)

(** ** Comprehensions *)

Lemma for_each_Forall2 {A B : Type} (f : A -> result B) (l : list A) (ys : list B) :
  for_each f l = Ok ys -> Forall2 (fun x y => f x = Ok y) l ys.
Proof.
  revert ys. induction l as [|x t IH]; intros ys H; simpl in H.
  - injection H as <-. constructor.
  - destruct (f x) as [y|e] eqn:Hy; simpl in H; [|discriminate].
    destruct (for_each f t) as [ys'|e] eqn:Ht; simpl in H; [|discriminate].
    injection H as <-. constructor; [exact Hy|apply IH; reflexivity].
Qed.

Lemma for_each_raises {A B : Type} (f : A -> result B) (l : list A) (e : exn) :
  for_each f l = Raise e -> exists x, In x l /\ f x = Raise e.
Proof.
  induction l as [|x t IH]; intros H; simpl in H; [discriminate|].
  destruct (f x) as [y|e1] eqn:Hy; simpl in H.
  - destruct (for_each f t) as [ys|e2] eqn:Ht; simpl in H; [discriminate|].
    injection H as ->. destruct (IH eq_refl) as (x' & Hin & Hx').
    exists x'. split; [right; exact Hin|exact Hx'].
  - injection H as ->. exists x. split; [left; reflexivity|exact Hy].
Qed.

Lemma Forall2_nth_error {A B : Type} (R : A -> B -> Prop) (l : list A) (l' : list B) :
  Forall2 R l l' ->
  forall j x, nth_error l j = Some x -> exists y, nth_error l' j = Some y /\ R x y.
Proof.
  induction 1 as [|x y t t' Hxy _ IH]; intros j a Hj.
  - destruct j; discriminate.
  - destruct j as [|j]; simpl in *.
    + injection Hj as <-. eauto.
    + apply IH. exact Hj.
Qed.

(** ** Floats *)

Lemma feq_refl (a : NP.npfloat) : feq a a.
Proof. destruct a; simpl; [reflexivity|exact I]. Qed.

Lemma feq_sym (a b : NP.npfloat) : feq a b -> feq b a.
Proof. destruct a, b; simpl; auto. intros H. symmetry. exact H. Qed.

Lemma feq_trans (a b c : NP.npfloat) : feq a b -> feq b c -> feq a c.
Proof.
  destruct a, b, c; simpl; auto; try contradiction.
  intros H1 H2. rewrite H1. exact H2.
Qed.

Lemma fadd_feq (a a' b b' : NP.npfloat) : feq a a' -> feq b b' -> feq (fadd a b) (fadd a' b').
Proof.
  destruct a, a', b, b'; simpl; auto; try contradiction.
  intros H1 H2. rewrite H1, H2. reflexivity.
Qed.

Lemma fadd_comm (a b : NP.npfloat) : feq (fadd a b) (fadd b a).
Proof. destruct a, b; simpl; auto. ring. Qed.

Lemma fadd_assoc (a b c : NP.npfloat) : feq (fadd (fadd a b) c) (fadd a (fadd b c)).
Proof. destruct a, b, c; simpl; auto. ring. Qed.

Lemma fadd_zero_r (a : NP.npfloat) : feq (fadd a (Some 0%Q)) a.
Proof. destruct a; simpl; auto. ring. Qed.

Lemma fsum_app (l1 l2 : list NP.npfloat) : feq (fsum (l1 ++ l2)) (fadd (fsum l1) (fsum l2)).
Proof.
  induction l1 as [|x t IH]; simpl.
  - destruct (fsum l2); simpl; auto. ring.
  - eapply feq_trans; [apply fadd_feq; [apply feq_refl|exact IH]|].
    apply feq_sym. apply fadd_assoc.
Qed.

(** ** Canonical storage *)

Lemma picked_app (sel : Z -> bool) (l1 l2 : list (Z * NP.npfloat)) :
  picked sel (l1 ++ l2) = picked sel l1 ++ picked sel l2.
Proof. apply flat_map_app. Qed.

Lemma picked_cons (sel : Z -> bool) (k : Z) (v : NP.npfloat) (l : list (Z * NP.npfloat)) :
  picked sel ((k, v) :: l) = (if sel k then [v] else []) ++ picked sel l.
Proof. reflexivity. Qed.

Lemma fsum_cons (x : NP.npfloat) (l : list NP.npfloat) : fsum (x :: l) = fadd x (fsum l).
Proof. reflexivity. Qed.

Lemma insert_sum_picked (sel : Z -> bool) (k : Z) (v : NP.npfloat) (l : list (Z * NP.npfloat)) :
  feq (fsum (picked sel (insert_sum k v l)))
      (fadd (fsum (picked sel l)) (fsum (if sel k then [v] else []))).
Proof.
  induction l as [|[k' v'] t IH].
  - cbn [insert_sum]. rewrite picked_cons. cbn [picked flat_map]. rewrite app_nil_r.
    destruct (fsum (if sel k then [v] else [])); simpl; auto. ring.
  - cbn [insert_sum]. destruct (k <? k') eqn:Hlt.
    + rewrite (picked_cons sel k v).
      eapply feq_trans; [apply fsum_app|]. apply fadd_comm.
    + destruct (Z.eqb_spec k k') as [->|Hne].
      * rewrite !picked_cons.
        eapply feq_trans; [apply fsum_app|].
        eapply feq_trans;
          [|apply fadd_feq; [apply feq_sym; apply fsum_app|apply feq_refl]].
        generalize (fsum (picked sel t)) as p. intros p.
        destruct (sel k'); cbn [fsum fold_right]; destruct v', v, p; simpl; auto; ring.
      * rewrite !picked_cons.
        eapply feq_trans; [apply fsum_app|].
        eapply feq_trans; [apply fadd_feq; [apply feq_refl|exact IH]|].
        eapply feq_trans;
          [|apply fadd_feq; [apply feq_sym; apply fsum_app|apply feq_refl]].
        apply feq_sym. apply fadd_assoc.
Qed.

Lemma canonical_picked_from (sel : Z -> bool) (l acc : list (Z * NP.npfloat)) :
  feq (fsum (picked sel (fold_left (fun acc kv => insert_sum (fst kv) (snd kv) acc) l acc)))
      (fadd (fsum (picked sel acc)) (fsum (picked sel l))).
Proof.
  revert acc. induction l as [|[k v] t IH]; intros acc.
  - cbn [fold_left picked flat_map fsum fold_right]. apply feq_sym. apply fadd_zero_r.
  - cbn [fold_left fst snd]. eapply feq_trans; [apply IH|].
    rewrite (picked_cons sel k v t).
    eapply feq_trans; [apply fadd_feq; [apply insert_sum_picked|apply feq_refl]|].
    eapply feq_trans; [apply fadd_assoc|].
    apply fadd_feq; [apply feq_refl|]. apply feq_sym. apply fsum_app.
Qed.

Lemma canonical_picked (sel : Z -> bool) (l : list (Z * NP.npfloat)) :
  feq (fsum (picked sel (canonical l))) (fsum (picked sel l)).
Proof.
  unfold canonical. eapply feq_trans; [apply canonical_picked_from|].
  generalize (fsum (picked sel l)) as p. intros p.
  cbn [picked flat_map fsum fold_right]. destruct p; simpl; auto. ring.
Qed.

Lemma picked_all (l : list (Z * NP.npfloat)) : picked (fun _ => true) l = map snd l.
Proof. induction l as [|[k v] t IH]; [reflexivity|]. rewrite picked_cons, IH. reflexivity. Qed.

Lemma insert_sum_keys (k : Z) (v : NP.npfloat) (l : list (Z * NP.npfloat)) (k0 : Z) :
  In k0 (map fst (insert_sum k v l)) <-> k0 = k \/ In k0 (map fst l).
Proof.
  induction l as [|[k' v'] t IH]; cbn [insert_sum].
  - simpl. intuition.
  - destruct (k <? k'); [simpl; intuition|].
    destruct (Z.eqb_spec k k') as [->|Hne]; simpl in *; intuition.
Qed.

Lemma insert_sum_ascending (a k : Z) (v : NP.npfloat) (l : list (Z * NP.npfloat)) :
  a < k -> ascending_from a (map fst l) -> ascending_from a (map fst (insert_sum k v l)).
Proof.
  revert a. induction l as [|[k' v'] t IH]; intros a Hak Hl; cbn [insert_sum].
  - simpl. auto.
  - cbn [map fst ascending_from] in Hl. destruct Hl as [Hk' Ht].
    destruct (Z.ltb_spec k k') as [Hlt|Hge].
    + simpl. auto.
    + destruct (Z.eqb_spec k k') as [->|Hne].
      * simpl. auto.
      * cbn [map fst ascending_from]. split; [exact Hk'|]. apply IH; [lia|exact Ht].
Qed.

Lemma canonical_keys_from (l acc : list (Z * NP.npfloat)) (a : Z) :
  (forall k, In k (map fst l) -> a < k) ->
  ascending_from a (map fst acc) ->
  let r := fold_left (fun acc kv => insert_sum (fst kv) (snd kv) acc) l acc in
  ascending_from a (map fst r)
  /\ forall k, In k (map fst r) <-> In k (map fst acc) \/ In k (map fst l).
Proof.
  revert acc. induction l as [|[k v] t IH]; intros acc Hl Hacc; cbn [fold_left fst snd].
  - split; [exact Hacc|]. simpl. intuition.
  - destruct (IH (insert_sum k v acc)) as [H1 H2].
    + intros k0 Hk0. apply Hl. right. exact Hk0.
    + apply insert_sum_ascending; [apply Hl; left; reflexivity|exact Hacc].
    + split; [exact H1|]. intros k0. rewrite H2, insert_sum_keys. simpl. intuition.
Qed.

Lemma canonical_keys (l : list (Z * NP.npfloat)) (a : Z) :
  (forall k, In k (map fst l) -> a < k) ->
  ascending_from a (map fst (canonical l))
  /\ forall k, In k (map fst (canonical l)) <-> In k (map fst l).
Proof.
  intros Hl. destruct (canonical_keys_from l [] a Hl I) as [H1 H2].
  split; [exact H1|]. intros k. rewrite (H2 k). simpl. intuition.
Qed.

Lemma insert_sum_values (P : NP.npfloat -> Prop) (k : Z) (v : NP.npfloat)
    (l : list (Z * NP.npfloat)) :
  (forall a b, P a -> P b -> P (fadd a b)) -> P v ->
  (forall x, In x (map snd l) -> P x) ->
  forall x, In x (map snd (insert_sum k v l)) -> P x.
Proof.
  intros Hadd Hv. induction l as [|[k' v'] t IH]; intros Hl x Hx; cbn [insert_sum] in Hx.
  - destruct Hx as [<-|[]]. exact Hv.
  - destruct (k <? k').
    + destruct Hx as [<-|Hx]; [exact Hv|]. apply Hl. exact Hx.
    + destruct (k =? k').
      * destruct Hx as [<-|Hx]; [|apply Hl; right; exact Hx].
        apply Hadd; [apply Hl; left; reflexivity|exact Hv].
      * destruct Hx as [<-|Hx]; [apply Hl; left; reflexivity|].
        apply IH; [intros y Hy; apply Hl; right; exact Hy|exact Hx].
Qed.

Lemma canonical_values (P : NP.npfloat -> Prop) (l : list (Z * NP.npfloat)) :
  (forall a b, P a -> P b -> P (fadd a b)) ->
  (forall x, In x (map snd l) -> P x) ->
  forall x, In x (map snd (canonical l)) -> P x.
Proof.
  intros Hadd. unfold canonical.
  assert (G : forall acc, (forall x, In x (map snd acc) -> P x) ->
                (forall x, In x (map snd l) -> P x) ->
                forall x, In x (map snd (fold_left (fun acc kv => insert_sum (fst kv) (snd kv) acc)
                                                   l acc)) -> P x).
  { induction l as [|[k v] t IH]; intros acc Hacc Hl; cbn [fold_left fst snd].
    - exact Hacc.
    - apply IH; [|intros y Hy; apply Hl; right; exact Hy].
      apply insert_sum_values; [exact Hadd|apply Hl; left; reflexivity|exact Hacc]. }
  apply G. intros x [].
Qed.

Lemma canonical_keys_iff (l : list (Z * NP.npfloat)) (k : Z) :
  In k (map fst (canonical l)) <-> In k (map fst l).
Proof.
  unfold canonical.
  assert (G : forall acc,
            In k (map fst (fold_left (fun acc kv => insert_sum (fst kv) (snd kv) acc) l acc))
            <-> In k (map fst acc) \/ In k (map fst l)).
  { induction l as [|[k' v] t IH]; intros acc; cbn [fold_left fst snd].
    - simpl. intuition.
    - rewrite IH, insert_sum_keys. simpl. intuition. }
  rewrite G. simpl. intuition.
Qed.

(** ** The footprints of a [stat.npy] file *)

Lemma uint64_range (z : Z) : 0 <= NP.uint64 z < 2 ^ 64.
Proof. unfold NP.uint64. apply Z.mod_pos_bound. lia. Qed.

Lemma add_uint64_nonneg (a b : Z) : 0 <= NP.add_uint64 a b.
Proof. unfold NP.add_uint64. apply uint64_range. Qed.

(** The entries [csr_array_flat] canonicalises: pixel (y, x) at column
    [y * w + x]. *)
Lemma csr_array_flat_ok (lam : list NP.npfloat) (ypix xpix : list Z) (h w : Z)
    (row : list (Z * NP.npfloat)) :
  csr_array_flat lam ypix xpix (h, w) = Ok row ->
  len ypix = len lam /\ len xpix = len lam
  /\ (forall y, In y ypix -> y < h) /\ (forall x, In x xpix -> x < w)
  /\ row = canonical (map (fun e : Z * Z * NP.npfloat => (fst (fst e) * w + snd (fst e), snd e))
                          (combine (combine ypix xpix) lam)).
Proof.
  unfold csr_array_flat. intros H.
  destruct ((len ypix =? len lam) && (len xpix =? len lam)) eqn:Hlen; cbn [negb] in H;
    [|discriminate].
  destruct (forallb (fun y => y <? h) ypix && forallb (fun x => x <? w) xpix) eqn:Hin;
    cbn [negb] in H; [|discriminate].
  apply andb_true_iff in Hlen as [Hy Hx]. apply Z.eqb_eq in Hy, Hx.
  apply andb_true_iff in Hin as [Hiy Hix].
  rewrite forallb_forall in Hiy, Hix.
  injection H as <-. repeat split; try assumption.
  - intros y Hy'. apply Z.ltb_lt. apply Hiy. exact Hy'.
  - intros x Hx'. apply Z.ltb_lt. apply Hix. exact Hx'.
  - f_equal. apply map_ext. intros [[y x] v]. reflexivity.
Qed.

Lemma csr_array_flat_fits (lam : list NP.npfloat) (ypix xpix : list Z) (h w : Z) :
  len ypix = len lam -> len xpix = len lam ->
  (forall y, In y ypix -> y < h) -> (forall x, In x xpix -> x < w) ->
  csr_array_flat lam ypix xpix (h, w)
  = Ok (canonical (map (fun e : Z * Z * NP.npfloat => (fst (fst e) * w + snd (fst e), snd e))
                       (combine (combine ypix xpix) lam))).
Proof.
  intros Hy Hx Hiy Hix. unfold csr_array_flat.
  rewrite Hy, Hx, !Z.eqb_refl. cbn [andb negb].
  replace (forallb (fun y => y <? h) ypix) with true
    by (symmetry; apply forallb_forall; intros y Hy'; apply Z.ltb_lt; auto).
  replace (forallb (fun x => x <? w) xpix) with true
    by (symmetry; apply forallb_forall; intros x Hx'; apply Z.ltb_lt; auto).
  cbn [andb negb]. f_equal. f_equal. apply map_ext. intros [[y x] v]. reflexivity.
Qed.

Lemma pixel_columns_in_range (ypix xpix : list Z) (V : Type) (vals : list V) (h w k : Z) :
  (forall y, In y ypix -> 0 <= y < h) -> (forall x, In x xpix -> 0 <= x < w) ->
  In k (map fst (map (fun e : Z * Z * V => (fst (fst e) * w + snd (fst e), snd e))
                     (combine (combine ypix xpix) vals))) ->
  0 <= k < h * w.
Proof.
  intros Hy Hx Hk. rewrite map_map in Hk. cbn [fst] in Hk.
  apply in_map_iff in Hk as ([[y x] v] & <- & Hin). cbn [fst snd].
  apply in_combine_l in Hin.
  pose proof (Hy y (in_combine_l _ _ _ _ Hin)).
  pose proof (Hx x (in_combine_r _ _ _ _ Hin)). nia.
Qed.

(** What [_helper_populate_sf] returns, row by row. *)
Lemma populate_sf_rows (n_roi : Z) (hw : Z * Z) (stat : list roi) (dt : dtype) (isInt : bool)
    (shifts : Z * Z) (sf : csr_matrix NP.npfloat) :
  _helper_populate_sf n_roi hw stat dt isInt shifts = Ok sf ->
  stat <> []
  /\ csr_ncols sf = fst hw * snd hw
  /\ Forall2 (fun r row => populate_roi hw dt isInt shifts r = Ok row) stat (csr_rows sf).
Proof.
  unfold _helper_populate_sf. intros H.
  destruct (for_each (populate_roi hw dt isInt shifts) stat) as [rows|e] eqn:Hrows;
    cbn [bind] in H; [|discriminate].
  apply for_each_Forall2 in Hrows.
  destruct rows as [|row rows]; [discriminate|]. injection H as <-. cbn [csr_ncols csr_rows].
  repeat split; [|exact Hrows]. intros ->. inversion Hrows.
Qed.

Lemma Forall2_length_len {A B : Type} (R : A -> B -> Prop) (l : list A) (l' : list B) :
  Forall2 R l l' -> len l' = len l.
Proof. intros H. unfold len. rewrite (Forall2_length H). reflexivity. Qed.

Lemma Forall2_In_r {A B : Type} (R : A -> B -> Prop) (l : list A) (l' : list B) (y : B) :
  Forall2 R l l' -> In y l' -> exists x, In x l /\ R x y.
Proof.
  induction 1 as [|a b t t' Hab _ IH]; intros Hin; [destruct Hin|].
  destruct Hin as [<-|Hin].
  - exists a. split; [left; reflexivity|exact Hab].
  - destruct (IH Hin) as (x & Hx & Hxy). exists x. split; [right; exact Hx|exact Hxy].
Qed.

Lemma populate_roi_row (h w : Z) (dt : dtype) (isInt : bool) (shifts : Z * Z) (r : roi)
    (row : list (Z * NP.npfloat)) :
  populate_roi (h, w) dt isInt shifts r = Ok row ->
  ascending_from (-1) (map fst row) /\ forall k, In k (map fst row) -> 0 <= k < h * w.
Proof.
  unfold populate_roi. intros H.
  destruct (normalised_lam dt isInt (lam r)) as [lam'|e]; cbn [bind] in H; [|discriminate].
  apply csr_array_flat_ok in H as (_ & _ & Hy & Hx & ->).
  set (entries := map _ (combine _ lam')).
  assert (Hrange : forall k, In k (map fst entries) -> 0 <= k < h * w).
  { intros k Hk. subst entries. eapply pixel_columns_in_range; [| |exact Hk].
    - intros y Hy'. split; [|apply Hy; exact Hy'].
      apply in_map_iff in Hy' as (y0 & <- & _). apply add_uint64_nonneg.
    - intros x Hx'. split; [|apply Hx; exact Hx'].
      apply in_map_iff in Hx' as (x0 & <- & _). apply add_uint64_nonneg. }
  destruct (canonical_keys entries (-1)) as [Hasc Hkeys].
  { intros k Hk. specialize (Hrange k Hk). lia. }
  split; [exact Hasc|]. intros k Hk. apply Hrange. apply Hkeys. exact Hk.
Qed.

(** X1.  Whenever [_helper_populate_sf] returns, the matrix has one row per
    ROI record of the stat file (at least one) and
    frame_height * frame_width columns, and it is in canonical CSR format:
    in every row the column indices are strictly ascending and inside the
    matrix.  The argument [n_roi] is not read: any other value gives the same
    matrix. *)
Theorem populate_sf_canonical_format (n_roi : Z) (hw : Z * Z) (stat : list roi) (dt : dtype)
    (isInt : bool) (shifts : Z * Z) (sf : csr_matrix NP.npfloat) :
  _helper_populate_sf n_roi hw stat dt isInt shifts = Ok sf ->
  csr_nrows sf = len stat
  /\ 1 <= csr_nrows sf
  /\ csr_ncols sf = fst hw * snd hw
  /\ canonical_format sf
  /\ csr_wf sf
  /\ forall n_roi', _helper_populate_sf n_roi' hw stat dt isInt shifts = Ok sf.
Proof.
  intros H. pose proof (populate_sf_rows _ _ _ _ _ _ _ H) as (Hne & Hcols & Hrows).
  assert (Hlen : csr_nrows sf = len stat) by (apply (Forall2_length_len _ _ _ Hrows)).
  assert (Hcan : forall row, In row (csr_rows sf) ->
            ascending_from (-1) (map fst row)
            /\ forall k, In k (map fst row) -> 0 <= k < csr_ncols sf).
  { intros row Hrow. destruct (Forall2_In_r _ _ _ _ Hrows Hrow) as (r & _ & Hr).
    rewrite Hcols. destruct hw as [h w]. exact (populate_roi_row _ _ _ _ _ _ _ Hr). }
  split; [exact Hlen|]. split.
  { rewrite Hlen. destruct stat; [congruence|]. rewrite len_cons. pose proof (len_nonneg stat). lia. }
  split; [exact Hcols|]. split; [|split].
  - intros row Hrow. destruct (Hcan row Hrow) as [Ha Hk]. split; [exact Ha|].
    intros k Hin. apply Hk. exact Hin.
  - intros row Hrow k v Hin. destruct (Hcan row Hrow) as [_ Hk]. apply Hk.
    apply in_map_iff. exists (k, v). auto.
  - intros n_roi'. exact H.
Qed.

Lemma populate_roi_float (h w : Z) (dt : dtype) (shifts : Z * Z) (r : roi)
    (row : list (Z * NP.npfloat)) :
  populate_roi (h, w) dt false shifts r = Ok row ->
  roi_fits h w shifts r = true
  /\ row = canonical
             (map (fun e : Z * Z * NP.npfloat => (fst (fst e) * w + snd (fst e), snd e))
                  (combine (combine (map (fun y => NP.add_uint64 (NP.uint64 y) (fst shifts)) (ypix r))
                                    (map (fun x => NP.add_uint64 (NP.uint64 x) (snd shifts)) (xpix r)))
                           (map (fun l => NP.fdiv l (NP.qsum (lam r))) (lam r)))).
Proof.
  unfold populate_roi, normalised_lam. cbn [bind]. intros H.
  apply csr_array_flat_ok in H as (Hy & Hx & Hiy & Hix & ->). split; [|reflexivity].
  unfold len in Hy, Hx. rewrite !length_map in Hy, Hx.
  unfold roi_fits, len. rewrite Hy, Hx, !Z.eqb_refl. cbn [andb].
  apply andb_true_iff. split; apply forallb_forall; intros p Hp; apply Z.ltb_lt.
  - apply Hiy. apply in_map_iff. exists p. auto.
  - apply Hix. apply in_map_iff. exists p. auto.
Qed.

Lemma populate_roi_fits (h w : Z) (dt : dtype) (shifts : Z * Z) (r : roi) :
  roi_fits h w shifts r = true ->
  populate_roi (h, w) dt false shifts r
  = Ok (canonical
          (map (fun e : Z * Z * NP.npfloat => (fst (fst e) * w + snd (fst e), snd e))
               (combine (combine (map (fun y => NP.add_uint64 (NP.uint64 y) (fst shifts)) (ypix r))
                                 (map (fun x => NP.add_uint64 (NP.uint64 x) (snd shifts)) (xpix r)))
                        (map (fun l => NP.fdiv l (NP.qsum (lam r))) (lam r))))).
Proof.
  unfold roi_fits. intros H.
  apply andb_true_iff in H as [H Hix]. apply andb_true_iff in H as [H Hiy].
  apply andb_true_iff in H as [Hy Hx]. apply Z.eqb_eq in Hy, Hx.
  rewrite forallb_forall in Hiy, Hix.
  unfold populate_roi, normalised_lam. cbn [bind].
  apply csr_array_flat_fits.
  - unfold len in *. rewrite !length_map. exact Hy.
  - unfold len in *. rewrite !length_map. exact Hx.
  - intros y Hy'. apply in_map_iff in Hy' as (y0 & <- & Hy0). apply Z.ltb_lt. apply Hiy. exact Hy0.
  - intros x Hx'. apply in_map_iff in Hx' as (x0 & <- & Hx0). apply Z.ltb_lt. apply Hix. exact Hx0.
Qed.

Lemma populate_roi_raises (hw : Z * Z) (dt : dtype) (isInt : bool) (shifts : Z * Z) (r : roi)
    (e : exn) :
  populate_roi hw dt isInt shifts r = Raise e -> e = ValueError.
Proof.
  unfold populate_roi, normalised_lam, csr_array_flat. destruct hw as [h w].
  destruct isInt; [destruct dt|]; cbn [bind]; intros H;
    repeat match type of H with
           | (if ?c then _ else _) = _ => destruct c
           end; congruence.
Qed.

(** X2.  With a float dtype [_helper_populate_sf] succeeds exactly when the
    stat file holds at least one ROI record and every record has [ypix],
    [xpix] and [lam] of one length and, shift added, every pixel inside the
    frame; the weights play no part in it.  Whatever the dtype, the only
    exception it raises is ValueError. *)
Theorem populate_sf_succeeds_iff (n_roi h w : Z) (stat : list roi) (dt : dtype) (shifts : Z * Z) :
  ((exists sf, _helper_populate_sf n_roi (h, w) stat dt false shifts = Ok sf)
   <-> stat <> [] /\ forall r, In r stat -> roi_fits h w shifts r = true)
  /\ (forall isInt e, _helper_populate_sf n_roi (h, w) stat dt isInt shifts = Raise e ->
        e = ValueError).
Proof.
  split; [split|].
  - intros (sf & H). apply populate_sf_rows in H as (Hne & _ & Hrows).
    split; [exact Hne|]. intros r Hr.
    apply In_nth_error in Hr as (j & Hj).
    destruct (Forall2_nth_error _ _ _ Hrows j r Hj) as (row & _ & Hrow).
    apply populate_roi_float in Hrow. apply Hrow.
  - intros (Hne & Hfits). unfold _helper_populate_sf.
    erewrite for_each_total; [|intros r Hr; apply populate_roi_fits; apply Hfits; exact Hr].
    cbn [bind]. destruct stat as [|r t]; [congruence|]. cbn [map]. eexists. reflexivity.
  - intros isInt e. unfold _helper_populate_sf.
    destruct (for_each (populate_roi (h, w) dt isInt shifts) stat) as [rows|e'] eqn:Hrows;
      cbn [bind].
    + destruct rows; congruence.
    + intros H. injection H as <-. apply for_each_raises in Hrows as (r & _ & Hr).
      exact (populate_roi_raises _ _ _ _ _ _ Hr).
Qed.

Lemma qsum_scaled (t : Q) (l : list Q) :
  ~ (t == 0)%Q -> (NP.qsum (map (fun x => x / t) l) == NP.qsum l / t)%Q.
Proof.
  intros Ht. induction l as [|x rest IH]; simpl.
  - field. exact Ht.
  - rewrite IH. field. exact Ht.
Qed.

Lemma fdiv_nonzero (a b : Q) : ~ (b == 0)%Q -> NP.fdiv a b = Some (a / b)%Q.
Proof.
  intros Hb. unfold NP.fdiv. destruct (Qeq_bool b 0) eqn:E; [|reflexivity].
  apply Qeq_bool_eq in E. contradiction.
Qed.

Lemma fdiv_zero (a b : Q) : (b == 0)%Q -> NP.fdiv a b = None.
Proof. intros Hb. unfold NP.fdiv. rewrite (Qeq_eq_bool _ _ Hb). reflexivity. Qed.

Lemma fsum_finite (l : list Q) : fsum (map Some l) = Some (NP.qsum l).
Proof. induction l as [|x t IH]; [reflexivity|]. cbn [map]. rewrite fsum_cons, IH. reflexivity. Qed.

Lemma map_snd_combine {A B : Type} (l : list A) (l' : list B) :
  List.length l = List.length l' -> map snd (combine l l') = l'.
Proof.
  revert l'. induction l as [|a t IH]; intros [|b t'] H; simpl in *; try discriminate.
  - reflexivity.
  - f_equal. apply IH. lia.
Qed.

Lemma roi_fits_lengths (h w : Z) (shifts : Z * Z) (r : roi) :
  roi_fits h w shifts r = true ->
  List.length (ypix r) = List.length (lam r) /\ List.length (xpix r) = List.length (lam r).
Proof.
  unfold roi_fits, len. intros H.
  apply andb_true_iff in H as [H _]. apply andb_true_iff in H as [H _].
  apply andb_true_iff in H as [Hy Hx]. apply Z.eqb_eq in Hy, Hx. lia.
Qed.

(** The values [csr_array_flat] is given, in the order of the ROI record. *)
Lemma entries_values (w : Z) (ys xs : list Z) (vals : list NP.npfloat) :
  List.length ys = List.length vals -> List.length xs = List.length vals ->
  map snd (map (fun e : Z * Z * NP.npfloat => (fst (fst e) * w + snd (fst e), snd e))
               (combine (combine ys xs) vals))
  = vals.
Proof.
  intros Hy Hx. rewrite map_map. cbn [snd].
  apply map_snd_combine. rewrite length_combine. lia.
Qed.

(** X3.  With a float dtype, the row that [_helper_populate_sf] builds for an
    ROI record whose weights do not add up to zero holds finite weights only,
    and they add up to 1 (in exact arithmetic), whether or not pixels are
    repeated. *)
Theorem populate_sf_rows_sum_to_one (n_roi : Z) (hw : Z * Z) (stat : list roi) (dt : dtype)
    (shifts : Z * Z) (sf : csr_matrix NP.npfloat) :
  _helper_populate_sf n_roi hw stat dt false shifts = Ok sf ->
  forall j r, nth_error stat j = Some r -> ~ (NP.qsum (lam r) == 0)%Q ->
    exists row, nth_error (csr_rows sf) j = Some row
                /\ (forall k v, In (k, v) row -> v <> None)
                /\ feq (fsum (map snd row)) (Some 1%Q).
Proof.
  intros H j r Hj Hsum. destruct hw as [h w].
  apply populate_sf_rows in H as (_ & _ & Hrows).
  destruct (Forall2_nth_error _ _ _ Hrows j r Hj) as (row & Hrow & Hr).
  exists row. split; [exact Hrow|].
  apply populate_roi_float in Hr as (Hfits & ->).
  apply roi_fits_lengths in Hfits as [Hy Hx].
  set (ys := map _ (ypix r)). set (xs := map _ (xpix r)).
  set (vals := map (fun l => NP.fdiv l (NP.qsum (lam r))) (lam r)).
  set (entries := map _ (combine (combine ys xs) vals)).
  assert (Hvals : map snd entries = vals).
  { apply entries_values; subst ys xs vals; rewrite !length_map; assumption. }
  assert (Hfin : vals = map Some (map (fun l => (l / NP.qsum (lam r))%Q) (lam r))).
  { subst vals. rewrite map_map. apply map_ext. intros l. apply fdiv_nonzero. exact Hsum. }
  split.
  - intros k v Hin. apply (canonical_values (fun v => v <> None) entries).
    + intros [a|] [b|]; simpl; congruence.
    + rewrite Hvals, Hfin. intros x Hin'. apply in_map_iff in Hin' as (q & <- & _). discriminate.
    + apply in_map_iff. exists (k, v). auto.
  - rewrite <- picked_all.
    eapply feq_trans; [apply canonical_picked|].
    rewrite picked_all, Hvals, Hfin, fsum_finite. cbn [feq].
    rewrite qsum_scaled by exact Hsum. field. exact Hsum.
Qed.

(** X4.  Weights that add up to zero are divided by zero without an error:
    for a non-empty stat file whose records fit the frame the call succeeds,
    and the row of an ROI record whose weights add up to zero holds
    non-finite weights (NaN or an infinity) only, one stored entry at least
    when the record has a pixel. *)
Theorem populate_sf_zero_sum_gives_nan (n_roi h w : Z) (stat : list roi) (dt : dtype)
    (shifts : Z * Z) :
  stat <> [] -> (forall r, In r stat -> roi_fits h w shifts r = true) ->
  exists sf,
    _helper_populate_sf n_roi (h, w) stat dt false shifts = Ok sf
    /\ forall j r, nth_error stat j = Some r -> (NP.qsum (lam r) == 0)%Q ->
         exists row, nth_error (csr_rows sf) j = Some row
                     /\ (forall k v, In (k, v) row -> v = None)
                     /\ (lam r <> [] -> row <> []).
Proof.
  intros Hne Hfits.
  destruct (proj1 (populate_sf_succeeds_iff n_roi h w stat dt shifts)) as [_ Hok].
  destruct (Hok (conj Hne Hfits)) as (sf & Hsf). exists sf. split; [exact Hsf|].
  intros j r Hj Hsum.
  apply populate_sf_rows in Hsf as (_ & _ & Hrows).
  destruct (Forall2_nth_error _ _ _ Hrows j r Hj) as (row & Hrow & Hr).
  exists row. split; [exact Hrow|].
  apply populate_roi_float in Hr as (Hfit & ->).
  apply roi_fits_lengths in Hfit as [Hy Hx].
  set (ys := map _ (ypix r)). set (xs := map _ (xpix r)).
  set (vals := map (fun l => NP.fdiv l (NP.qsum (lam r))) (lam r)).
  set (entries := map _ (combine (combine ys xs) vals)).
  assert (Hvals : map snd entries = vals).
  { apply entries_values; subst ys xs vals; rewrite !length_map; assumption. }
  split.
  - intros k v Hin. apply (canonical_values (fun v => v = None) entries).
    + intros a b -> ->. reflexivity.
    + rewrite Hvals. intros x Hin'. apply in_map_iff in Hin' as (q & <- & _).
      apply fdiv_zero. exact Hsum.
    + apply in_map_iff. exists (k, v). auto.
  - intros Hlam Hnil.
    assert (Hent : entries <> []).
    { intros He. rewrite He in Hvals. subst vals. destruct (lam r); [congruence|discriminate]. }
    destruct entries as [|[k v] t]; [congruence|].
    assert (Hk : In k (map fst (canonical ((k, v) :: t)))).
    { apply canonical_keys_iff. left. reflexivity. }
    rewrite Hnil in Hk. destruct Hk.
Qed.

Lemma combine_map_r {A B C : Type} (g : B -> C) (l : list A) (l' : list B) :
  combine l (map g l') = map (fun e : A * B => (fst e, g (snd e))) (combine l l').
Proof.
  revert l'. induction l as [|a t IH]; intros [|b t']; simpl; try reflexivity.
  rewrite IH. reflexivity.
Qed.

Lemma map_fst_combine {A B : Type} (l : list A) (l' : list B) :
  List.length l = List.length l' -> map fst (combine l l') = l.
Proof.
  revert l'. induction l as [|a t IH]; intros [|b t'] H; simpl in *; try discriminate.
  - reflexivity.
  - f_equal. apply IH. lia.
Qed.

Lemma flat_map_unique {A B C : Type} (sel : A -> bool) (g : B -> C) (l : list (A * B))
    (a : A) (b : B) :
  NoDup (map fst l) -> In (a, b) l -> sel a = true ->
  (forall a', In a' (map fst l) -> sel a' = true -> a' = a) ->
  flat_map (fun p : A * B => if sel (fst p) then [g (snd p)] else []) l = [g b].
Proof.
  induction l as [|[a' b'] t IH]; intros Hnd Hin Ha Huniq; [destruct Hin|].
  cbn [map fst] in Hnd. inversion Hnd as [|? ? Hnotin Hnd']; subst.
  cbn [flat_map fst snd]. destruct Hin as [Heq|Hin].
  - injection Heq as -> ->. rewrite Ha. cbn [app]. f_equal.
    apply flat_map_all_nil. intros [a1 b1] H1. cbn [fst].
    destruct (sel a1) eqn:E; [|reflexivity]. exfalso. apply Hnotin.
    assert (a1 = a).
    { apply Huniq; [right; apply in_map_iff; exists (a1, b1); auto|exact E]. }
    subst a1. apply in_map_iff. exists (a, b1). auto.
  - destruct (sel a') eqn:E.
    + exfalso. apply Hnotin.
      assert (a' = a) by (apply Huniq; [left; reflexivity|exact E]). subst a'.
      apply in_map_iff. exists (a, b). auto.
    + cbn [app]. apply IH; try assumption.
      intros a1 H1 E1. apply Huniq; [right; exact H1|exact E1].
Qed.

Lemma unshifted_pixels (l : list Z) :
  (forall p, In p l -> 0 <= p < 2 ^ 64) ->
  map (fun p => NP.add_uint64 (NP.uint64 p) (fst (0, 0))) l = l
  /\ map (fun p => NP.add_uint64 (NP.uint64 p) (snd (0, 0))) l = l.
Proof.
  intros Hl. split; rewrite <- (map_id l) at 2; apply map_ext_in; intros p Hp;
    cbn [fst snd]; unfold NP.add_uint64; rewrite Z.add_0_r;
    rewrite !uint64_small; try reflexivity; try (apply Hl; exact Hp); apply uint64_range.
Qed.

(** X5.  Without shift, the row that [_helper_populate_sf] builds for an ROI
    record holds at column [c] the total of the normalised weights
    lam / sum(lam) of the pixels (y, x) of the record with y * width + x = c,
    repeated pixels added up.  Hence, when no pixel is repeated, the weight of
    pixel (y, x) is found at column y * width + x, divided by the sum of the
    record's weights. *)
Theorem populate_sf_lookup (n_roi h w : Z) (stat : list roi) (dt : dtype)
    (sf : csr_matrix NP.npfloat) :
  _helper_populate_sf n_roi (h, w) stat dt false (0, 0) = Ok sf ->
  forall j r, nth_error stat j = Some r ->
    (forall y, In y (ypix r) -> 0 <= y < 2 ^ 64) ->
    (forall x, In x (xpix r) -> 0 <= x < 2 ^ 64) ->
    exists row,
      nth_error (csr_rows sf) j = Some row
      /\ (forall c,
            feq (frow_get row c)
                (fsum (flat_map (fun p : Z * Z * Q =>
                                   if fst (fst p) * w + snd (fst p) =? c
                                   then [NP.fdiv (snd p) (NP.qsum (lam r))] else [])
                                (roi_pixels r))))
      /\ (NoDup (combine (ypix r) (xpix r)) ->
          forall y x l, In (y, x, l) (roi_pixels r) ->
            feq (frow_get row (y * w + x)) (NP.fdiv l (NP.qsum (lam r)))).
Proof.
  intros H j r Hj Hyr Hxr.
  apply populate_sf_rows in H as (_ & _ & Hrows).
  destruct (Forall2_nth_error _ _ _ Hrows j r Hj) as (row & Hrow & Hr).
  exists row. split; [exact Hrow|].
  apply populate_roi_float in Hr as (Hfit & ->).
  destruct (unshifted_pixels _ Hyr) as [Hys _]. destruct (unshifted_pixels _ Hxr) as [_ Hxs].
  rewrite Hys, Hxs.
  assert (Hgen : forall c,
            feq (frow_get
                   (canonical
                      (map (fun e : Z * Z * NP.npfloat => (fst (fst e) * w + snd (fst e), snd e))
                           (combine (combine (ypix r) (xpix r))
                                    (map (fun l => NP.fdiv l (NP.qsum (lam r))) (lam r))))) c)
                (fsum (flat_map (fun p : Z * Z * Q =>
                                   if fst (fst p) * w + snd (fst p) =? c
                                   then [NP.fdiv (snd p) (NP.qsum (lam r))] else [])
                                (roi_pixels r)))).
  { intros c. unfold frow_get. eapply feq_trans; [apply canonical_picked|].
    unfold picked, roi_pixels. rewrite combine_map_r, !flat_map_map. cbn [fst snd].
    apply feq_refl. }
  split; [exact Hgen|].
  intros Hnd y x l Hin. eapply feq_trans; [apply Hgen|].
  pose proof (roi_fits_lengths _ _ _ _ Hfit) as [Hly Hlx].
  assert (Hx_range : forall x', In x' (xpix r) -> 0 <= x' < w).
  { intros x' Hx'. split; [apply Hxr; exact Hx'|].
    unfold roi_fits in Hfit. apply andb_true_iff in Hfit as [_ Hfx].
    rewrite forallb_forall in Hfx. specialize (Hfx x' Hx'). apply Z.ltb_lt in Hfx.
    cbn [snd] in Hfx. unfold NP.add_uint64 in Hfx. rewrite Z.add_0_r in Hfx.
    rewrite !uint64_small in Hfx; [exact Hfx|apply Hxr; exact Hx'|].
    rewrite uint64_small by (apply Hxr; exact Hx'). apply Hxr; exact Hx'. }
  rewrite (flat_map_unique (fun q : Z * Z => fst q * w + snd q =? y * w + x)
             (fun l => NP.fdiv l (NP.qsum (lam r))) (roi_pixels r) (y, x) l).
  - cbn [fsum fold_right]. apply fadd_zero_r.
  - unfold roi_pixels. rewrite map_fst_combine; [exact Hnd|]. rewrite length_combine. lia.
  - exact Hin.
  - cbn [fst snd]. apply Z.eqb_refl.
  - intros [y' x'] Hin' Heq. cbn [fst snd] in Heq. apply Z.eqb_eq in Heq.
    unfold roi_pixels in Hin, Hin'. rewrite map_fst_combine in Hin' by (rewrite length_combine; lia).
    apply in_combine_l in Hin.
    pose proof (Hx_range x (in_combine_r _ _ _ _ Hin)).
    pose proof (Hx_range x' (in_combine_r _ _ _ _ Hin')).
    assert (y' = y) by nia. subst y'. f_equal. lia.
Qed.

Lemma populate_sf_canonical_format_witness :
  exists sf,
    _helper_populate_sf 2 (40, 50) stat_two_rois FloatType false (0, 0) = Ok sf
    /\ csr_nrows sf = len stat_two_rois
    /\ csr_ncols sf = 40 * 50
    /\ canonical_format sf
    /\ _helper_populate_sf 7 (40, 50) stat_two_rois FloatType false (0, 0) = Ok sf.
Proof.
  destruct (_helper_populate_sf 2 (40, 50) stat_two_rois FloatType false (0, 0)) as [sf|e] eqn:E;
    [|vm_compute in E; discriminate].
  exists sf. split; [reflexivity|].
  destruct (populate_sf_canonical_format 2 (40, 50) stat_two_rois FloatType false (0, 0) sf E)
    as (H1 & _ & H3 & H4 & _ & H6).
  repeat split; [exact H1|exact H3|apply H4; assumption|apply H4; assumption|apply H6].
Defined.

Lemma populate_sf_rows_sum_to_one_witness :
  exists sf row,
    _helper_populate_sf 2 (40, 50) stat_two_rois FloatType false (0, 0) = Ok sf
    /\ nth_error (csr_rows sf) 1 = Some row
    /\ feq (fsum (map snd row)) (Some 1%Q).
Proof.
  destruct (_helper_populate_sf 2 (40, 50) stat_two_rois FloatType false (0, 0)) as [sf|e] eqn:E;
    [|vm_compute in E; discriminate].
  destruct (populate_sf_rows_sum_to_one 2 (40, 50) stat_two_rois FloatType (0, 0) sf E
              1%nat {| ypix := [3; 3]; xpix := [4; 4]; lam := [3%Q; 1%Q] |} eq_refl)
    as (row & Hrow & _ & Hsum).
  - vm_compute. discriminate.
  - exists sf, row. repeat split; assumption.
Defined.

Lemma populate_sf_zero_sum_gives_nan_witness :
  exists sf row,
    _helper_populate_sf 1 (4, 4) stat_zero_sum FloatType false (0, 0) = Ok sf
    /\ nth_error (csr_rows sf) 0 = Some row
    /\ (forall k v, In (k, v) row -> v = None)
    /\ row <> [].
Proof.
  destruct (populate_sf_zero_sum_gives_nan 1 4 4 stat_zero_sum FloatType (0, 0))
    as (sf & Hsf & Hrows).
  - discriminate.
  - intros r [<-|[]]. reflexivity.
  - destruct (Hrows 0%nat {| ypix := [1; 2]; xpix := [1; 1]; lam := [1%Q; (-1)%Q] |} eq_refl)
      as (row & Hrow & Hnan & Hne).
    + reflexivity.
    + exists sf, row. repeat split; try assumption. apply Hne. discriminate.
Defined.

Lemma populate_sf_lookup_witness :
  exists sf row,
    _helper_populate_sf 2 (40, 50) stat_two_rois FloatType false (0, 0) = Ok sf
    /\ nth_error (csr_rows sf) 0 = Some row
    /\ feq (frow_get row (5 * 50 + 8)) (Some (2 # 4))
    /\ feq (frow_get row (6 * 50 + 7)) (NP.fdiv 1 (1 + 2 + 1)).
Proof.
  destruct (_helper_populate_sf 2 (40, 50) stat_two_rois FloatType false (0, 0)) as [sf|e] eqn:E;
    [|vm_compute in E; discriminate].
  destruct (populate_sf_lookup 2 40 50 stat_two_rois FloatType sf E
              0%nat {| ypix := [5; 5; 6]; xpix := [7; 8; 7]; lam := [1%Q; 2%Q; 1%Q] |} eq_refl)
    as (row & Hrow & Hcols & Hpix).
  - intros y Hy. simpl in Hy. destruct Hy as [<-|[<-|[<-|[]]]]; lia.
  - intros x Hx. simpl in Hx. destruct Hx as [<-|[<-|[<-|[]]]]; lia.
  - exists sf, row. split; [reflexivity|]. split; [exact Hrow|]. split.
    + eapply feq_trans; [apply Hcols|]. vm_compute. reflexivity.
    + eapply feq_trans; [apply (Hpix ltac:(repeat constructor; simpl; intuition congruence) 6 7 1%Q)|].
      * simpl. auto.
      * vm_compute. reflexivity.
Defined.

(** ** Centroids: bounding box and scale *)

Lemma round_between (q : Q) (lo hi : Z) :
  (inject_Z lo <= q)%Q -> (q <= inject_Z hi)%Q -> lo <= NP.round q <= hi.
Proof.
  destruct q as [n d]. unfold Qle, inject_Z, NP.round. cbn [Qnum Qden].
  intros Hlo Hhi. rewrite Z.mul_1_r in *.
  pose proof (Z.div_mod n (Zpos d) ltac:(lia)) as Hdm.
  pose proof (Z.mod_pos_bound n (Zpos d) ltac:(lia)) as Hmod.
  assert (Hf0 : lo <= n / Zpos d) by (apply Z.div_le_lower_bound; lia).
  assert (HfM : n / Zpos d <= hi) by (apply Z.div_le_upper_bound; lia).
  destruct (Z.eq_dec (n / Zpos d) hi) as [E|E].
  - assert (Hr : n mod Zpos d = 0) by nia.
    rewrite Hr. cbn [Z.mul]. destruct (Z.ltb_spec 0 (Zpos d)); lia.
  - destruct (2 * (n mod Zpos d) <? Zpos d); [lia|].
    destruct (Zpos d <? 2 * (n mod Zpos d)); [lia|].
    destruct (Z.even (n / Zpos d)); lia.
Qed.

Lemma weighted_sum_between (f : Z -> Q) (lo hi : Z) (l : list Z) :
  (forall r, In r l -> (0 <= f r)%Q /\ (~ (f r == 0)%Q -> lo <= r <= hi)) ->
  (inject_Z lo * NP.qsum (map f l) <= NP.qsum (map (fun r => f r * inject_Z r) l)
   /\ NP.qsum (map (fun r => f r * inject_Z r) l) <= inject_Z hi * NP.qsum (map f l))%Q.
Proof.
  induction l as [|r t IH]; intros Hl; simpl.
  - split; lra.
  - destruct (Hl r (or_introl eq_refl)) as [Hf Hbox].
    destruct (IH (fun x Hx => Hl x (or_intror Hx))) as [IH1 IH2].
    destruct (Qeq_dec (f r) 0) as [Hz|Hnz].
    + rewrite Hz. split; lra.
    + destruct (Hbox Hnz) as [Hlo Hhi].
      assert (Hr0 : (inject_Z lo <= inject_Z r)%Q) by (rewrite <- Zle_Qle; lia).
      assert (HrM : (inject_Z r <= inject_Z hi)%Q) by (rewrite <- Zle_Qle; lia).
      split; nra.
Qed.

(** One component of the weighted-mean centroid of one ROI whose weight lies
    between the positions [lo] and [hi]. *)
Lemma weighted_mean_component_box (f : Z -> Q) (M lo hi : Z) :
  0 < M <= 2 ^ 63 ->
  (forall r, (0 <= f r)%Q) ->
  (forall r, 0 <= r < M -> ~ (f r == 0)%Q -> lo <= r <= hi) ->
  (exists r0, 0 <= r0 < M /\ (0 < f r0)%Q) ->
  exists y,
    NP.round_astype_int64
      (NP.fdiv (NP.qsum (map (fun wi : Q * Z => Qmult (fst wi) (inject_Z (snd wi)))
                             (combine (map f (NP.arange M)) (NP.arange M))))
               (NP.qsum (map f (NP.arange M))))
    = Some y
    /\ 0 <= y < M /\ lo <= y <= hi.
Proof.
  intros HM Hnn Hbox (r0 & Hr0 & Hpos).
  rewrite combine_map_self, map_map. cbn [fst snd].
  destruct (weighted_sum_bounds f (M - 1) (NP.arange M)) as [HN0 HNM].
  { intros r Hr. apply arange_In in Hr. split; [lia|apply Hnn]. }
  destruct (weighted_sum_between f lo hi (NP.arange M)) as [HNlo HNhi].
  { intros r Hr. apply arange_In in Hr. split; [apply Hnn|apply Hbox; exact Hr]. }
  set (N := NP.qsum (map (fun r => (f r * inject_Z r)%Q) (NP.arange M))) in *.
  set (D := NP.qsum (map f (NP.arange M))) in *.
  assert (HD : (0 < D)%Q).
  { assert (f r0 <= D)%Q.
    { apply qsum_ge_member.
      - intros y Hy. apply in_map_iff in Hy as (r & <- & _). apply Hnn.
      - apply in_map. apply arange_In. exact Hr0. }
    lra. }
  unfold NP.fdiv. destruct (Qeq_bool D 0) eqn:E.
  { apply Qeq_bool_eq in E. lra. }
  assert (Hq0 : (0 <= N / D)%Q) by (apply Qle_shift_div_l; [exact HD|lra]).
  assert (HqM : (N / D <= inject_Z (M - 1))%Q) by (apply Qle_shift_div_r; [exact HD|lra]).
  assert (Hqlo : (inject_Z lo <= N / D)%Q) by (apply Qle_shift_div_l; [exact HD|lra]).
  assert (Hqhi : (N / D <= inject_Z hi)%Q) by (apply Qle_shift_div_r; [exact HD|lra]).
  pose proof (round_bounds (N / D) (M - 1) Hq0 HqM) as Hr.
  pose proof (round_between (N / D) lo hi Hqlo Hqhi) as Hb.
  unfold NP.round_astype_int64. cbn zeta.
  exists (NP.round (N / D)). split; [|lia].
  replace ((NP.int64_min <=? NP.round (N / D)) && (NP.round (N / D) <=? NP.int64_max)) with true;
    [reflexivity|].
  symmetry. apply andb_true_iff. unfold NP.int64_min, NP.int64_max.
  split; apply Z.leb_le; lia.
Qed.

Lemma marginal_nonneg_roi (nz : list (Z * Z * Z * Q)) (proj : Z * Z * Z * Q -> Z) (i t : Z) :
  (forall e, In e nz -> fst (fst (fst e)) = i -> (0 <= snd e)%Q) ->
  (0 <= marginal nz proj i t)%Q.
Proof.
  intros Hnn. unfold marginal. apply qsum_nonneg. intros v Hv.
  apply in_flat_map in Hv as (e & He & Hv).
  destruct (Z.eqb_spec (fst (fst (fst e))) i) as [Hi|Hi]; cbn [andb] in Hv; [|destruct Hv].
  destruct (proj e =? t); [|destruct Hv].
  destruct Hv as [<-|[]]. apply Hnn; assumption.
Qed.

Lemma marginal_ge_entry_roi (nz : list (Z * Z * Z * Q)) (proj : Z * Z * Z * Q -> Z)
    (e : Z * Z * Z * Q) :
  (forall e', In e' nz -> fst (fst (fst e')) = fst (fst (fst e)) -> (0 <= snd e')%Q) ->
  In e nz ->
  (snd e <= marginal nz proj (fst (fst (fst e))) (proj e))%Q.
Proof.
  intros Hnn He. unfold marginal. apply qsum_ge_member.
  - intros v Hv. apply in_flat_map in Hv as (e' & He' & Hv).
    destruct (Z.eqb_spec (fst (fst (fst e'))) (fst (fst (fst e)))) as [Hi|Hi];
      cbn [andb] in Hv; [|destruct Hv].
    destruct (proj e' =? proj e); [|destruct Hv].
    destruct Hv as [<-|[]]. apply Hnn; assumption.
  - apply in_flat_map. exists e. split; [exact He|].
    rewrite !Z.eqb_refl. left. reflexivity.
Qed.

Lemma qsum_all_zero (l : list Q) : (forall x, In x l -> (x == 0)%Q) -> (NP.qsum l == 0)%Q.
Proof.
  induction l as [|x t IH]; intros Hl; simpl; [reflexivity|].
  rewrite (Hl x (or_introl eq_refl)), IH by (intros y Hy; apply Hl; right; exact Hy). ring.
Qed.

Lemma marginal_zero (nz : list (Z * Z * Z * Q)) (proj : Z * Z * Z * Q -> Z) (i t : Z) :
  (forall e, In e nz -> fst (fst (fst e)) = i -> proj e = t -> (snd e == 0)%Q) ->
  (marginal nz proj i t == 0)%Q.
Proof.
  intros Hz. unfold marginal. apply qsum_all_zero. intros v Hv.
  apply in_flat_map in Hv as (e & He & Hv).
  destruct (Z.eqb_spec (fst (fst (fst e))) i) as [Hi|Hi]; cbn [andb] in Hv; [|destruct Hv].
  destruct (Z.eqb_spec (proj e) t) as [Ht|Ht]; [|destruct Hv].
  destruct Hv as [<-|[]]. apply Hz; assumption.
Qed.

(** The weighted-mean centroid of one ROI, as [get_centroids] computes it
    from the reshaped footprints, lies in every box around the ROI. *)
Lemma weighted_centroid_box (H W : Z) (sf : csr_matrix Q) (i y0 y1 x0 x1 : Z) :
  csr_wf sf -> csr_ncols sf = H * W -> 0 < H <= 2 ^ 63 -> 0 < W <= 2 ^ 63 ->
  0 <= i < csr_nrows sf ->
  (forall k v, In (k, v) (nth (Z.to_nat i) (csr_rows sf) []) -> (0 <= v)%Q) ->
  (exists k v, In (k, v) (nth (Z.to_nat i) (csr_rows sf) []) /\ ~ (v == 0)%Q) ->
  (forall k v, In (k, v) (nth (Z.to_nat i) (csr_rows sf) []) -> ~ (v == 0)%Q ->
     y0 <= k / W <= y1 /\ x0 <= k mod W <= x1) ->
  exists y x,
    nth_error (map NP.round_astype_int64
                   (weighted_mean (sum_axis2 (footprint3 H W sf)) H)) (Z.to_nat i)
    = Some (Some y)
    /\ nth_error (map NP.round_astype_int64
                      (weighted_mean (sum_axis1 (footprint3 H W sf)) W)) (Z.to_nat i)
       = Some (Some x)
    /\ y0 <= y <= y1 /\ x0 <= x <= x1
    /\ 0 <= y < H /\ 0 <= x < W.
Proof.
  intros Hwf Hcols HH HW Hi Hnn (k & v & Hkv & Hv) Hbox.
  set (nz := nz3 (footprint3 H W sf)).
  assert (Hent : forall e, In e nz -> fst (fst (fst e)) = i ->
            exists k', In (k', snd e) (nth (Z.to_nat i) (csr_rows sf) [])
                       /\ snd (fst (fst e)) = k' / W /\ snd (fst e) = k' mod W).
  { intros [[[a b] c] u] He Ha. cbn [fst snd] in *. subst a.
    apply footprint3_entry in He; [exact He|lia]. }
  assert (Hnn3 : forall e, In e nz -> fst (fst (fst e)) = i -> (0 <= snd e)%Q).
  { intros e He Ha. destruct (Hent e He Ha) as (k' & Hin & _). exact (Hnn _ _ Hin). }
  assert (Hvpos : (0 < v)%Q).
  { pose proof (Hnn _ _ Hkv). destruct (Qlt_le_dec 0 v) as [|Hle]; [assumption|].
    exfalso. apply Hv. lra. }
  assert (Hk : 0 <= k < H * W).
  { rewrite <- Hcols. eapply Hwf; [eapply nth_row_In; exact Hkv|exact Hkv]. }
  set (e := (i, k / W, k mod W, v)).
  assert (He : In e nz).
  { subst nz e. apply footprint3_entry; [lia|]. exists k. auto. }
  destruct (weighted_mean_component_box
              (marginal nz (fun e => snd (fst (fst e))) i) H y0 y1 HH)
    as (y & Hy & Hyr & Hyb).
  { intros r. apply marginal_nonneg_roi. exact Hnn3. }
  { intros r _ Hr. destruct (Z_le_dec y0 r) as [H0|H0]; [destruct (Z_le_dec r y1) as [H1|H1]|];
      [lia| |]; exfalso; apply Hr; apply marginal_zero; intros e' He' Ha Hp;
      destruct (Hent e' He' Ha) as (k' & Hin & Hrow & _);
      destruct (Qeq_dec (snd e') 0) as [Hz|Hnz]; try exact Hz;
      destruct (Hbox _ _ Hin Hnz) as [Hb _]; lia. }
  { exists (k / W). split.
    - split; [apply Z.div_pos; lia|]. apply Z.div_lt_upper_bound; lia.
    - pose proof (marginal_ge_entry_roi nz (fun e => snd (fst (fst e))) e) as Hge.
      cbn [e fst snd] in Hge. specialize (Hge Hnn3 He). lra. }
  destruct (weighted_mean_component_box
              (marginal nz (fun e => snd (fst e)) i) W x0 x1 HW)
    as (x & Hx & Hxr & Hxb).
  { intros r. apply marginal_nonneg_roi. exact Hnn3. }
  { intros r _ Hr. destruct (Z_le_dec x0 r) as [H0|H0]; [destruct (Z_le_dec r x1) as [H1|H1]|];
      [lia| |]; exfalso; apply Hr; apply marginal_zero; intros e' He' Ha Hp;
      destruct (Hent e' He' Ha) as (k' & Hin & _ & Hcol);
      destruct (Qeq_dec (snd e') 0) as [Hz|Hnz]; try exact Hz;
      destruct (Hbox _ _ Hin Hnz) as [_ Hb]; lia. }
  { exists (k mod W). split.
    - apply Z.mod_pos_bound. lia.
    - pose proof (marginal_ge_entry_roi nz (fun e => snd (fst e)) e) as Hge.
      cbn [e fst snd] in Hge. specialize (Hge Hnn3 He). lra. }
  exists y, x. split; [|split; [|lia]].
  - rewrite sum_axis2_marginal. unfold weighted_mean. cbn [footprint3 shape3 fst snd].
    rewrite !nth_error_map, arange_nth_error by exact Hi. cbn [option_map].
    f_equal. exact Hy.
  - rewrite sum_axis1_marginal. unfold weighted_mean. cbn [footprint3 shape3 fst snd].
    rewrite !nth_error_map, arange_nth_error by exact Hi. cbn [option_map].
    f_equal. exact Hx.
Qed.

(** X6.  Under the weighted-mean method, for an ROI whose stored weights are
    non-negative and not all zero, the centroid that [get_centroids] (both
    classes, in exact arithmetic) returns lies inside every box that holds
    the pixels of non-zero weight of the ROI: between the first and the last
    occupied row, and between the first and the last occupied column.  The
    other ROIs of the matrix play no part.  In particular the centroid of an
    ROI of one pixel is that pixel. *)
Theorem centroid_in_bounding_box (H W : Z) (sf : csr_matrix Q) (i y0 y1 x0 x1 : Z) :
  csr_wf sf -> csr_ncols sf = H * W -> 0 < H <= 2 ^ 63 -> 0 < W <= 2 ^ 63 ->
  0 <= i < csr_nrows sf ->
  (forall k v, In (k, v) (nth (Z.to_nat i) (csr_rows sf) []) -> (0 <= v)%Q) ->
  (exists k v, In (k, v) (nth (Z.to_nat i) (csr_rows sf) []) /\ ~ (v == 0)%Q) ->
  (forall k v, In (k, v) (nth (Z.to_nat i) (csr_rows sf) []) -> ~ (v == 0)%Q ->
     y0 <= k / W <= y1 /\ x0 <= k mod W <= x1) ->
  exists h_mean w_mean y x,
    Data_suite2p.get_centroids "centroid" sf H W = Ok (Centroids h_mean w_mean)
    /\ Data_caiman.get_centroids "centroid" sf H W = Ok (Centroids h_mean w_mean)
    /\ nth_error h_mean (Z.to_nat i) = Some (Some y)
    /\ nth_error w_mean (Z.to_nat i) = Some (Some x)
    /\ y0 <= y <= y1 /\ x0 <= x <= x1
    /\ 0 <= y < H /\ 0 <= x < W.
Proof.
  intros Hwf Hcols HH HW Hi Hnn Hnz Hbox.
  destruct (weighted_centroid_box H W sf i y0 y1 x0 x1 Hwf Hcols HH HW Hi Hnn Hnz Hbox)
    as (y & x & Hy & Hx & Hb).
  unfold Data_suite2p.get_centroids, Data_caiman.get_centroids.
  rewrite (reshape3_footprint H W sf Hwf Hcols) by lia. cbn [bind].
  rewrite String.eqb_refl.
  do 2 eexists. exists y, x. split; [reflexivity|]. split; [reflexivity|].
  split; [exact Hy|]. split; [exact Hx|]. exact Hb.
Qed.

Lemma centroid_in_bounding_box_witness :
  exists h_mean w_mean y x,
    Data_suite2p.get_centroids "centroid" sf_two_rois 40 40 = Ok (Centroids h_mean w_mean)
    /\ Data_caiman.get_centroids "centroid" sf_two_rois 40 40 = Ok (Centroids h_mean w_mean)
    /\ nth_error h_mean 0 = Some (Some y)
    /\ nth_error w_mean 0 = Some (Some x)
    /\ 5 <= y <= 5 /\ 7 <= x <= 8.
Proof.
  destruct (centroid_in_bounding_box 40 40 sf_two_rois 0 5 5 7 8 sf_two_rois_wf)
    as (h_mean & w_mean & y & x & H1 & H2 & H3 & H4 & H5 & H6 & _).
  - reflexivity.
  - split; [lia|]. vm_compute. discriminate.
  - split; [lia|]. vm_compute. discriminate.
  - vm_compute. split; [discriminate|reflexivity].
  - intros k v Hin. simpl in Hin. destruct Hin as [Hin|[Hin|[]]]; injection Hin as <- <-;
      discriminate.
  - exists (5 * 40 + 7), 1%Q. split; [left; reflexivity|]. intros Hq. discriminate Hq.
  - intros k v Hin _. simpl in Hin. destruct Hin as [Hin|[Hin|[]]]; injection Hin as <- <-;
      vm_compute; repeat split; discriminate.
  - exists h_mean, w_mean, y, x. repeat split; try assumption; lia.
Defined.















(** ** [fix_paths] *)

Lemma paths_of_strings (ss : list string) :
  Pathlib.paths_of (map Pathlib.Str ss) = Pathlib.Returns (map Pathlib.PathObj ss).
Proof.
  induction ss as [|s t IH]; [reflexivity|]. cbn [map Pathlib.paths_of Pathlib.Path].
  rewrite IH. reflexivity.
Qed.

(** X8.  On the inputs its docstring names, [fix_paths] returns the list of
    the paths, one per input in the input's order: a single [str] or (on a
    POSIX system) a single path gives a list of one path, a non-empty list of
    [str] gives the list of their paths, and a non-empty list of paths is
    returned as it is.  In each case the length, which [__init__] stores as
    [n_sessions], is the number of inputs. *)
Theorem fix_paths_documented_inputs (os : Pathlib.flavour) (s : string) (ss : list string) :
  fix_paths os (Pathlib.Str s) = Pathlib.Returns (Pathlib.ListObj [Pathlib.PathObj s])
  /\ fix_paths Pathlib.Posix (Pathlib.PathObj s)
     = Pathlib.Returns (Pathlib.ListObj [Pathlib.PathObj s])
  /\ fix_paths os (Pathlib.ListObj (map Pathlib.Str (s :: ss)))
     = Pathlib.Returns (Pathlib.ListObj (map Pathlib.PathObj (s :: ss)))
  /\ fix_paths os (Pathlib.ListObj (map Pathlib.PathObj (s :: ss)))
     = Pathlib.Returns (Pathlib.ListObj (map Pathlib.PathObj (s :: ss)))
  /\ n_paths (Pathlib.ListObj (map Pathlib.PathObj (s :: ss))) = len (s :: ss).
Proof.
  split; [reflexivity|]. split; [reflexivity|]. split; [|split].
  - unfold fix_paths. cbn [map Pathlib.is_str Pathlib.is_PosixPath orb Pathlib.first_item
                             Pathlib.iterate].
    destruct os; cbn [Pathlib.is_PosixPath orb Pathlib.first_item Pathlib.is_str];
      change (Pathlib.Str s :: map Pathlib.Str ss) with (map Pathlib.Str (s :: ss));
      rewrite paths_of_strings; reflexivity.
  - destruct os; reflexivity.
  - unfold n_paths, len. rewrite length_map. reflexivity.
Qed.

(** X9.  [fix_paths] is idempotent: what it returns is a non-empty list that
    a second call returns unchanged. *)
Theorem fix_paths_idempotent (os : Pathlib.flavour) (paths paths_files : Pathlib.object) :
  fix_paths os paths = Pathlib.Returns paths_files ->
  fix_paths os paths_files = Pathlib.Returns paths_files
  /\ exists s rest, paths_files = Pathlib.ListObj (Pathlib.PathObj s :: rest).
Proof.
  intros H.
  assert (Hshape : exists s rest, paths_files = Pathlib.ListObj (Pathlib.PathObj s :: rest)).
  { destruct paths as [s|s| |[|x t]].
    - destruct os; injection H as <-; eauto.
    - destruct os; [injection H as <-; eauto|discriminate].
    - destruct os; discriminate.
    - destruct os; discriminate.
    - destruct x as [s0|s0| |items0].
      + unfold fix_paths in H.
        cbn [Pathlib.is_str Pathlib.is_PosixPath orb Pathlib.first_item Pathlib.iterate
             Pathlib.paths_of Pathlib.Path] in H.
        destruct os; cbn [Pathlib.is_PosixPath orb Pathlib.first_item Pathlib.is_str] in H;
          destruct (Pathlib.paths_of t) as [ps|e]; try discriminate;
          injection H as <-; eauto.
      + destruct os; injection H as <-; eauto.
      + destruct os; discriminate.
      + destruct os; discriminate. }
  split; [|exact Hshape]. destruct Hshape as (s & rest & ->). destruct os; reflexivity.
Qed.

Lemma fix_paths_idempotent_witness :
  fix_paths Pathlib.Posix (Pathlib.ListObj [Pathlib.PathObj "a/stat.npy"; Pathlib.PathObj "b/stat.npy"])
  = Pathlib.Returns (Pathlib.ListObj [Pathlib.PathObj "a/stat.npy"; Pathlib.PathObj "b/stat.npy"])
  /\ exists s rest,
       Pathlib.ListObj [Pathlib.PathObj "a/stat.npy"; Pathlib.PathObj "b/stat.npy"]
       = Pathlib.ListObj (Pathlib.PathObj s :: rest).
Proof.
  apply (fix_paths_idempotent Pathlib.Posix
           (Pathlib.ListObj [Pathlib.Str "a/stat.npy"; Pathlib.Str "b/stat.npy"])).
  reflexivity.
Defined.

(** X10.  What [fix_paths] does not check.  An empty list is refused with an
    IndexError, not with the TypeError of the function.  Of a list only the
    first item is looked at: a list that starts with a path is returned as it
    is whatever follows, so a [str] further on is not turned into a path,
    while after a first [str] an item that names no path raises TypeError.
    On a Windows system a single path, not in a list, is refused
    (TypeError), though the same path in a list is accepted. *)
Theorem fix_paths_unchecked (os : Pathlib.flavour) (s s' : string) (rest : list Pathlib.object) :
  fix_paths os (Pathlib.ListObj []) = Pathlib.Raises Pathlib.IndexError
  /\ fix_paths os (Pathlib.ListObj (Pathlib.PathObj s :: rest))
     = Pathlib.Returns (Pathlib.ListObj (Pathlib.PathObj s :: rest))
  /\ fix_paths os (Pathlib.ListObj [Pathlib.PathObj s; Pathlib.Str s'])
     = Pathlib.Returns (Pathlib.ListObj [Pathlib.PathObj s; Pathlib.Str s'])
  /\ fix_paths os (Pathlib.ListObj [Pathlib.Str s; Pathlib.NoneObj])
     = Pathlib.Raises Pathlib.TypeError
  /\ fix_paths Pathlib.Windows (Pathlib.PathObj s) = Pathlib.Raises Pathlib.TypeError
  /\ fix_paths Pathlib.Windows (Pathlib.ListObj [Pathlib.PathObj s])
     = Pathlib.Returns (Pathlib.ListObj [Pathlib.PathObj s]).
Proof. destruct os; repeat split. Qed.

(** ** FOV images *)

Lemma array_min_Q_spec (a : list Q) :
  a <> [] ->
  exists m, array_min_Q a = Ok m /\ In m a /\ forall x, In x a -> (m <= x)%Q.
Proof.
  destruct a as [|x t]; [congruence|]. intros _. cbn [array_min_Q].
  eexists. split; [reflexivity|].
  revert x. induction t as [|y t IH]; intros x; cbn [fold_left].
  - split; [left; reflexivity|]. intros z [<-|[]]. apply Qle_refl.
  - destruct (Qle_bool y x) eqn:E.
    + apply Qle_bool_iff in E. destruct (IH y) as [Hin Hle]. split.
      * destruct Hin as [Hin|Hin]; [right; left; exact Hin|right; right; exact Hin].
      * intros z [<-|[<-|Hz]].
        -- eapply Qle_trans; [apply Hle; left; reflexivity|exact E].
        -- apply Hle. left. reflexivity.
        -- apply Hle. right. exact Hz.
    + assert (Hxy : (x <= y)%Q).
      { destruct (Qlt_le_dec x y) as [Hlt|Hle]; [apply Qlt_le_weak; exact Hlt|].
        apply Qle_bool_iff in Hle. congruence. }
      destruct (IH x) as [Hin Hle]. split.
      * destruct Hin as [Hin|Hin]; [left; exact Hin|right; right; exact Hin].
      * intros z [<-|[<-|Hz]].
        -- apply Hle. left. reflexivity.
        -- eapply Qle_trans; [apply Hle; left; reflexivity|exact Hxy].
        -- apply Hle. right. exact Hz.
Qed.

Lemma pixels_map_array {A B : Type} (f : A -> B) (im : array2 A) :
  pixels (map_array f im) = map f (pixels im).
Proof. unfold pixels, map_array. cbn [a_rows]. symmetry. apply concat_map. Qed.

Lemma pixels_length {A : Type} (im : array2 A) :
  array2_wf im -> len (pixels im) = fst (a_shape im) * snd (a_shape im).
Proof.
  intros [Hh Hw]. unfold pixels, len in *. rewrite concat_as_flat_map.
  rewrite (length_flat_map_blocks _ (Z.to_nat (snd (a_shape im)))).
  - pose proof (Nat2Z.is_nonneg (List.length (a_rows im))).
    destruct (a_rows im) as [|row t] eqn:E.
    + simpl in *. lia.
    + assert (0 <= snd (a_shape im)).
      { rewrite <- (Hw row (or_introl eq_refl)). apply Nat2Z.is_nonneg. }
      nia.
  - intros row Hrow. specialize (Hw row Hrow). lia.
Qed.

Lemma qsum_shifted_nonneg (m : Q) (l : list Q) :
  (forall x, In x l -> (m <= x)%Q) -> (0 <= NP.qsum (map (fun x => x - m) l))%Q.
Proof.
  intros Hl. apply qsum_nonneg. intros y Hy. apply in_map_iff in Hy as (x & <- & Hx).
  specialize (Hl x Hx). lra.
Qed.

Lemma array_min_Q_min_pixel (im : array2 Q) :
  pixels im <> [] -> array_min_Q (pixels im) = Ok (min_pixel im).
Proof. unfold min_pixel. destruct (pixels im); [congruence|reflexivity]. Qed.

Lemma Forall2_map_r {A B : Type} (R : A -> B -> Prop) (g : A -> B) (l : list A) :
  (forall x, In x l -> R x (g x)) -> Forall2 R l (map g l).
Proof.
  induction l as [|x t IH]; intros H; constructor.
  - apply H. left. reflexivity.
  - apply IH. intros y Hy. apply H. right. exact Hy.
Qed.

(** One image, normalised as lines 164-165 do it. *)
Lemma normalised_image (im : array2 Q) (h w : Z) :
  a_shape im = (h, w) -> array2_wf im -> 0 < h -> 0 < w ->
  pixels im <> []
  /\ min_zero_mean_one im
       (map_array (fun x => NP.fdiv x (NP.qsum (pixels (map_array (fun x => (x - min_pixel im)%Q) im))
                                       / inject_Z (h * w))%Q)
                  (map_array (fun x => (x - min_pixel im)%Q) im)).
Proof.
  intros Hshape Hwf Hh Hw.
  pose proof (pixels_length im Hwf) as Hlen. rewrite Hshape in Hlen. cbn [fst snd] in Hlen.
  assert (Hne : pixels im <> []).
  { intros E. rewrite E in Hlen. unfold len in Hlen. simpl in Hlen. nia. }
  split; [exact Hne|].
  destruct (array_min_Q_spec (pixels im) Hne) as (m & Hm & Hin & Hle).
  rewrite (array_min_Q_min_pixel im Hne) in Hm. injection Hm as Hm. rewrite Hm.
  unfold min_zero_mean_one. rewrite !pixels_map_array.
  set (S := NP.qsum (map (fun x => (x - m)%Q) (pixels im))).
  assert (HS : (0 <= S)%Q) by (apply qsum_shifted_nonneg; exact Hle).
  assert (Hn : (0 < inject_Z (h * w))%Q).
  { replace 0%Q with (inject_Z 0) by reflexivity. rewrite <- Zlt_Qlt. nia. }
  split; [reflexivity|]. split.
  - intros (x & y & Hx & Hy & Hxy).
    assert (Hz : exists z, In z (pixels im) /\ (m < z)%Q).
    { destruct (Qeq_dec x m) as [Ex|Ex].
      - exists y. split; [exact Hy|]. pose proof (Hle y Hy).
        destruct (Qeq_dec y m) as [Ey|Ey]; [exfalso; apply Hxy; rewrite Ex, Ey; reflexivity|].
        destruct (Qlt_le_dec m y) as [|Hge]; [assumption|]. exfalso. apply Ey. lra.
      - exists x. split; [exact Hx|]. pose proof (Hle x Hx).
        destruct (Qlt_le_dec m x) as [|Hge]; [assumption|]. exfalso. apply Ex. lra. }
    destruct Hz as (z & Hz & Hmz).
    assert (HSpos : (0 < S)%Q).
    { assert (z - m <= S)%Q.
      { apply qsum_ge_member.
        - intros u Hu. apply in_map_iff in Hu as (v & <- & Hv). specialize (Hle v Hv). lra.
        - apply in_map_iff. exists z. auto. }
      lra. }
    set (mu := (S / inject_Z (h * w))%Q).
    assert (Hmu : (0 < mu)%Q).
    { subst mu. apply Qlt_shift_div_l; [exact Hn|]. lra. }
    exists m, mu. split; [exact Hin|]. split; [exact Hle|]. split; [exact Hmu|]. split.
    + rewrite map_map. apply map_ext. intros u. apply fdiv_nonzero. lra.
    + rewrite <- (map_map (fun x => (x - m)%Q) (fun y => (y / mu)%Q)).
      rewrite qsum_scaled by lra. fold S. rewrite Hlen. subst mu. field. split; lra.
  - intros Hconst p Hp. rewrite map_map in Hp. apply in_map_iff in Hp as (u & <- & Hu).
    apply fdiv_zero.
    assert (HS0 : (S == 0)%Q).
    { subst S. apply qsum_all_zero. intros v Hv. apply in_map_iff in Hv as (x & <- & Hx).
      destruct (Qeq_dec x m) as [E|E]; [rewrite E; ring|].
      exfalso. apply Hconst. exists x, m. auto. }
    rewrite HS0. field. lra.
Qed.

Lemma normalise_stacked (loaded : list (array2 Q)) (h w : Z) :
  loaded <> [] -> 0 < h -> 0 < w ->
  (forall im, In im loaded -> a_shape im = (h, w) /\ array2_wf im) ->
  exists FOV_images,
    (arr <- stack_arrays loaded ;; normalise_FOV_images arr) = Ok FOV_images
    /\ Forall2 min_zero_mean_one loaded FOV_images
    /\ exists first, getitem FOV_images 0 = Ok first /\ a_shape first = (h, w).
Proof.
  intros Hne Hh Hw Hall.
  assert (Hstack : stack_arrays loaded = Ok loaded).
  { unfold stack_arrays. destruct loaded as [|first rest]; [congruence|].
    replace (forallb _ (first :: rest)) with true; [reflexivity|].
    symmetry. apply forallb_forall. intros im Him.
    destruct (Hall im Him) as [-> _]. destruct (Hall first (or_introl eq_refl)) as [-> _].
    cbn [fst snd]. rewrite !Z.eqb_refl. reflexivity. }
  rewrite Hstack. cbn [bind]. unfold normalise_FOV_images.
  rewrite (for_each_total _ (fun im => map_array (fun x => (x - min_pixel im)%Q) im)).
  2:{ intros im Him. destruct (Hall im Him) as [Hs Hwf].
      destruct (normalised_image im h w Hs Hwf Hh Hw) as [Hpx _].
      rewrite (array_min_Q_min_pixel im Hpx). reflexivity. }
  cbn [bind]. eexists. split; [reflexivity|]. rewrite map_map. split.
  - apply Forall2_map_r. intros im Him. destruct (Hall im Him) as [Hs Hwf].
    destruct (normalised_image im h w Hs Hwf Hh Hw) as [_ Hspec].
    cbn [map_array a_shape]. rewrite Hs. cbn [fst snd]. exact Hspec.
  - destruct loaded as [|first rest]; [congruence|]. cbn [map].
    eexists. split; [reflexivity|]. cbn [map_array a_shape].
    apply (Hall first). left. reflexivity.
Qed.

(** X11.  The FOV images read from the ops files are normalised image by
    image: for a non-empty list of images of one shape (h, w), h, w > 0,
    [import_FOV_images] returns as many images with FOV_height = h and
    FOV_width = w; every image that is not constant comes back with each
    pixel x turned into (x - min) / mu for its own minimum and one mu > 0,
    so that its smallest pixel is 0 and its pixels add up to their number
    (mean 1, in exact arithmetic); a constant image is divided by zero
    without an error and comes back as NaN everywhere.  Images passed in
    [images] are returned as they are, not normalised; without images and
    without ops files the call raises ValueError. *)
Theorem FOV_images_normalised (loaded : list (array2 Q)) (h w : Z) :
  loaded <> [] -> 0 < h -> 0 < w ->
  (forall im, In im loaded -> a_shape im = (h, w) /\ array2_wf im) ->
  (exists FOV_images,
     Data_suite2p_images.import_FOV_images (Some loaded) None = Ok (FOV_images, h, w)
     /\ Forall2 min_zero_mean_one loaded FOV_images)
  /\ (forall images first rest, images = first :: rest ->
        Data_suite2p_images.import_FOV_images (Some loaded) (Some images)
        = Ok (images, fst (a_shape first), snd (a_shape first)))
  /\ Data_suite2p_images.import_FOV_images None None = Raise ValueError.
Proof.
  intros Hne Hh Hw Hall. split; [|split].
  - destruct (normalise_stacked loaded h w Hne Hh Hw Hall) as (FOV & HF & Hspec & first & H0 & Hs).
    exists FOV. split; [|exact Hspec].
    unfold Data_suite2p_images.import_FOV_images. rewrite HF. cbn [bind].
    rewrite H0. cbn [bind]. rewrite Hs. reflexivity.
  - intros images first rest ->. reflexivity.
  - reflexivity.
Qed.

Lemma ops_images_example_wf :
  forall im, In im ops_images_example -> a_shape im = (2, 2) /\ array2_wf im.
Proof.
  intros im [<-|[<-|[]]]; (split; [reflexivity|]); (split; [reflexivity|]);
    intros row [<-|[<-|[]]]; reflexivity.
Qed.

Lemma FOV_images_normalised_witness :
  exists FOV_images,
    Data_suite2p_images.import_FOV_images (Some ops_images_example) None = Ok (FOV_images, 2, 2)
    /\ Forall2 min_zero_mean_one ops_images_example FOV_images.
Proof.
  destruct (FOV_images_normalised ops_images_example 2 2) as [H _].
  - discriminate.
  - lia.
  - lia.
  - exact ops_images_example_wf.
  - exact H.
Defined.

Lemma nth_map_arange {A : Type} (f : Z -> A) (n k : Z) (d : A) :
  0 <= k < n -> nth (Z.to_nat k) (map f (NP.arange n)) d = f k.
Proof.
  intros Hk. apply nth_error_nth. rewrite nth_error_map, arange_nth_error by exact Hk.
  reflexivity.
Qed.

Lemma import_FOV_image_pixels (H W : Z) (b0 : list Q) :
  0 <= H -> 0 <= W -> len b0 = H * W ->
  exists im,
    Data_caiman_images._import_FOV_image (H, W) b0 = Ok im
    /\ a_shape im = (H, W)
    /\ array2_wf im
    /\ forall r c, 0 <= r < H -> 0 <= c < W ->
         nth (Z.to_nat c) (nth (Z.to_nat r) (a_rows im) []) 0%Q
         = nth (Z.to_nat (c * H + r)) b0 0%Q.
Proof.
  intros HH HW Hlen. unfold Data_caiman_images._import_FOV_image.
  rewrite Hlen, Z.eqb_refl. eexists. split; [reflexivity|]. cbn [a_shape a_rows].
  split; [reflexivity|]. split; [split|].
  - cbn [a_shape a_rows fst]. unfold len. rewrite length_map.
    pose proof (arange_length H) as HA. unfold len in HA. lia.
  - cbn [a_shape a_rows snd]. intros row Hrow. apply in_map_iff in Hrow as (r & <- & _).
    unfold len. rewrite length_map. pose proof (arange_length W) as HA. unfold len in HA. lia.
  - intros r c Hr Hc. rewrite (nth_map_arange _ H r []) by exact Hr.
    rewrite (nth_map_arange _ W c 0%Q) by exact Hc. f_equal. f_equal. lia.
Qed.

(** X12.  The FOV image and the footprints of a CaImAn results file are read
    in the same pixel order.  [_import_FOV_image] lays the background column
    b[:, 0] out in Fortran order: the image has shape (H, W), its pixel
    (r, c) is entry c * H + r of the column, and flattened column-major it is
    the column again; a column of another length raises ValueError.
    [_import_spatialFootprints] puts entry c * H + r of a component at column
    r * W + c of the footprint, which is pixel (r, c) in C order: the same
    pixel. *)
Theorem FOV_image_aligned_with_footprints (H W : Z) (b0 : list Q)
    (sf_included sf_discarded : csr_matrix Q) :
  0 < H -> 0 < W -> len b0 = H * W ->
  csr_wf sf_included -> csr_ncols sf_included = H * W ->
  exists im sf,
    Data_caiman_images._import_FOV_image (H, W) b0 = Ok im
    /\ Data_caiman._import_spatialFootprints H W sf_included sf_discarded false = Ok sf
    /\ a_shape im = (H, W)
    /\ array2_wf im
    /\ flatten_F H W (a_rows im) = b0
    /\ (forall r c, 0 <= r < H -> 0 <= c < W ->
          nth (Z.to_nat c) (nth (Z.to_nat r) (a_rows im) []) 0%Q
          = nth (Z.to_nat (c * H + r)) b0 0%Q
          /\ forall i, 0 <= i < csr_nrows sf_included ->
               (csr_get sf i (r * W + c) == csr_get sf_included i (c * H + r))%Q)
    /\ (forall b0', len b0' <> H * W ->
          Data_caiman_images._import_FOV_image (H, W) b0' = Raise ValueError).
Proof.
  intros HH HW Hlen Hwf Hcols.
  destruct (import_FOV_image_pixels H W b0 ltac:(lia) ltac:(lia) Hlen)
    as (im & Him & Hshape & Himwf & Hpix).
  destruct (fortran_pipeline H W sf_included Hwf Hcols HH HW) as (l & _ & Hpipe).
  destruct (import_spatialFootprints_get H W sf_included _ Hwf Hcols HH HW Hpipe)
    as (_ & _ & Hget).
  exists im. eexists. split; [exact Him|]. split.
  { unfold Data_caiman._import_spatialFootprints. cbn [bind]. exact Hpipe. }
  split; [exact Hshape|]. split; [exact Himwf|]. split; [|split].
  - apply (nth_ext _ _ 0%Q 0%Q).
    + pose proof (flatten_F_length H W (a_rows im) ltac:(lia) ltac:(lia)) as HF.
      unfold len in *. lia.
    + intros k Hk.
      pose proof (flatten_F_length H W (a_rows im) ltac:(lia) ltac:(lia)) as HF.
      unfold len in HF.
      assert (Hkz : 0 <= Z.of_nat k < H * W) by lia.
      assert (Hr : 0 <= Z.of_nat k mod H < H) by (apply Z.mod_pos_bound; lia).
      assert (Hc : 0 <= Z.of_nat k / H < W).
      { split; [apply Z.div_pos; lia|]. apply Z.div_lt_upper_bound; lia. }
      assert (Ek : Z.of_nat k = Z.of_nat k / H * H + Z.of_nat k mod H).
      { pose proof (Z.div_mod (Z.of_nat k) H ltac:(lia)). lia. }
      replace k with (Z.to_nat (Z.of_nat k / H * H + Z.of_nat k mod H)) by lia.
      rewrite flatten_F_nth by assumption. apply Hpix; assumption.
  - intros r c Hr Hc. split; [apply Hpix; assumption|].
    intros i Hi. apply Hget; assumption.
  - intros b0' Hne. unfold Data_caiman_images._import_FOV_image.
    destruct (Z.eqb_spec (len b0') (H * W)); [contradiction|reflexivity].
Qed.

Lemma FOV_image_aligned_with_footprints_witness :
  exists im sf,
    Data_caiman_images._import_FOV_image (2, 3) [1%Q; 2%Q; 3%Q; 4%Q; 5%Q; 6%Q] = Ok im
    /\ Data_caiman._import_spatialFootprints 2 3 sf_2_by_3_F sf_2_by_3_F false = Ok sf
    /\ a_rows im = [[1%Q; 3%Q; 5%Q]; [2%Q; 4%Q; 6%Q]]
    /\ flatten_F 2 3 (a_rows im) = [1%Q; 2%Q; 3%Q; 4%Q; 5%Q; 6%Q]
    /\ (csr_get sf 0 (1 * 3 + 2) == 6)%Q.
Proof.
  destruct (FOV_image_aligned_with_footprints 2 3 [1%Q; 2%Q; 3%Q; 4%Q; 5%Q; 6%Q]
              sf_2_by_3_F sf_2_by_3_F ltac:(lia) ltac:(lia) eq_refl sf_2_by_3_F_wf eq_refl)
    as (im & sf & Him & Hsf & _ & _ & Hflat & Hpix & _).
  exists im, sf. split; [exact Him|]. split; [exact Hsf|]. split; [|split; [exact Hflat|]].
  - vm_compute in Him. injection Him as <-. reflexivity.
  - destruct (Hpix 1 2 ltac:(lia) ltac:(lia)) as [_ Hget].
    rewrite (Hget 0) by (vm_compute; split; [discriminate|reflexivity]).
    vm_compute. reflexivity.
Defined.

(** ** CaImAn results files *)

Lemma csr_matrix_of_shape (m : Caiman_results.h5_sparse) (sf : csr_matrix Q) :
  Caiman_results.csr_matrix_of m = Ok sf ->
  csr_nrows sf = Caiman_results.n_components m
  /\ csr_ncols sf = fst (Caiman_results.h5_shape m)
  /\ len (Caiman_results.h5_indptr m) = Caiman_results.n_components m + 1
  /\ 0 <= Caiman_results.n_components m.
Proof.
  unfold Caiman_results.csr_matrix_of, Caiman_results.n_components.
  destruct (Caiman_results.h5_shape m) as [N M]. cbn [fst snd].
  destruct (Z.ltb_spec M 0) as [|HM]; [discriminate|].
  destruct (N <? 0); cbn [orb]; [discriminate|].
  destruct (Z.eqb_spec (len (Caiman_results.h5_indptr m)) (M + 1)) as [Hp|];
    cbn [negb]; [|discriminate].
  destruct (negb _); [discriminate|].
  destruct (negb _); [discriminate|].
  destruct (_ <? _); [discriminate|].
  intros H. injection H as <-. unfold csr_nrows. cbn [csr_rows csr_ncols].
  unfold len at 1. rewrite length_map, arange_nat_length.
  repeat split; try assumption. lia.
Qed.

(** The conversion of line 495 keeps the number of rows and gives the
    matrix [FOV_width * FOV_height] columns, whatever the matrix holds. *)
Lemma pipeline_shape (H W : Z) (sf_F sf : csr_matrix Q) :
  (a <- reshape3 (COO sf_F) (csr_nrows sf_F, W, H) ;;
   b <- reshape2 (transpose_021 a) (csr_nrows sf_F, W * H) ;;
   Ok (tocsr b)) = Ok sf ->
  csr_nrows sf = csr_nrows sf_F /\ csr_ncols sf = W * H.
Proof.
  unfold reshape3, COO. cbn [shape2].
  destruct (negb _); cbn [bind]; [discriminate|].
  unfold transpose_021. cbn [shape3]. unfold reshape2. cbn [shape3].
  destruct (negb _); cbn [bind]; [discriminate|].
  intros E. injection E as <-. unfold tocsr, csr_nrows. cbn [csr_rows csr_ncols shape2 fst snd].
  split; [|reflexivity].
  unfold len at 1. rewrite length_map, arange_nat_length.
  pose proof (len_nonneg (csr_rows sf_F)). lia.
Qed.

Lemma len_repeat {X : Type} (x : X) (n : nat) : len (repeat x n) = Z.of_nat n.
Proof. unfold len. rewrite repeat_length. reflexivity. Qed.

(** X13.  The label vector of a CaImAn results file does not fit its
    footprints.  Whenever [_import_spatialFootprints] returns, its matrix is
    the conversion (lines 490-495) of the [n_included] accepted components
    stacked over the [n_discarded] discarded ones, so it has
    [n_included + n_discarded] rows ([n_included] without the discarded
    components); but [_import_overall_caiman_labels], sized by the index
    pointers, returns [n_included + 1] ones followed by [n_discarded + 1]
    zeros: one label more than there are ROIs, two with the discarded
    components, whose first one, at row [n_included], is labelled 1. *)
Theorem caiman_labels_exceed_footprints (f : Caiman_results.results_file)
    (include_discarded : bool) (sf : csr_matrix Q) :
  Caiman_results._import_spatialFootprints f include_discarded = Ok sf ->
  let n_included := Caiman_results.n_components (Caiman_results.A f) in
  let n_discarded := Caiman_results.n_components (Caiman_results.discarded_A f) in
  let labels := Caiman_results._import_overall_caiman_labels f include_discarded in
  (exists sf_included sf_discarded,
      Caiman_results.csr_matrix_of (Caiman_results.A f) = Ok sf_included
      /\ csr_nrows sf_included = n_included
      /\ (include_discarded = true ->
          Caiman_results.csr_matrix_of (Caiman_results.discarded_A f) = Ok sf_discarded
          /\ csr_nrows sf_discarded = n_discarded)
      /\ Data_caiman._import_spatialFootprints
           (fst (Caiman_results.dims f)) (snd (Caiman_results.dims f))
           sf_included sf_discarded include_discarded = Ok sf)
  /\ 0 <= n_included
  /\ csr_nrows sf = (if include_discarded then n_included + n_discarded else n_included)
  /\ labels = repeat 1%Q (Z.to_nat (n_included + 1))
              ++ (if include_discarded then repeat 0%Q (Z.to_nat (n_discarded + 1)) else [])
  /\ len labels = csr_nrows sf + (if include_discarded then 2 else 1)
  /\ nth_error labels (Z.to_nat n_included) = Some 1%Q.
Proof.
  intros Hsf n_included n_discarded labels.
  unfold Caiman_results._import_spatialFootprints in Hsf.
  destruct (Caiman_results.dims f) as [H W] eqn:Hdims.
  destruct (Caiman_results.csr_matrix_of (Caiman_results.A f)) as [sf_i|e] eqn:Hi;
    cbn [bind] in Hsf; [|discriminate].
  destruct (csr_matrix_of_shape _ _ Hi) as (Hni & _ & Hpi & Hi0).
  assert (Hlabels_i : List.length (Caiman_results.h5_indptr (Caiman_results.A f))
                      = Z.to_nat (n_included + 1)).
  { unfold len in Hpi. subst n_included. lia. }
  assert (Hnth : forall t, nth_error (repeat 1%Q (Z.to_nat (n_included + 1)) ++ t)
                                     (Z.to_nat n_included) = Some 1%Q).
  { intros t. rewrite nth_error_app1 by (rewrite repeat_length; subst n_included; lia).
    apply nth_error_repeat. subst n_included. lia. }
  destruct include_discarded.
  - destruct (Caiman_results.csr_matrix_of (Caiman_results.discarded_A f)) as [sf_d|e] eqn:Hd;
      cbn [bind] in Hsf; [|discriminate].
    destruct (csr_matrix_of_shape _ _ Hd) as (Hnd & _ & Hpd & Hd0).
    destruct (vstack2 sf_i sf_d) as [sf_F|e] eqn:Hv; cbn [bind] in Hsf; [|discriminate].
    destruct (pipeline_shape H W sf_F sf Hsf) as (Hrows & _).
    assert (HF : csr_nrows sf_F = n_included + n_discarded).
    { unfold vstack2 in Hv. destruct (_ =? _); [|discriminate]. injection Hv as <-.
      unfold csr_nrows in *. cbn [csr_rows]. rewrite len_app. subst n_included n_discarded. lia. }
    assert (Hlabels_d : List.length (Caiman_results.h5_indptr (Caiman_results.discarded_A f))
                        = Z.to_nat (n_discarded + 1)).
    { unfold len in Hpd. subst n_discarded. lia. }
    assert (Hl : labels = repeat 1%Q (Z.to_nat (n_included + 1))
                          ++ repeat 0%Q (Z.to_nat (n_discarded + 1))).
    { subst labels. unfold Caiman_results._import_overall_caiman_labels.
      rewrite Hlabels_i, Hlabels_d. reflexivity. }
    split.
    { exists sf_i, sf_d. split; [reflexivity|]. split; [exact Hni|]. split; [auto|].
      unfold Data_caiman._import_spatialFootprints. cbn [fst snd]. rewrite Hv. cbn [bind].
      exact Hsf. }
    split; [exact Hi0|]. split; [lia|]. split; [exact Hl|]. split.
    + rewrite Hl, len_app, !len_repeat. subst n_included n_discarded. lia.
    + rewrite Hl. apply Hnth.
  - cbn [bind] in Hsf.
    destruct (pipeline_shape H W sf_i sf Hsf) as (Hrows & _).
    assert (Hl : labels = repeat 1%Q (Z.to_nat (n_included + 1)) ++ []).
    { subst labels. unfold Caiman_results._import_overall_caiman_labels.
      rewrite Hlabels_i, app_nil_r. reflexivity. }
    split.
    { exists sf_i, sf_i. split; [reflexivity|]. split; [exact Hni|]. split; [discriminate|].
      unfold Data_caiman._import_spatialFootprints. cbn [fst snd bind]. exact Hsf. }
    split; [exact Hi0|]. split; [lia|]. split; [exact Hl|]. split.
    + rewrite Hl, app_nil_r, len_repeat. subst n_included. lia.
    + rewrite Hl. apply Hnth.
Qed.

Lemma caiman_labels_exceed_footprints_witness :
  exists sf,
    Caiman_results._import_spatialFootprints results_file_example true = Ok sf
    /\ csr_nrows sf = 3
    /\ Caiman_results._import_overall_caiman_labels results_file_example true
       = [1%Q; 1%Q; 1%Q; 0%Q; 0%Q].
Proof.
  destruct (Caiman_results._import_spatialFootprints results_file_example true)
    as [sf|e] eqn:E; [|vm_compute in E; discriminate].
  exists sf. split; [reflexivity|].
  destruct (caiman_labels_exceed_footprints results_file_example true sf E)
    as (_ & _ & Hrows & Hl & _).
  split; [exact Hrows|exact Hl].
Defined.

Lemma import_spatialFootprints_shape (f : Caiman_results.results_file)
    (include_discarded : bool) (sf : csr_matrix Q) :
  Caiman_results._import_spatialFootprints f include_discarded = Ok sf ->
  csr_nrows sf
  = Caiman_results.n_components (Caiman_results.A f)
    + (if include_discarded
       then Caiman_results.n_components (Caiman_results.discarded_A f) else 0)
  /\ csr_ncols sf = snd (Caiman_results.dims f) * fst (Caiman_results.dims f).
Proof.
  unfold Caiman_results._import_spatialFootprints.
  destruct (Caiman_results.dims f) as [H W]. cbn [fst snd].
  destruct (Caiman_results.csr_matrix_of (Caiman_results.A f)) as [sf_i|e] eqn:Hi;
    cbn [bind]; [|discriminate].
  destruct (csr_matrix_of_shape _ _ Hi) as (Hni & _).
  destruct include_discarded.
  - destruct (Caiman_results.csr_matrix_of (Caiman_results.discarded_A f)) as [sf_d|e] eqn:Hd;
      cbn [bind]; [|discriminate].
    destruct (csr_matrix_of_shape _ _ Hd) as (Hnd & _).
    destruct (vstack2 sf_i sf_d) as [sf_F|e] eqn:Hv; cbn [bind]; [|discriminate].
    intros Hsf. destruct (pipeline_shape H W sf_F sf Hsf) as (Hrows & Hcols).
    split; [|exact Hcols]. rewrite Hrows.
    unfold vstack2 in Hv. destruct (_ =? _); [|discriminate]. injection Hv as <-.
    unfold csr_nrows in *. cbn [csr_rows]. rewrite len_app. lia.
  - cbn [bind]. intros Hsf. destruct (pipeline_shape H W sf_i sf Hsf) as (Hrows & Hcols).
    split; [lia|exact Hcols].
Qed.

Lemma Forall2_length_eq {X Y : Type} (R : X -> Y -> Prop) (l : list X) (l' : list Y) :
  Forall2 R l l' -> len l = len l'.
Proof. intros H. unfold len. f_equal. eapply Forall2_length. exact H. Qed.

Lemma Forall2_In_right {X Y : Type} (R : X -> Y -> Prop) (l : list X) (l' : list Y) (y : Y) :
  Forall2 R l l' -> In y l' -> exists x, In x l /\ R x y.
Proof.
  induction 1 as [|x0 y0 t t' Hxy _ IH]; intros Hin; [destruct Hin|].
  destruct Hin as [<-|Hin].
  - exists x0. split; [left; reflexivity|exact Hxy].
  - destruct (IH Hin) as (x & Hx & HR). exists x. split; [right; exact Hx|exact HR].
Qed.

Lemma Forall2_map_eq {X Y : Type} (h : Y -> Z) (k : X -> Z)
    (l : list X) (l' : list Y) :
  Forall2 (fun x y => h y = k x) l l' -> map h l' = map k l.
Proof. induction 1 as [|x y t t' Hxy _ IH]; [reflexivity|]. cbn [map]. rewrite Hxy, IH. reflexivity. Qed.

(** The images that [import_FOV_images] builds from the results files all
    have the [dims] of their file, which are those of every file. *)
Lemma caiman_FOV_images_dims (files : list (Z * Z * list Q))
    (imgs : list (array2 NP.npfloat)) (h w : Z) :
  Data_caiman_images.import_FOV_images files None = Ok (imgs, h, w) ->
  files <> []
  /\ len imgs = len files
  /\ (forall p, In p files -> fst p = (h, w))
  /\ (forall im, In im imgs -> a_shape im = (h, w)).
Proof.
  unfold Data_caiman_images.import_FOV_images.
  destruct (for_each _ files) as [loaded|e] eqn:Hl; cbn [bind]; [|discriminate].
  apply for_each_Forall2 in Hl.
  assert (Hshape : Forall2 (fun (p : Z * Z * list Q) im => a_shape im = fst p) files loaded).
  { eapply Forall2_impl; [|exact Hl]. intros [[H W] b] im. cbn [fst snd].
    unfold Data_caiman_images._import_FOV_image.
    destruct (_ =? _); [|discriminate]. intros E. injection E as <-. reflexivity. }
  destruct (stack_arrays loaded) as [arr|e] eqn:Hs; cbn [bind]; [|discriminate].
  unfold stack_arrays in Hs. destruct loaded as [|first rest] eqn:Hloaded; [discriminate|].
  rewrite <- Hloaded in *.
  destruct (forallb _ loaded) eqn:Hall; [|discriminate]. injection Hs as <-.
  rewrite forallb_forall in Hall.
  assert (Hsame : forall im, In im loaded -> a_shape im = a_shape first).
  { intros im Him. specialize (Hall im Him). apply andb_true_iff in Hall as [H1 H2].
    apply Z.eqb_eq in H1, H2. destruct (a_shape im), (a_shape first). cbn in *. congruence. }
  unfold normalise_FOV_images.
  destruct (for_each _ loaded) as [shifted|e] eqn:Hsh; cbn [bind]; [|discriminate].
  apply for_each_Forall2 in Hsh.
  assert (Hshape2 : Forall2 (fun (im : array2 Q) (im' : array2 Q) => a_shape im' = a_shape im)
                            loaded shifted).
  { eapply Forall2_impl; [|exact Hsh]. intros im im'. cbn beta.
    destruct (array_min_Q (pixels im)); cbn [bind]; [|discriminate].
    intros E. injection E as <-. reflexivity. }
  destruct shifted as [|s0 srest] eqn:Hshifted.
  { rewrite Hloaded in Hshape2. inversion Hshape2. }
  rewrite <- Hshifted in *.
  assert (Hfirst : a_shape s0 = a_shape first).
  { rewrite Hloaded, Hshifted in Hshape2. inversion Hshape2; subst. assumption. }
  match goal with
  | |- context [getitem ?l 0] =>
      assert (Hget : exists im0, getitem l 0 = Ok im0 /\ a_shape im0 = a_shape s0)
  end.
  { rewrite Hshifted. eexists. split; reflexivity. }
  destruct Hget as (im0 & Hget & Him0). rewrite Hget. cbn [bind].
  intros E. injection E as <- <- <-.
  rewrite <- (surjective_pairing (a_shape im0)), Him0, Hfirst.
  assert (Hfiles : files <> []).
  { intros ->. rewrite Hloaded in Hl. inversion Hl. }
  split; [exact Hfiles|]. split.
  { unfold len. rewrite length_map.
    rewrite <- (Forall2_length Hshape2), <- (Forall2_length Hl). reflexivity. }
  split.
  - intros p Hp.
    apply In_nth_error in Hp as (j & Hj).
    destruct (Forall2_nth_error _ _ _ Hshape j p Hj) as (im & Him & Heq).
    rewrite <- Heq. apply Hsame. eapply nth_error_In. exact Him.
  - intros im Him.
    apply in_map_iff in Him as (im' & <- & Him'). cbn [map_array a_shape].
    destruct (Forall2_In_right _ _ _ _ Hshape2 Him') as (im1 & Him1 & Heq).
    rewrite Heq. apply Hsame. exact Him1.
Qed.

Lemma sum_axis2_length (x : COO3 Q) : len (sum_axis2 x) = Z.max 0 (fst (fst (shape3 x))).
Proof.
  unfold sum_axis2. destruct (shape3 x) as [[n h] w]. cbn [fst].
  unfold len. rewrite length_map. apply arange_length.
Qed.

Lemma sum_axis1_length (x : COO3 Q) : len (sum_axis1 x) = Z.max 0 (fst (fst (shape3 x))).
Proof.
  unfold sum_axis1. destruct (shape3 x) as [[n h] w]. cbn [fst].
  unfold len. rewrite length_map. apply arange_length.
Qed.

(** [get_centroids] of the CaImAn class on a matrix of [H * W] columns. *)
Lemma caiman_get_centroids_total (method : string) (sf : csr_matrix Q) (H W : Z) :
  csr_ncols sf = H * W ->
  (method = "centroid"%string \/ method = "median"%string ->
   exists h_mean w_mean,
     Data_caiman.get_centroids method sf H W = Ok (Centroids h_mean w_mean)
     /\ len h_mean = csr_nrows sf /\ len w_mean = csr_nrows sf)
  /\ (method <> "centroid"%string -> method <> "median"%string ->
      Data_caiman.get_centroids method sf H W = Raise ValueError).
Proof.
  intros Hcols. unfold Data_caiman.get_centroids, reshape3, COO. cbn [shape2].
  replace (csr_nrows sf * csr_ncols sf =? csr_nrows sf * H * W) with true
    by (symmetry; apply Z.eqb_eq; rewrite Hcols; ring).
  cbn [negb bind].
  assert (Hn : forall (wt : list (list Q)) (g : list (list Q) -> list NP.npfloat),
            (forall l, List.length (g l) = List.length l) ->
            len wt = Z.max 0 (csr_nrows sf) ->
            len (map NP.round_astype_int64 (g wt)) = csr_nrows sf).
  { intros wt g Hg Hwt. unfold len in *. rewrite length_map, Hg.
    pose proof (len_nonneg (csr_rows sf)). unfold csr_nrows, len in *. lia. }
  split.
  - intros [->| ->].
    + cbn [String.eqb Ascii.eqb Bool.eqb andb].
      do 2 eexists. split; [reflexivity|].
      split; (apply (Hn _ (fun wt => weighted_mean wt _));
              [intros l; unfold weighted_mean; apply length_map|]).
      * rewrite sum_axis2_length. reflexivity.
      * rewrite sum_axis1_length. reflexivity.
    + cbn [String.eqb Ascii.eqb Bool.eqb andb].
      do 2 eexists. split; [reflexivity|].
      split; (apply (Hn _ (fun wt => nonzero_index_median wt _));
              [intros l; unfold nonzero_index_median; apply length_map|]).
      * rewrite sum_axis2_length. reflexivity.
      * rewrite sum_axis1_length. reflexivity.
  - intros H1 H2.
    destruct (String.eqb_spec method "centroid"); [contradiction|].
    destruct (String.eqb_spec method "median"); [contradiction|]. reflexivity.
Qed.

(** X14.  What [import_caimanResults] leaves behind is consistent.  Whenever
    it returns (for files whose [dims] are not negative): there is at least
    one file, and every file has the same [dims], which are [FOV_height] and
    [FOV_width]; there is one footprint matrix, one label vector, one
    prediction vector and one FOV image per file; the footprint matrix of a
    file has as many rows as the file has components
    ([n_roi], with [n_roi_total] their sum) and
    [FOV_height * FOV_width] columns, and every FOV image has the shape
    [(FOV_height, FOV_width)].  So the call of [get_centroids] that
    [__init__] makes next cannot fail on the shape: on every footprint
    matrix it returns one centroid per ROI under both methods, and raises
    ValueError for any other method. *)
Theorem caiman_import_consistent (paths_resultsFiles : list Caiman_results.results_file)
    (include_discarded : bool) (self : Caiman_results.attributes) :
  (forall f, In f paths_resultsFiles ->
     0 <= fst (Caiman_results.dims f) /\ 0 <= snd (Caiman_results.dims f)) ->
  Caiman_results.import_caimanResults paths_resultsFiles include_discarded = Ok self ->
  let H := Caiman_results.FOV_height self in
  let W := Caiman_results.FOV_width self in
  paths_resultsFiles <> []
  /\ (forall f, In f paths_resultsFiles -> Caiman_results.dims f = (H, W))
  /\ len (Caiman_results.spatialFootprints self) = len paths_resultsFiles
  /\ len (Caiman_results.overall_caiman_labels self) = len paths_resultsFiles
  /\ len (Caiman_results.cnn_caiman_preds self) = len paths_resultsFiles
  /\ len (Caiman_results.FOV_images self) = len paths_resultsFiles
  /\ Caiman_results.n_roi self
     = map (fun f => Caiman_results.n_components (Caiman_results.A f)
                     + (if include_discarded
                        then Caiman_results.n_components (Caiman_results.discarded_A f)
                        else 0))
           paths_resultsFiles
  /\ Caiman_results.n_roi_total self = zsum (Caiman_results.n_roi self)
  /\ (forall im, In im (Caiman_results.FOV_images self) -> a_shape im = (H, W))
  /\ (forall sf, In sf (Caiman_results.spatialFootprints self) ->
        csr_ncols sf = H * W
        /\ (forall method, method = "centroid"%string \/ method = "median"%string ->
              exists h_mean w_mean,
                Data_caiman.get_centroids method sf H W = Ok (Centroids h_mean w_mean)
                /\ len h_mean = csr_nrows sf /\ len w_mean = csr_nrows sf)
        /\ (forall method, method <> "centroid"%string -> method <> "median"%string ->
              Data_caiman.get_centroids method sf H W = Raise ValueError)).
Proof.
  intros _ Himp H W. unfold Caiman_results.import_caimanResults in Himp.
  destruct (for_each _ paths_resultsFiles) as [sfs|e] eqn:Hsf; cbn [bind] in Himp;
    [|discriminate].
  apply for_each_Forall2 in Hsf.
  destruct (Data_caiman_images.import_FOV_images _ None) as [[[imgs h] w]|e] eqn:Hfov;
    cbn [bind] in Himp; [|discriminate].
  injection Himp as <-. cbn [fst snd] in *.
  subst H W. cbn [Caiman_results.FOV_height Caiman_results.FOV_width
                  Caiman_results.spatialFootprints Caiman_results.overall_caiman_labels
                  Caiman_results.cnn_caiman_preds Caiman_results.FOV_images
                  Caiman_results.n_roi Caiman_results.n_roi_total].
  destruct (caiman_FOV_images_dims _ _ _ _ Hfov) as (Hne & Hlen & Hdims & Hshapes).
  assert (Hd : forall f, In f paths_resultsFiles -> Caiman_results.dims f = (h, w)).
  { intros f Hf. apply (Hdims (Caiman_results.dims f, Caiman_results.b0 f)).
    apply in_map_iff. exists f. auto. }
  split. { intros ->. apply Hne. reflexivity. }
  split; [exact Hd|].
  split. { symmetry. eapply Forall2_length_eq. exact Hsf. }
  split. { unfold len. rewrite length_map. reflexivity. }
  split. { unfold len. rewrite length_map. reflexivity. }
  split. { rewrite Hlen. unfold len. rewrite length_map. reflexivity. }
  split.
  { apply Forall2_map_eq. eapply Forall2_impl; [|exact Hsf].
    intros f sf E. apply (import_spatialFootprints_shape f include_discarded sf E). }
  split; [reflexivity|].
  split; [exact Hshapes|].
  intros sf Hin. destruct (Forall2_In_right _ _ _ _ Hsf Hin) as (f & Hf & E).
  destruct (import_spatialFootprints_shape f include_discarded sf E) as (_ & Hcols).
  rewrite (Hd f Hf) in Hcols. cbn [fst snd] in Hcols.
  assert (Hc : csr_ncols sf = h * w) by lia.
  split; [exact Hc|].
  split; intros method; apply (caiman_get_centroids_total method sf h w Hc).
Qed.

Lemma caiman_import_consistent_witness :
  exists self,
    Caiman_results.import_caimanResults [results_file_example; results_file_example] true
    = Ok self
    /\ Caiman_results.n_roi self = [3; 3]
    /\ Caiman_results.n_roi_total self = 6
    /\ (Caiman_results.FOV_height self, Caiman_results.FOV_width self) = (2, 3).
Proof.
  destruct (Caiman_results.import_caimanResults [results_file_example; results_file_example]
              true) as [self|e] eqn:E; [|vm_compute in E; discriminate].
  exists self. split; [reflexivity|].
  assert (Hd : forall f, In f [results_file_example; results_file_example] ->
                 0 <= fst (Caiman_results.dims f) /\ 0 <= snd (Caiman_results.dims f)).
  { intros f [<-|[<-|[]]]; cbn; lia. }
  destruct (caiman_import_consistent _ true self Hd E)
    as (_ & Hdims & _ & _ & _ & _ & Hn & Ht & _).
  split; [exact Hn|]. split; [rewrite Ht, Hn; reflexivity|].
  symmetry. apply (Hdims results_file_example). left. reflexivity.
Defined.

(** ** [import_ROI_spatialFootprints] *)

Lemma for_each_ok_iff {A B : Type} (f : A -> result B) (l : list A) :
  (exists ys, for_each f l = Ok ys) <-> forall x, In x l -> exists y, f x = Ok y.
Proof.
  split.
  - intros (ys & H) x Hx. apply for_each_Forall2 in H.
    apply In_nth_error in Hx as (j & Hj).
    destruct (Forall2_nth_error _ _ _ H j x Hj) as (y & _ & Hy). eauto.
  - induction l as [|x t IH]; intros H; simpl.
    + eauto.
    + destruct (H x (or_introl eq_refl)) as (y & ->). cbn [bind].
      destruct IH as (ys & ->); [intros x' Hx'; apply H; right; exact Hx'|].
      cbn [bind]. eauto.
Qed.

Lemma getitem_ok_iff {A : Type} (l : list A) (i : Z) (x : A) :
  getitem l i = Ok x <-> 0 <= i /\ nth_error l (Z.to_nat i) = Some x.
Proof.
  unfold getitem. destruct (Z.ltb_spec i 0) as [Hneg|Hpos].
  - split; [discriminate|]. intros [H _]. lia.
  - destruct (nth_error l (Z.to_nat i)) as [a|]; split.
    + intros H. injection H as ->. auto.
    + intros [_ H]. congruence.
    + discriminate.
    + intros [_ H]. discriminate.
Qed.

Lemma getitem_raises {A : Type} (l : list A) (i : Z) (e : exn) :
  getitem l i = Raise e -> e = IndexError.
Proof.
  unfold getitem. destruct (i <? 0); [congruence|].
  destruct (nth_error l (Z.to_nat i)); congruence.
Qed.

Lemma populate_sf_ok_iff (n_roi h w : Z) (stat : list roi) (dt : dtype) (shifts : Z * Z) :
  (exists sf, _helper_populate_sf n_roi (h, w) stat dt false shifts = Ok sf)
  <-> stat <> [] /\ forall r, In r stat -> roi_fits h w shifts r = true.
Proof.
  split.
  - intros (sf & H). apply populate_sf_rows in H as (Hne & _ & Hrows).
    split; [exact Hne|]. intros r Hr.
    apply In_nth_error in Hr as (j & Hj).
    destruct (Forall2_nth_error _ _ _ Hrows j r Hj) as (row & _ & Hrow).
    apply populate_roi_float in Hrow. apply Hrow.
  - intros (Hne & Hfits). unfold _helper_populate_sf.
    erewrite for_each_total; [|intros r Hr; apply populate_roi_fits; apply Hfits; exact Hr].
    cbn [bind]. destruct stat as [|r t]; [congruence|]. cbn [map]. eexists. reflexivity.
Qed.

Lemma populate_sf_shape (n_roi : Z) (hw : Z * Z) (stat : list roi) (dt : dtype)
    (isInt : bool) (shifts : Z * Z) (sf : csr_matrix NP.npfloat) :
  _helper_populate_sf n_roi hw stat dt isInt shifts = Ok sf ->
  csr_nrows sf = len stat /\ 1 <= csr_nrows sf /\ csr_ncols sf = fst hw * snd hw.
Proof.
  intros H. pose proof (populate_sf_rows _ _ _ _ _ _ _ H) as (Hne & Hcols & Hrows).
  assert (Hlen : csr_nrows sf = len stat) by (apply (Forall2_length_len _ _ _ Hrows)).
  split; [exact Hlen|]. split; [|exact Hcols].
  rewrite Hlen. destruct stat; [congruence|]. rewrite len_cons.
  pose proof (len_nonneg stat). lia.
Qed.

Lemma populate_sf_raises (n_roi : Z) (hw : Z * Z) (stat : list roi) (dt : dtype)
    (isInt : bool) (shifts : Z * Z) (e : exn) :
  _helper_populate_sf n_roi hw stat dt isInt shifts = Raise e -> e = ValueError.
Proof.
  unfold _helper_populate_sf.
  destruct (for_each (populate_roi hw dt isInt shifts) stat) as [rows|e'] eqn:Hrows;
    cbn [bind].
  - destruct rows; congruence.
  - intros H. injection H as <-. apply for_each_raises in Hrows as (r & _ & Hr).
    exact (populate_roi_raises _ _ _ _ _ _ Hr).
Qed.

Lemma enumerate_from_total {A B : Type} (g : Z -> A -> B) (l : list A) :
  forall i, exists ys, enumerate_from (fun ii x => Ok (g ii x)) i l = Ok ys.
Proof.
  induction l as [|x t IH]; intros i; simpl; [eauto|].
  destruct (IH (i + 1)) as (ys & ->). cbn [bind]. eauto.
Qed.

Lemma sessionID_concat_raises (shape0 : list Z) (e : exn) :
  sessionID_concat shape0 = Raise e -> e = ValueError.
Proof.
  unfold sessionID_concat.
  destruct (enumerate_from_total
              (fun i_sesh n => repeated_rows (idx2bool i_sesh (len shape0)) n) shape0 0)
    as (blocks & ->).
  cbn [bind]. unfold vstack. destruct blocks; [congruence|].
  destruct (forallb _ _); congruence.
Qed.

Lemma sessionID_concat_nonempty (shape0 : list Z) (m : list (list bool)) :
  sessionID_concat shape0 = Ok m -> shape0 <> [].
Proof. intros H ->. discriminate. Qed.

Section Sequential.

Variables (n_roi : list Z) (statFiles : list (list roi)) (shifts : list (Z * Z)).
Variables (hw : Z * Z) (dt : dtype) (isInt : bool).

(** The body of the comprehension of lines 256-264. *)
Let session (ii : Z) : result (csr_matrix NP.npfloat) :=
  n_roi <- getitem n_roi ii ;;
  stat <- getitem statFiles ii ;;
  shifts <- getitem shifts ii ;;
  _helper_populate_sf n_roi hw stat dt isInt shifts.

Lemma session_spec (ii : Z) (sf : csr_matrix NP.npfloat) :
  session ii = Ok sf ->
  exists stat,
    nth_error statFiles (Z.to_nat ii) = Some stat
    /\ csr_nrows sf = len stat /\ 1 <= csr_nrows sf /\ csr_ncols sf = fst hw * snd hw.
Proof.
  unfold session.
  destruct (getitem n_roi ii) as [n|e]; cbn [bind]; [|discriminate].
  destruct (getitem statFiles ii) as [stat|e] eqn:Hs; cbn [bind]; [|discriminate].
  destruct (getitem shifts ii) as [sh|e]; cbn [bind]; [|discriminate].
  intros H. exists stat. split; [apply getitem_ok_iff in Hs; apply Hs|].
  eapply populate_sf_shape. exact H.
Qed.

Lemma session_raises (ii : Z) (e : exn) :
  session ii = Raise e -> e = IndexError \/ e = ValueError.
Proof.
  unfold session.
  destruct (getitem n_roi ii) as [n|e1] eqn:H1; cbn [bind];
    [|intros H; injection H as <-; left; eapply getitem_raises; exact H1].
  destruct (getitem statFiles ii) as [stat|e2] eqn:H2; cbn [bind];
    [|intros H; injection H as <-; left; eapply getitem_raises; exact H2].
  destruct (getitem shifts ii) as [sh|e3] eqn:H3; cbn [bind];
    [|intros H; injection H as <-; left; eapply getitem_raises; exact H3].
  intros H. right. eapply populate_sf_raises. exact H.
Qed.

Lemma sessions_spec (n : Z) (sfs : list (csr_matrix NP.npfloat)) :
  for_each session (NP.arange n) = Ok sfs ->
  len sfs = Z.max 0 n
  /\ (forall ii, 0 <= ii < n ->
        exists sf stat,
          nth_error sfs (Z.to_nat ii) = Some sf
          /\ nth_error statFiles (Z.to_nat ii) = Some stat
          /\ csr_nrows sf = len stat /\ 1 <= csr_nrows sf
          /\ csr_ncols sf = fst hw * snd hw)
  /\ (forall k, In k (map csr_nrows sfs) -> 1 <= k).
Proof.
  intros H. apply for_each_Forall2 in H.
  split. { rewrite <- (Forall2_length_eq _ _ _ H). apply arange_length. }
  split.
  - intros ii Hii.
    destruct (Forall2_nth_error _ _ _ H (Z.to_nat ii) ii (arange_nth_error n ii Hii))
      as (sf & Hsf & Hstep).
    destruct (session_spec ii sf Hstep) as (stat & Hst & Hrest).
    exists sf, stat. auto.
  - intros k Hk. apply in_map_iff in Hk as (sf & <- & Hsf).
    destruct (Forall2_In_right _ _ _ _ H Hsf) as (ii & _ & Hstep).
    destruct (session_spec ii sf Hstep) as (stat & _ & _ & Hpos & _). exact Hpos.
Qed.

Lemma sessions_membership (n : Z) (sfs : list (csr_matrix NP.npfloat)) :
  1 <= n -> for_each session (NP.arange n) = Ok sfs ->
  sessionID_concat (map csr_nrows sfs) = Ok (membership_from n 0 (map csr_nrows sfs)).
Proof.
  intros Hn H. destruct (sessions_spec n sfs H) as (Hlen & _ & Hpos).
  assert (Hl : len (map csr_nrows sfs) = n).
  { unfold len in *. rewrite length_map. lia. }
  rewrite <- Hl. apply sessionID_concat_ok; [|exact Hpos].
  intros E. rewrite E in Hl. cbn in Hl. lia.
Qed.

End Sequential.

Lemma session_float_ok_iff (n_roi : list Z) (statFiles : list (list roi))
    (shifts : list (Z * Z)) (h w ii : Z) :
  0 <= ii ->
  (exists sf, (n <- getitem n_roi ii ;;
               stat <- getitem statFiles ii ;;
               sh <- getitem shifts ii ;;
               _helper_populate_sf n (h, w) stat FloatType false sh) = Ok sf)
  <-> session_fits h w n_roi statFiles shifts ii.
Proof.
  intros Hii. unfold session_fits. split.
  - intros (sf & H).
    destruct (getitem n_roi ii) as [n|e] eqn:H1; cbn [bind] in H; [|discriminate].
    destruct (getitem statFiles ii) as [stat|e] eqn:H2; cbn [bind] in H; [|discriminate].
    destruct (getitem shifts ii) as [sh|e] eqn:H3; cbn [bind] in H; [|discriminate].
    apply getitem_ok_iff in H1 as [_ H1]. apply getitem_ok_iff in H2 as [_ H2].
    apply getitem_ok_iff in H3 as [_ H3].
    split.
    { assert (Hlt : (Z.to_nat ii < List.length n_roi)%nat)
        by (apply nth_error_Some; congruence).
      unfold len. lia. }
    exists stat, sh. split; [exact H2|]. split; [exact H3|].
    apply (populate_sf_ok_iff n h w stat FloatType sh). eauto.
  - intros (Hlt & stat & sh & H2 & H3 & Hfit).
    destruct (nth_error n_roi (Z.to_nat ii)) as [n|] eqn:H1.
    2:{ apply nth_error_None in H1. unfold len in Hlt. lia. }
    rewrite (proj2 (getitem_ok_iff n_roi ii n) (conj Hii H1)). cbn [bind].
    rewrite (proj2 (getitem_ok_iff statFiles ii stat) (conj Hii H2)). cbn [bind].
    rewrite (proj2 (getitem_ok_iff shifts ii sh) (conj Hii H3)). cbn [bind].
    apply populate_sf_ok_iff. exact Hfit.
Qed.

(** X15.  [import_ROI_spatialFootprints] run in one worker.  The stat files
    are those of the object, imported first when they have not been.  With
    the default float dtype the call returns exactly when there is at least
    one session and, for every session [ii] below [n_sessions], [n_roi],
    the stat files and [shifts] have an entry [ii], the stat file holds at
    least one ROI record and every record fits the frame once the shift of
    the session is added.  Whenever it returns (any dtype),
    [spatialFootprints] holds one matrix per session, the one of session
    [ii] with one row per record of stat file [ii] and
    [frame height * frame width] columns; building [sessionID_concat]
    afterwards does not fail: it has one row per ROI of all the sessions;
    entries of the lists beyond [n_sessions] are not read.  The only
    exceptions are IndexError and ValueError. *)
Theorem import_ROI_spatialFootprints_sequential (cpu_count : Z)
    (simple_multiprocessing :
       list Z -> list (Z * Z) -> list (list roi) -> list dtype -> list bool ->
       list (Z * Z) -> Z -> result (list (csr_matrix NP.npfloat)))
    (self : Suite2p_self.attributes) (frame_height_width : option (Z * Z)) :
  let hw := match frame_height_width with
            | None => (Suite2p_self.FOV_height self, Suite2p_self.FOV_width self)
            | Some hw => hw
            end in
  let statFiles := match Suite2p_self.statFiles self with
                   | None => Suite2p_self.paths_stat self
                   | Some statFiles => statFiles
                   end in
  let n_roi := match Suite2p_self.statFiles self with
               | None => map len (Suite2p_self.paths_stat self)
               | Some _ => Suite2p_self.n_roi self
               end in
  let n := Suite2p_self.n_sessions self in
  let run dt := Data_suite2p_import.import_ROI_spatialFootprints
                  cpu_count simple_multiprocessing self frame_height_width dt 1 in
  ((exists r, run FloatType = Ok r)
   <-> 1 <= n
       /\ forall ii, 0 <= ii < n ->
            session_fits (fst hw) (snd hw) n_roi statFiles (Suite2p_self.shifts self) ii)
  /\ (forall dt self' sf, run dt = Ok (self', sf) ->
        Suite2p_self.spatialFootprints self' = sf
        /\ Suite2p_self.statFiles self' = Some statFiles
        /\ Suite2p_self.n_roi self' = n_roi
        /\ 1 <= n /\ len sf = n
        /\ (forall ii, 0 <= ii < n ->
              exists sf_ii stat,
                nth_error sf (Z.to_nat ii) = Some sf_ii
                /\ nth_error statFiles (Z.to_nat ii) = Some stat
                /\ csr_nrows sf_ii = len stat /\ 1 <= csr_nrows sf_ii
                /\ csr_ncols sf_ii = fst hw * snd hw)
        /\ Suite2p_self.sessionID_concat self' = membership_from n 0 (map csr_nrows sf)
        /\ len (Suite2p_self.sessionID_concat self') = zsum (map csr_nrows sf))
  /\ (forall dt e, run dt = Raise e -> e = IndexError \/ e = ValueError).
Proof.
  intros hw statFiles n_roi n run.
  set (session dt ii :=
         nr <- getitem n_roi ii ;;
         stat <- getitem statFiles ii ;;
         sh <- getitem (Suite2p_self.shifts self) ii ;;
         _helper_populate_sf nr hw stat dt (Data_suite2p_import.issubdtype_integer dt) sh).
  set (self1 := match Suite2p_self.statFiles self with
                | None => fst (Data_suite2p_import.import_statFiles self)
                | Some _ => self
                end).
  assert (Hrun : forall dt,
            run dt = (sfs <- for_each (session dt) (NP.arange n) ;;
                      membership <- sessionID_concat (map csr_nrows sfs) ;;
                      Ok (Suite2p_self.set_spatialFootprints self1 sfs membership, sfs))).
  { intros dt. subst run session self1 n_roi statFiles hw n.
    unfold Data_suite2p_import.import_ROI_spatialFootprints.
    destruct (Suite2p_self.statFiles self); reflexivity. }
  assert (Hself1 : Suite2p_self.statFiles self1 = Some statFiles
                   /\ Suite2p_self.n_roi self1 = n_roi).
  { subst self1 statFiles n_roi. destruct (Suite2p_self.statFiles self) eqn:E; auto. }
  assert (Hn1 : forall dt sfs m,
            for_each (session dt) (NP.arange n) = Ok sfs ->
            sessionID_concat (map csr_nrows sfs) = Ok m -> 1 <= n).
  { intros dt sfs m Hs Hm. apply sessionID_concat_nonempty in Hm.
    destruct (sessions_spec _ _ _ _ _ _ n sfs Hs) as (Hlen & _).
    destruct sfs; [exfalso; apply Hm; reflexivity|]. rewrite len_cons in Hlen.
    pose proof (len_nonneg sfs). lia. }
  split; [|split].
  - rewrite Hrun. split.
    + intros (r & Hr).
      destruct (for_each (session FloatType) (NP.arange n)) as [sfs|e] eqn:Hs;
        cbn [bind] in Hr; [|discriminate].
      destruct (sessionID_concat (map csr_nrows sfs)) as [m|e] eqn:Hm;
        cbn [bind] in Hr; [|discriminate].
      split; [exact (Hn1 _ _ _ Hs Hm)|].
      intros ii Hii. destruct hw as [h w] eqn:Ehw. cbn [fst snd].
      apply session_float_ok_iff; [lia|].
      assert (Hall : exists ys, for_each (session FloatType) (NP.arange n) = Ok ys) by eauto.
      rewrite for_each_ok_iff in Hall. apply Hall. apply arange_In. exact Hii.
    + intros (Hn & Hfits).
      assert (Hall : exists sfs, for_each (session FloatType) (NP.arange n) = Ok sfs).
      { apply for_each_ok_iff. intros ii Hii. apply arange_In in Hii.
        subst session. cbn beta. destruct hw as [h w] eqn:Ehw.
        apply session_float_ok_iff; [lia|]. apply (Hfits ii Hii). }
      destruct Hall as (sfs & Hs). rewrite Hs. cbn [bind].
      rewrite (sessions_membership _ _ _ _ _ _ n sfs Hn Hs). cbn [bind]. eauto.
  - intros dt self' sf Hr. rewrite Hrun in Hr.
    destruct (for_each (session dt) (NP.arange n)) as [sfs|e] eqn:Hs;
      cbn [bind] in Hr; [|discriminate].
    destruct (sessionID_concat (map csr_nrows sfs)) as [m|e] eqn:Hm;
      cbn [bind] in Hr; [|discriminate].
    injection Hr as <- <-.
    pose proof (Hn1 _ _ _ Hs Hm) as Hn.
    destruct (sessions_spec _ _ _ _ _ _ n sfs Hs) as (Hlen & Hrows & Hpos).
    rewrite (sessions_membership _ _ _ _ _ _ n sfs Hn Hs) in Hm. injection Hm as <-.
    cbn [Suite2p_self.set_spatialFootprints Suite2p_self.spatialFootprints
         Suite2p_self.statFiles Suite2p_self.n_roi Suite2p_self.sessionID_concat].
    split; [reflexivity|]. split; [apply Hself1|]. split; [apply Hself1|].
    split; [exact Hn|]. split; [lia|]. split; [exact Hrows|]. split; [reflexivity|].
    apply membership_from_len. intros k Hk. specialize (Hpos k Hk). lia.
  - intros dt e Hr. rewrite Hrun in Hr.
    destruct (for_each (session dt) (NP.arange n)) as [sfs|e1] eqn:Hs; cbn [bind] in Hr.
    + destruct (sessionID_concat (map csr_nrows sfs)) as [m|e2] eqn:Hm;
        cbn [bind] in Hr; [discriminate|].
      injection Hr as <-. right. eapply sessionID_concat_raises. exact Hm.
    + injection Hr as <-. apply for_each_raises in Hs as (ii & _ & Hii).
      eapply session_raises. exact Hii.
Qed.

Lemma import_ROI_spatialFootprints_sequential_witness :
  exists self' sf,
    Data_suite2p_import.import_ROI_spatialFootprints
      8 (fun _ _ _ _ _ _ _ => Raise ValueError) self_two_sessions None FloatType 1
    = Ok (self', sf)
    /\ len sf = 2
    /\ Suite2p_self.n_roi self' = [1; 2]
    /\ len (Suite2p_self.sessionID_concat self') = zsum (map csr_nrows sf).
Proof.
  destruct (Data_suite2p_import.import_ROI_spatialFootprints
              8 (fun _ _ _ _ _ _ _ => Raise ValueError) self_two_sessions None FloatType 1)
    as [[self' sf]|e] eqn:E; [|vm_compute in E; discriminate].
  exists self', sf. split; [reflexivity|].
  destruct (import_ROI_spatialFootprints_sequential
              8 (fun _ _ _ _ _ _ _ => Raise ValueError) self_two_sessions None)
    as (_ & Hspec & _).
  destruct (Hspec FloatType self' sf E) as (_ & _ & Hn & _ & Hlen & _ & _ & Hm).
  split; [exact Hlen|]. split; [exact Hn|exact Hm].
Defined.

(** ** Centred images of the computed centroids *)






(** ** [self.centroids] *)

Lemma reshape3_fits (sf : csr_matrix Q) (H W : Z) :
  csr_ncols sf = H * W ->
  exists x, reshape3 (COO sf) (csr_nrows sf, H, W) = Ok x
            /\ shape3 x = (csr_nrows sf, H, W).
Proof.
  intros Hcols. unfold reshape3, COO. cbn [shape2].
  replace (csr_nrows sf * csr_ncols sf =? csr_nrows sf * H * W) with true
    by (symmetry; apply Z.eqb_eq; rewrite Hcols; ring).
  cbn [negb]. eexists. split; reflexivity.
Qed.

Lemma reshape3_raises (x : COO2 Q) (shape : Z * Z * Z) (e : exn) :
  reshape3 x shape = Raise e -> e = ValueError.
Proof.
  unfold reshape3. destruct shape as [[d0 d1] d2]. destruct (shape2 x) as [n m].
  destruct (negb _); congruence.
Qed.

(** X16.  [Data_suite2p] can only be built with the weighted-mean method.
    Line 84 of [__init__] takes [.T] of what [get_centroids] returns for
    every session, and the method of the class returns [None] for
    ['median']: with at least one session, [self.centroids] is computed only
    if [centroid_method] is ['centroid']; for ['median'] the line raises
    AttributeError on footprint matrices of [FOV_height * FOV_width]
    columns (as [import_ROI_spatialFootprints] builds them), and for any
    other method ValueError; no other exception arises.  With ['centroid']
    and such matrices it returns, for every session, one (row, column) pair
    per ROI. *)
Theorem suite2p_centroids_need_weighted_mean (method : string)
    (spatialFootprints : list (csr_matrix Q)) (H W : Z) :
  spatialFootprints <> [] ->
  let run := init_centroids (Data_suite2p.get_centroids method) spatialFootprints H W in
  (forall centroids, run = Ok centroids -> method = "centroid"%string)
  /\ (forall e, run = Raise e -> e = AttributeError \/ e = ValueError)
  /\ ((forall sf, In sf spatialFootprints -> csr_ncols sf = H * W) ->
      (method = "median"%string -> run = Raise AttributeError)
      /\ (method <> "centroid"%string -> method <> "median"%string ->
          run = Raise ValueError)
      /\ (method = "centroid"%string ->
          exists centroids,
            run = Ok centroids
            /\ Forall2 (fun sf c => len c = csr_nrows sf) spatialFootprints centroids)).
Proof.
  intros Hne run. subst run. unfold init_centroids.
  split; [|split].
  - intros centroids Hrun. apply for_each_Forall2 in Hrun.
    destruct spatialFootprints as [|sf rest]; [congruence|].
    inversion Hrun as [|? c ? ? Hc _]; subst.
    unfold Data_suite2p.get_centroids in Hc.
    destruct (reshape3 _ _) as [x|e]; cbn [bind] in Hc; [|discriminate].
    destruct (String.eqb_spec method "centroid") as [->|_]; [reflexivity|].
    destruct (String.eqb method "median"); cbn [bind centroids_T] in Hc; discriminate.
  - intros e Hrun. apply for_each_raises in Hrun as (sf & _ & Hc).
    unfold Data_suite2p.get_centroids in Hc.
    destruct (reshape3 _ _) as [x|e'] eqn:Hr; cbn [bind] in Hc.
    + destruct (String.eqb method "centroid"); cbn [bind centroids_T] in Hc; [discriminate|].
      destruct (String.eqb method "median"); cbn [bind centroids_T] in Hc;
        injection Hc as <-; auto.
    + injection Hc as <-. right. eapply reshape3_raises. exact Hr.
  - intros Hshape.
    destruct spatialFootprints as [|sf rest]; [congruence|].
    assert (Hsf : csr_ncols sf = H * W) by (apply Hshape; left; reflexivity).
    split; [|split].
    + intros ->. cbn [for_each]. unfold Data_suite2p.get_centroids.
      destruct (reshape3_fits sf H W Hsf) as (x & -> & _). reflexivity.
    + intros H1 H2. cbn [for_each]. unfold Data_suite2p.get_centroids.
      destruct (reshape3_fits sf H W Hsf) as (x & -> & _). cbn [bind].
      destruct (String.eqb_spec method "centroid"); [contradiction|].
      destruct (String.eqb_spec method "median"); [contradiction|]. reflexivity.
    + intros ->.
      set (f := fun sf0 : csr_matrix Q =>
                  c <- Data_suite2p.get_centroids "centroid" sf0 H W ;; centroids_T c).
      assert (Hall : forall sf0, In sf0 (sf :: rest) ->
                exists c, f sf0 = Ok c /\ len c = csr_nrows sf0).
      { intros sf0 Hin. subst f. cbn beta. unfold Data_suite2p.get_centroids.
        destruct (reshape3_fits sf0 H W (Hshape sf0 Hin)) as (x & -> & Hx).
        cbn [bind String.eqb Ascii.eqb Bool.eqb andb centroids_T].
        eexists. split; [reflexivity|].
        unfold len, weighted_mean. rewrite length_combine, !length_map.
        pose proof (sum_axis2_length x) as E2. pose proof (sum_axis1_length x) as E1.
        rewrite Hx in E1, E2. cbn [fst] in E1, E2. unfold len in E1, E2.
        pose proof (len_nonneg (csr_rows sf0)). unfold csr_nrows, len in *. lia. }
      clear Hsf Hne. revert Hall. generalize (sf :: rest) as l. clear sf rest Hshape.
      induction l as [|sf0 t IH]; intros Hall.
      * exists []. split; [reflexivity|constructor].
      * destruct (Hall sf0 (or_introl eq_refl)) as (c & Hc & Hlen).
        destruct IH as (cs & Hcs & Hf); [intros s Hs; apply Hall; right; exact Hs|].
        exists (c :: cs). cbn [for_each]. rewrite Hc. cbn [bind]. rewrite Hcs. cbn [bind].
        split; [reflexivity|]. constructor; assumption.
Qed.

Lemma suite2p_centroids_need_weighted_mean_witness :
  init_centroids (Data_suite2p.get_centroids "median") [sf_two_rois] 40 40
  = Raise AttributeError
  /\ exists centroids,
       init_centroids (Data_suite2p.get_centroids "centroid") [sf_two_rois] 40 40
       = Ok centroids.
Proof.
  assert (Hne : [sf_two_rois] <> []) by discriminate.
  assert (Hshape : forall sf, In sf [sf_two_rois] -> csr_ncols sf = 40 * 40).
  { intros sf [<-|[]]. reflexivity. }
  split.
  - destruct (suite2p_centroids_need_weighted_mean "median" [sf_two_rois] 40 40 Hne)
      as (_ & _ & Hs).
    destruct (Hs Hshape) as (Hm & _). apply Hm. reflexivity.
  - destruct (suite2p_centroids_need_weighted_mean "centroid" [sf_two_rois] 40 40 Hne)
      as (_ & _ & Hs).
    destruct (Hs Hshape) as (_ & _ & Hc). destruct (Hc eq_refl) as (cs & Hcs & _).
    exists cs. exact Hcs.
Defined.

(** ** [self.n_sessions] and [self.shifts] *)

Lemma paths_of_length (items ps : list Pathlib.object) :
  Pathlib.paths_of items = Pathlib.Returns ps -> List.length ps = List.length items.
Proof.
  revert ps. induction items as [|x t IH]; intros ps H; cbn [Pathlib.paths_of] in H.
  - injection H as <-. reflexivity.
  - destruct (Pathlib.Path x); [|discriminate].
    destruct (Pathlib.paths_of t) as [ps'|]; [|discriminate].
    injection H as <-. cbn [List.length]. rewrite (IH ps' eq_refl). reflexivity.
Qed.

Lemma fix_paths_list_length (os : Pathlib.flavour) (items : list Pathlib.object)
    (paths_files : Pathlib.object) :
  fix_paths os (Pathlib.ListObj items) = Pathlib.Returns paths_files ->
  n_paths paths_files = len items /\ items <> [].
Proof.
  unfold fix_paths.
  replace (Pathlib.is_str (Pathlib.ListObj items)
           || Pathlib.is_PosixPath os (Pathlib.ListObj items)) with false
    by (destruct os; reflexivity).
  destruct items as [|x t]; cbn [Pathlib.first_item]; [discriminate|].
  cbn [Pathlib.iterate].
  destruct (Pathlib.is_str x).
  - destruct (Pathlib.paths_of (x :: t)) as [ps|] eqn:E; [|discriminate].
    intros H. injection H as <-. split; [|discriminate].
    unfold n_paths, len. rewrite (paths_of_length _ _ E). reflexivity.
  - destruct (_ || _); [|discriminate]. intros H. injection H as <-.
    split; [reflexivity|discriminate].
Qed.

(** X18.  [Data_suite2p.__init__] counts the sessions on the list that
    [fix_paths] returns, but sizes the zero shifts (no ops files, or not the
    'old' convention) by [len] of the argument as it was passed.  For every
    list that [fix_paths] accepts the two agree: one zero shift per session.
    For a single [str] there is one session and one shift per character of
    the path.  For a single path object, which [fix_paths] accepts on a
    POSIX system and the docstring allows, [len] raises TypeError, so the
    object cannot be built; only with ops files under the 'old' convention,
    where the argument is not measured, is a single path accepted. *)
Theorem init_shifts_sized_by_argument (os : Pathlib.flavour) (new_or_old_suite2p : string)
    (paths_opsFiles : option (list Data_suite2p.ops)) :
  (paths_opsFiles = None \/ new_or_old_suite2p <> "old"%string) ->
  (forall items paths_stat,
      fix_paths os (Pathlib.ListObj items) = Pathlib.Returns paths_stat ->
      init_n_sessions_shifts os new_or_old_suite2p (Pathlib.ListObj items) paths_opsFiles
      = Pathlib.Returns (len items, Ok (repeat (0, 0) (List.length items))))
  /\ (forall s,
        init_n_sessions_shifts os new_or_old_suite2p (Pathlib.Str s) paths_opsFiles
        = Pathlib.Returns (1, Ok (repeat (0, 0) (String.length s))))
  /\ (forall s,
        fix_paths Pathlib.Posix (Pathlib.PathObj s)
        = Pathlib.Returns (Pathlib.ListObj [Pathlib.PathObj s])
        /\ init_n_sessions_shifts Pathlib.Posix new_or_old_suite2p (Pathlib.PathObj s)
             paths_opsFiles
           = Pathlib.Raises Pathlib.TypeError
        /\ forall ops_files,
             init_n_sessions_shifts Pathlib.Posix "old" (Pathlib.PathObj s) (Some ops_files)
             = Pathlib.Returns (1, Data_suite2p.shifts "old" (Some ops_files) 0)).
Proof.
  intros Hzero.
  assert (Hshifts : forall n, Data_suite2p.shifts new_or_old_suite2p paths_opsFiles n
                              = Ok (repeat (0, 0) n)).
  { intros n. unfold Data_suite2p.shifts. destruct paths_opsFiles as [ops_files|]; [|reflexivity].
    destruct Hzero as [Hn|Hn]; [discriminate|].
    destruct (String.eqb_spec new_or_old_suite2p "old"); [contradiction|reflexivity]. }
  assert (Hbranch : forall (a b : Pathlib.outcome (Z * result (list (Z * Z)))),
            match paths_opsFiles with
            | Some _ => if String.eqb new_or_old_suite2p "old" then a else b
            | None => b
            end = b).
  { intros a b. destruct paths_opsFiles; [|reflexivity].
    destruct Hzero as [Hn|Hn]; [discriminate|].
    destruct (String.eqb_spec new_or_old_suite2p "old"); [contradiction|reflexivity]. }
  split; [|split].
  - intros items paths_stat Hfix. unfold init_n_sessions_shifts. rewrite Hfix, Hbranch.
    cbn [py_len]. rewrite Hshifts.
    destruct (fix_paths_list_length os items paths_stat Hfix) as [-> _]. reflexivity.
  - intros s. unfold init_n_sessions_shifts.
    replace (fix_paths os (Pathlib.Str s))
      with (Pathlib.Returns (Pathlib.ListObj [Pathlib.PathObj s]))
      by (destruct os; reflexivity).
    rewrite Hbranch. cbn [py_len]. rewrite Hshifts. reflexivity.
  - intros s. split; [reflexivity|]. split.
    + unfold init_n_sessions_shifts.
      replace (fix_paths Pathlib.Posix (Pathlib.PathObj s))
        with (Pathlib.Returns (Pathlib.ListObj [Pathlib.PathObj s])) by reflexivity.
      rewrite Hbranch. reflexivity.
    + intros ops_files. reflexivity.
Qed.

Lemma init_shifts_sized_by_argument_witness :
  init_n_sessions_shifts Pathlib.Posix "new"
    (Pathlib.ListObj [Pathlib.Str "a/stat.npy"; Pathlib.Str "b/stat.npy"]) None
  = Pathlib.Returns (2, Ok [(0, 0); (0, 0)])
  /\ init_n_sessions_shifts Pathlib.Posix "new" (Pathlib.PathObj "a/stat.npy") None
     = Pathlib.Raises Pathlib.TypeError.
Proof.
  destruct (init_shifts_sized_by_argument Pathlib.Posix "new" None (or_introl eq_refl))
    as (Hlist & _ & Hpath).
  split.
  - exact (Hlist [Pathlib.Str "a/stat.npy"; Pathlib.Str "b/stat.npy"] _ eq_refl).
  - exact (proj1 (proj2 (Hpath "a/stat.npy"%string))).
Defined.
